(** * Pet-Adoption-System: the real-time conversation subsystem

    A shallow embedding of the conversation and message store
    ([server/storage.ts]), the REST and WebSocket handlers
    ([server/routes.ts]), the client socket hook
    ([client/src/hooks/use-chat-socket.tsx]) and the message thread's
    cache updaters, followed by the properties established about them.

    Conventions.
    - JavaScript numbers that hold identifiers and epoch milliseconds are
      integers ([Z]).  The result of [parseInt], which may be [NaN], is a
      [jsnum].
    - A JavaScript [Map] keeps its entries in insertion order; it is an
      association list ([JsMap.t]) whose list order is the iteration order.
    - What a frame carries in a field typed [any] is a value of a type the
      hook is parametric in, with the operations of the language it
      applies to such a value; the property keys of the object it keeps
      the values under are another such type.
    - [new Date()] takes the clock reading as an explicit argument in the
      pure store operations, and reads an oracle in the handlers. *)

From Stdlib Require Import ZArith List Bool Lia String Permutation Sorted.
Import ListNotations.
Open Scope Z_scope.

(* ================================================================== *)
(** * JavaScript values used by the code *)

(** A number as produced by [parseInt]: an integer or [NaN]. *)
Inductive jsnum : Type :=
| NaN
| Num (z : Z).

(** [a === b] on numbers: [NaN] is equal to nothing, itself included. *)
Definition num_strict_eq (a b : jsnum) : bool :=
  match a, b with
  | Num x, Num y => x =? y
  | _, _ => false
  end.

(** [a === b] where [a] is [number | null] and [b] is a number. *)
Definition nullable_strict_eq (a : option jsnum) (b : jsnum) : bool :=
  match a with
  | Some x => num_strict_eq x b
  | None => false
  end.

(* ================================================================== *)
(** * [Map<number, V>]: an insertion-ordered map *)

Module JsMap.

Definition t (V : Type) : Type := list (Z * V).

Definition empty {V : Type} : t V := [].

Fixpoint get {V : Type} (k : Z) (m : t V) : option V :=
  match m with
  | [] => None
  | (k', v) :: r => if k' =? k then Some v else get k r
  end.

(** [m.set(k, v)]: an existing key keeps its position, a new key goes
    to the end. *)
Fixpoint set {V : Type} (k : Z) (v : V) (m : t V) : t V :=
  match m with
  | [] => [(k, v)]
  | (k', v') :: r =>
      if k' =? k then (k, v) :: r else (k', v') :: set k v r
  end.

Fixpoint delete {V : Type} (k : Z) (m : t V) : t V :=
  match m with
  | [] => []
  | (k', v') :: r => if k' =? k then r else (k', v') :: delete k r
  end.

Definition keys {V : Type} (m : t V) : list Z := map fst m.

Definition values {V : Type} (m : t V) : list V := map snd m.

(** [m.forEach((value, key) => ...)], the callback threading the state
    it mutates. *)
Definition forEach {V A : Type} (f : V -> Z -> A -> A) (m : t V) (acc : A) : A :=
  fold_left (fun a kv => f (snd kv) (fst kv) a) m acc.

(** A [Map] holds each key once. *)
Definition wf {V : Type} (m : t V) : Prop := NoDup (keys m).

End JsMap.

(** [array.find(p)] *)
Fixpoint array_find {A : Type} (p : A -> bool) (l : list A) : option A :=
  match l with
  | [] => None
  | x :: r => if p x then Some x else array_find p r
  end.

(** [array.some(p)] *)
Definition array_some {A : Type} (p : A -> bool) (l : list A) : bool :=
  existsb p l.

(** [array.includes(x)] on numbers *)
Definition array_includes (x : Z) (l : list Z) : bool :=
  existsb (Z.eqb x) l.

(* ================================================================== *)
(** * The schema ([shared/schema.ts]) *)

Inductive UserRole : Type := RoleUser | RoleOwner | RoleAdmin.

Module InsertUser.
(** The columns with a default ([role], [isAdmin]) and the nullable ones
    may be left out. *)
Record t : Type := mk {
  username : string;
  password : string;
  email : string;
  name : string;
  phone : option string;
  location : option string;
  bio : option string;
  avatar : option string;
  role : option UserRole;
  isAdmin : option bool
}.
End InsertUser.

Module User.
(** [{ ...insertUser, id, createdAt }] *)
Record t : Type := mk {
  fields : InsertUser.t;
  id : Z;
  createdAt : Z
}.
End User.

Module InsertPet.
Record t : Type := mk {
  name : string;
  petType : string;
  breed : string;
  gender : string;
  age : Z;
  ageGroup : string;
  size : string;
  location : string;
  description : string;
  goodWithChildren : option bool;
  goodWithDogs : option bool;
  goodWithCats : option bool;
  mainImage : string;
  additionalImages : option (list string);
  statusTag : option string;
  adopted : option bool
}.
End InsertPet.

Module PartialPet.
(** [Partial<InsertPet>]: every column optional. *)
Record t : Type := mk {
  name : option string;
  petType : option string;
  breed : option string;
  gender : option string;
  age : option Z;
  ageGroup : option string;
  size : option string;
  location : option string;
  description : option string;
  goodWithChildren : option (option bool);
  goodWithDogs : option (option bool);
  goodWithCats : option (option bool);
  mainImage : option string;
  additionalImages : option (option (list string));
  statusTag : option (option string);
  adopted : option bool
}.
End PartialPet.

Module Pet.
(** [{ ...insertPet, id, createdAt, updatedAt }], [ownerId] being part
    of the argument of [createPet]. *)
Record t : Type := mk {
  fields : InsertPet.t;
  ownerId : Z;
  id : Z;
  createdAt : Z;
  updatedAt : Z
}.
End Pet.

Module InsertConversation.
Record t : Type := mk {
  petId : Z;
  adopterId : Z;
  ownerId : Z;
  title : string
}.
End InsertConversation.

Module Conversation.
Record t : Type := mk {
  id : Z;
  petId : Z;
  adopterId : Z;
  ownerId : Z;
  title : string;
  lastMessageAt : Z
}.
End Conversation.

Module InsertMessage.
(** [InsertMessage & { senderId: number }] *)
Record t : Type := mk {
  conversationId : Z;
  content : string;
  senderId : Z
}.
End InsertMessage.

Module Message.
Record t : Type := mk {
  id : Z;
  conversationId : Z;
  senderId : Z;
  content : string;
  isRead : bool;
  createdAt : Z
}.

(** [{ ...msg, isRead: true }], also the effect of [msg.isRead = true]. *)
Definition markRead (m : t) : t :=
  mk (id m) (conversationId m) (senderId m) (content m) true (createdAt m).
End Message.

(** One column of [{ ...pet, ...updateData }]: the update's value when
    the update has the key. *)
Definition orElse {A : Type} (o : option A) (d : A) : A :=
  match o with
  | Some x => x
  | None => d
  end.

(** [{ ...pet, ...updateData }] restricted to the insertable columns. *)
Definition spreadPet (p : InsertPet.t) (u : PartialPet.t) : InsertPet.t :=
  InsertPet.mk
    (orElse (PartialPet.name u) (InsertPet.name p))
    (orElse (PartialPet.petType u) (InsertPet.petType p))
    (orElse (PartialPet.breed u) (InsertPet.breed p))
    (orElse (PartialPet.gender u) (InsertPet.gender p))
    (orElse (PartialPet.age u) (InsertPet.age p))
    (orElse (PartialPet.ageGroup u) (InsertPet.ageGroup p))
    (orElse (PartialPet.size u) (InsertPet.size p))
    (orElse (PartialPet.location u) (InsertPet.location p))
    (orElse (PartialPet.description u) (InsertPet.description p))
    (orElse (PartialPet.goodWithChildren u) (InsertPet.goodWithChildren p))
    (orElse (PartialPet.goodWithDogs u) (InsertPet.goodWithDogs p))
    (orElse (PartialPet.goodWithCats u) (InsertPet.goodWithCats p))
    (orElse (PartialPet.mainImage u) (InsertPet.mainImage p))
    (orElse (PartialPet.additionalImages u) (InsertPet.additionalImages p))
    (orElse (PartialPet.statusTag u) (InsertPet.statusTag p))
    (match PartialPet.adopted u with
   | Some b => Some b
   | None => InsertPet.adopted p
   end).

(** The conversation's (petId, adopterId, ownerId) triple test used by
    [getConversationByParticipants]. *)
Definition sameParticipants (petId adopterId ownerId : Z) (c : Conversation.t) : bool :=
  (Conversation.petId c =? petId) &&
  (Conversation.adopterId c =? adopterId) &&
  (Conversation.ownerId c =? ownerId).

(* ================================================================== *)
(** * Sorting by [createdAt]

    [Array.prototype.sort] is stable, and the comparator
    [(a, b) => time(a) - time(b)] is a consistent total preorder, so the
    result is the one stable arrangement of the array by ascending
    [createdAt]: the insertion sort below. *)

Fixpoint insertByCreatedAt (m : Message.t) (l : list Message.t) : list Message.t :=
  match l with
  | [] => [m]
  | h :: r =>
      if Message.createdAt m - Message.createdAt h <=? 0
      then m :: h :: r
      else h :: insertByCreatedAt m r
  end.

Fixpoint sortByCreatedAt (l : list Message.t) : list Message.t :=
  match l with
  | [] => []
  | m :: r => insertByCreatedAt m (sortByCreatedAt r)
  end.

(* ================================================================== *)
(** * [MemStorage] ([server/storage.ts]) *)

Module MemStorage.

Record t : Type := mk {
  users : JsMap.t User.t;
  pets : JsMap.t Pet.t;
  conversations : JsMap.t Conversation.t;
  messages : JsMap.t Message.t;
  currentUserId : Z;
  currentPetId : Z;
  currentConversationId : Z;
  currentMessageId : Z
}.

(** The maps and counters the constructor sets up, before it adds its
    sample rows. *)
Definition init : t :=
  mk JsMap.empty JsMap.empty JsMap.empty JsMap.empty 1 1 1 1.

Definition withUsers (s : t) (u : JsMap.t User.t) (next : Z) : t :=
  mk u (pets s) (conversations s) (messages s)
     next (currentPetId s) (currentConversationId s) (currentMessageId s).

Definition withPets (s : t) (p : JsMap.t Pet.t) (next : Z) : t :=
  mk (users s) p (conversations s) (messages s)
     (currentUserId s) next (currentConversationId s) (currentMessageId s).

Definition withConversations (s : t) (c : JsMap.t Conversation.t) (next : Z) : t :=
  mk (users s) (pets s) c (messages s)
     (currentUserId s) (currentPetId s) next (currentMessageId s).

Definition withMessages (s : t) (m : JsMap.t Message.t) (next : Z) : t :=
  mk (users s) (pets s) (conversations s) m
     (currentUserId s) (currentPetId s) (currentConversationId s) next.

(** ** Users *)

Definition getUser (id : Z) (s : t) : option User.t :=
  JsMap.get id (users s).

Definition createUser (insertUser : InsertUser.t) (now : Z) (s : t) : User.t * t :=
  let id := currentUserId s in
  let user := User.mk insertUser id now in
  (user, withUsers s (JsMap.set id user (users s)) (id + 1)).

Definition updateUserRole (id : Z) (role : UserRole) (isAdmin : option bool) (s : t)
  : option User.t * t :=
  match JsMap.get id (users s) with
  | None => (None, s)
  | Some user =>
      let f := User.fields user in
      let admin :=
        match isAdmin with
        | Some b => b
        | None => match role with RoleAdmin => true | _ => false end
        end in
      let updatedUser :=
        User.mk
          (InsertUser.mk (InsertUser.username f) (InsertUser.password f)
             (InsertUser.email f) (InsertUser.name f) (InsertUser.phone f)
             (InsertUser.location f) (InsertUser.bio f) (InsertUser.avatar f)
             (Some role) (Some admin))
          (User.id user) (User.createdAt user) in
      (Some updatedUser, withUsers s (JsMap.set id updatedUser (users s)) (currentUserId s))
  end.

(** ** Pets *)

Definition getPet (id : Z) (s : t) : option Pet.t :=
  JsMap.get id (pets s).

Definition createPet (insertPet : InsertPet.t) (ownerId : Z) (now : Z) (s : t) : Pet.t * t :=
  let id := currentPetId s in
  let pet := Pet.mk insertPet ownerId id now now in
  (pet, withPets s (JsMap.set id pet (pets s)) (id + 1)).

(** [None] stands for the thrown ["Pet not found"]. *)
Definition updatePet (id : Z) (updateData : PartialPet.t) (now : Z) (s : t)
  : option (Pet.t * t) :=
  match JsMap.get id (pets s) with
  | None => None
  | Some pet =>
      let updatedPet :=
        Pet.mk (spreadPet (Pet.fields pet) updateData)
               (Pet.ownerId pet) (Pet.id pet) (Pet.createdAt pet) now in
      Some (updatedPet, withPets s (JsMap.set id updatedPet (pets s)) (currentPetId s))
  end.

(** The inner loop of [deletePet]: the messages of one conversation. *)
Definition deleteConversationCascade (convId : Z)
    (cm : JsMap.t Conversation.t * JsMap.t Message.t)
  : JsMap.t Conversation.t * JsMap.t Message.t :=
  let convs := JsMap.delete convId (fst cm) in
  let messagesToDelete :=
    JsMap.forEach
      (fun message _ acc =>
         if Message.conversationId message =? convId
         then acc ++ [Message.id message] else acc)
      (snd cm) [] in
  (convs, fold_left (fun msgs msgId => JsMap.delete msgId msgs) messagesToDelete (snd cm)).

Definition deletePet (id : Z) (s : t) : t :=
  let pets' := JsMap.delete id (pets s) in
  let conversationsToDelete :=
    JsMap.forEach
      (fun conversation _ acc =>
         if Conversation.petId conversation =? id
         then acc ++ [Conversation.id conversation] else acc)
      (conversations s) [] in
  let cm :=
    fold_left (fun cm convId => deleteConversationCascade convId cm)
              conversationsToDelete (conversations s, messages s) in
  mk (users s) pets' (fst cm) (snd cm)
     (currentUserId s) (currentPetId s) (currentConversationId s) (currentMessageId s).

(** ** Conversations *)

Definition getConversation (id : Z) (s : t) : option Conversation.t :=
  JsMap.get id (conversations s).

Definition getConversationByParticipants (petId adopterId ownerId : Z) (s : t)
  : option Conversation.t :=
  array_find (sameParticipants petId adopterId ownerId)
             (JsMap.values (conversations s)).

Definition createConversation (insertConversation : InsertConversation.t) (now : Z) (s : t)
  : Conversation.t * t :=
  let id := currentConversationId s in
  let conversation :=
    Conversation.mk id
      (InsertConversation.petId insertConversation)
      (InsertConversation.adopterId insertConversation)
      (InsertConversation.ownerId insertConversation)
      (InsertConversation.title insertConversation)
      now in
  (conversation,
   withConversations s (JsMap.set id conversation (conversations s)) (id + 1)).

Definition updateConversationLastMessageTime (id : Z) (now : Z) (s : t) : t :=
  match JsMap.get id (conversations s) with
  | None => s
  | Some conversation =>
      let conversation' :=
        Conversation.mk (Conversation.id conversation) (Conversation.petId conversation)
          (Conversation.adopterId conversation) (Conversation.ownerId conversation)
          (Conversation.title conversation) now in
      withConversations s (JsMap.set id conversation' (conversations s))
                        (currentConversationId s)
  end.

(** ** Messages *)

Definition getConversationMessages (conversationId : Z) (s : t) : list Message.t :=
  let messages :=
    filter (fun message => Message.conversationId message =? conversationId)
           (JsMap.values (messages s)) in
  sortByCreatedAt messages.

Definition createMessage (insertMessage : InsertMessage.t) (now : Z) (s : t)
  : Message.t * t :=
  let id := currentMessageId s in
  let message :=
    Message.mk id
      (InsertMessage.conversationId insertMessage)
      (InsertMessage.senderId insertMessage)
      (InsertMessage.content insertMessage)
      false
      now in
  (message, withMessages s (JsMap.set id message (messages s)) (id + 1)).

(** One round of the [forEach] in [markMessagesAsRead]. *)
Definition markOne (userId : Z) (msgs : JsMap.t Message.t) (id : Z) : JsMap.t Message.t :=
  match JsMap.get id msgs with
  | Some message =>
      if negb (Message.senderId message =? userId)
      then JsMap.set id (Message.markRead message) msgs
      else msgs
  | None => msgs
  end.

(** The ids of the request body that are not numbers stored as keys
    find no message and change nothing, so the list holds numbers. *)
Definition markMessagesAsRead (messageIds : list Z) (userId : Z) (s : t) : t :=
  withMessages s (fold_left (markOne userId) messageIds (messages s))
               (currentMessageId s).

(** ** The mutating operations, as data *)

Inductive Op : Type :=
| CreateUser (insertUser : InsertUser.t)
| UpdateUserRole (id : Z) (role : UserRole) (isAdmin : option bool)
| CreatePet (insertPet : InsertPet.t) (ownerId : Z)
| UpdatePet (id : Z) (updateData : PartialPet.t)
| DeletePet (id : Z)
| CreateConversation (insertConversation : InsertConversation.t)
| UpdateConversationLastMessageTime (id : Z)
| CreateMessage (insertMessage : InsertMessage.t)
| MarkMessagesAsRead (messageIds : list Z) (userId : Z).

(** The store after one operation called at clock reading [now]. *)
Definition apply (op : Op) (now : Z) (s : t) : t :=
  match op with
  | CreateUser u => snd (createUser u now s)
  | UpdateUserRole id role isAdmin => snd (updateUserRole id role isAdmin s)
  | CreatePet p ownerId => snd (createPet p ownerId now s)
  | UpdatePet id u =>
      match updatePet id u now s with
      | Some (_, s') => s'
      | None => s
      end
  | DeletePet id => deletePet id s
  | CreateConversation c => snd (createConversation c now s)
  | UpdateConversationLastMessageTime id => updateConversationLastMessageTime id now s
  | CreateMessage m => snd (createMessage m now s)
  | MarkMessagesAsRead ids userId => markMessagesAsRead ids userId s
  end.

(** The stores the operations can produce from the empty one. *)
Inductive reachable : t -> Prop :=
| reachable_init : reachable init
| reachable_step : forall op now s, reachable s -> reachable (apply op now s).

(** Every message sits under its own id, below the id counter. *)
Definition messagesWf (s : t) : Prop :=
  JsMap.wf (messages s) /\
  forall k m, JsMap.get k (messages s) = Some m ->
              Message.id m = k /\ k < currentMessageId s.

End MemStorage.

(* ================================================================== *)
(** * Promises, the clock and the database connection

    A storage method is an [async] function: it resolves with a value or
    rejects.  What it runs against is the store together with the two
    things outside the program it consults: the clock ([new Date()]) and,
    for [DatabaseStorage], the connection to the database, any statement
    on which may reject.  Both are oracles read through a cursor:
    [dbFaults] tells of each statement whether it rejects, [dbTraces]
    what, rejecting, it has left in the database. *)

Inductive Error : Type :=
| ZodError
| OtherError.

Inductive outcome (A : Type) : Type :=
| Resolved (a : A)
| Rejected (e : Error).

Arguments Resolved {A} a.
Arguments Rejected {A} e.

(** What a statement that rejects has left behind: nothing; or the
    value it drew from a sequence, when it is an insert into a table
    with a serial key, a draw being never given back; or all of its
    effect, when the database carried it out and the answer was lost. *)
Inductive Trace : Type :=
| Untouched
| Drawn
| Applied.

Definition leftBy {St : Type} (t : Trace) (untouched drawn applied : St) : St :=
  match t with
  | Untouched => untouched
  | Drawn => drawn
  | Applied => applied
  end.

Record Backend (St : Type) : Type := mkBackend {
  store : St;
  clock : nat -> Z;
  dateReads : nat;
  dbFaults : nat -> bool;
  dbStatements : nat;
  dbTraces : nat -> Trace
}.

Arguments mkBackend {St} _ _ _ _ _ _.
Arguments store {St} _.
Arguments clock {St} _.
Arguments dateReads {St} _.
Arguments dbFaults {St} _.
Arguments dbStatements {St} _.
Arguments dbTraces {St} _.

(** An [async] computation over a state [W]: it resolves or rejects,
    and leaves the state it has reached either way. *)
Definition Promise (W A : Type) : Type := W -> outcome A * W.

Definition ret {W A : Type} (a : A) : Promise W A :=
  fun w => (Resolved a, w).

Definition bind {W A B : Type} (m : Promise W A) (f : A -> Promise W B) : Promise W B :=
  fun w =>
    match m w with
    | (Resolved a, w') => f a w'
    | (Rejected e, w') => (Rejected e, w')
    end.

(** A storage method. *)
Definition Async (St A : Type) : Type := Promise (Backend St) A.

Declare Scope async_scope.
Delimit Scope async_scope with async.
Notation "x <- m ;; k" := (bind m (fun x => k))
  (at level 61, m at next level, right associativity) : async_scope.
Notation "m ;;; k" := (bind m (fun _ => k))
  (at level 61, right associativity) : async_scope.

(** [new Date()] *)
Definition newDate {St : Type} : Async St Z :=
  fun b =>
    (Resolved (clock b (dateReads b)),
     mkBackend (store b) (clock b) (S (dateReads b)) (dbFaults b) (dbStatements b)
               (dbTraces b)).

(** A synchronous method body of [MemStorage] acting on the store. *)
Definition onStore {St A : Type} (f : St -> A * St) : Async St A :=
  fun b =>
    let (a, s') := f (store b) in
    (Resolved a,
     mkBackend s' (clock b) (dateReads b) (dbFaults b) (dbStatements b) (dbTraces b)).

(** One awaited [select] or [update] on the database: when the
    connection says so it rejects, its effect carried out or not as
    [dbTraces] tells, and otherwise it runs to completion. *)
Definition statement {St A : Type} (f : St -> A * St) : Async St A :=
  fun b =>
    if dbFaults b (dbStatements b)
    then (Rejected OtherError,
          mkBackend (leftBy (dbTraces b (dbStatements b))
                            (store b) (store b) (snd (f (store b))))
                    (clock b) (dateReads b) (dbFaults b) (S (dbStatements b))
                    (dbTraces b))
    else
      let (a, s') := f (store b) in
      (Resolved a,
       mkBackend s' (clock b) (dateReads b) (dbFaults b) (S (dbStatements b))
                 (dbTraces b)).

(** One awaited [insert] into a table whose key is a [serial] column.
    The key of the new row is drawn from the sequence of the column
    ([draw]): when the statement rejects, it has left nothing, or the
    sequence one further and no row, or the row, as [dbTraces] tells. *)
Definition insert {St A : Type} (draw : St -> St) (f : St -> A * St) : Async St A :=
  fun b =>
    if dbFaults b (dbStatements b)
    then (Rejected OtherError,
          mkBackend (leftBy (dbTraces b (dbStatements b))
                            (store b) (draw (store b)) (snd (f (store b))))
                    (clock b) (dateReads b) (dbFaults b) (S (dbStatements b))
                    (dbTraces b))
    else
      let (a, s') := f (store b) in
      (Resolved a,
       mkBackend s' (clock b) (dateReads b) (dbFaults b) (S (dbStatements b))
                 (dbTraces b)).

(** The part of [IStorage] the conversation endpoints call. *)
Class IStorage (St : Type) : Type := {
  getPet : Z -> Async St (option Pet.t);
  getConversation : Z -> Async St (option Conversation.t);
  getConversationByParticipants : Z -> Z -> Z -> Async St (option Conversation.t);
  createConversation : InsertConversation.t -> Async St Conversation.t;
  updateConversationLastMessageTime : Z -> Async St unit;
  createMessage : InsertMessage.t -> Async St Message.t;
  markMessagesAsRead : list Z -> Z -> Async St unit
}.

Open Scope async_scope.

#[export] Instance MemStorage_IStorage : IStorage MemStorage.t := {
  getPet id := onStore (fun s => (MemStorage.getPet id s, s));
  getConversation id := onStore (fun s => (MemStorage.getConversation id s, s));
  getConversationByParticipants petId adopterId ownerId :=
    onStore (fun s =>
      (MemStorage.getConversationByParticipants petId adopterId ownerId s, s));
  createConversation insertConversation :=
    now <- newDate ;;
    onStore (MemStorage.createConversation insertConversation now);
  updateConversationLastMessageTime id :=
    conversation <- onStore (fun s => (JsMap.get id (MemStorage.conversations s), s)) ;;
    match conversation with
    | None => ret tt
    | Some _ =>
        now <- newDate ;;
        onStore (fun s => (tt, MemStorage.updateConversationLastMessageTime id now s))
    end;
  createMessage insertMessage :=
    now <- newDate ;;
    onStore (MemStorage.createMessage insertMessage now);
  markMessagesAsRead messageIds userId :=
    onStore (fun s => (tt, MemStorage.markMessagesAsRead messageIds userId s))
}.

(* ================================================================== *)
(** * [DatabaseStorage] ([server/storage.ts])

    The tables the conversation endpoints touch, each a list of rows, and
    the two serial sequences.  A query is one [statement] or one
    [insert]; nothing groups them into a transaction. *)

Module DatabaseStorage.

Record t : Type := mk {
  pets : list Pet.t;
  conversations : list Conversation.t;
  messages : list Message.t;
  conversations_id_seq : Z;
  messages_id_seq : Z
}.

Definition withConversations (d : t) (c : list Conversation.t) (next : Z) : t :=
  mk (pets d) c (messages d) next (messages_id_seq d).

Definition withMessages (d : t) (m : list Message.t) (next : Z) : t :=
  mk (pets d) (conversations d) m (conversations_id_seq d) next.

(** [const [row] = await db.select()...] *)
Definition firstRow {A : Type} (rows : list A) : option A :=
  match rows with
  | [] => None
  | r :: _ => Some r
  end.

Definition getPet (id : Z) : Async t (option Pet.t) :=
  rows <- statement (fun d => (filter (fun p => Pet.id p =? id) (pets d), d)) ;;
  ret (firstRow rows).

Definition getConversation (id : Z) : Async t (option Conversation.t) :=
  rows <- statement (fun d =>
            (filter (fun c => Conversation.id c =? id) (conversations d), d)) ;;
  ret (firstRow rows).

Definition getConversationByParticipants (petId adopterId ownerId : Z)
  : Async t (option Conversation.t) :=
  rows <- statement (fun d =>
            (filter (sameParticipants petId adopterId ownerId) (conversations d), d)) ;;
  ret (firstRow rows).

Definition insertConversation (c : InsertConversation.t) (lastMessageAt : Z) (d : t)
  : Conversation.t * t :=
  let id := conversations_id_seq d in
  let row :=
    Conversation.mk id (InsertConversation.petId c) (InsertConversation.adopterId c)
      (InsertConversation.ownerId c) (InsertConversation.title c) lastMessageAt in
  (row, withConversations d (conversations d ++ [row]) (id + 1)).

(** [nextval] of the sequence of [conversations.id]. *)
Definition drawConversationId (d : t) : t :=
  withConversations d (conversations d) (conversations_id_seq d + 1).

Definition createConversation (c : InsertConversation.t) : Async t Conversation.t :=
  now <- newDate ;;
  insert drawConversationId (insertConversation c now).

Definition setLastMessageAt (id : Z) (now : Z) (d : t) : unit * t :=
  (tt,
   withConversations d
     (map (fun c =>
             if Conversation.id c =? id
             then Conversation.mk (Conversation.id c) (Conversation.petId c)
                    (Conversation.adopterId c) (Conversation.ownerId c)
                    (Conversation.title c) now
             else c)
          (conversations d))
     (conversations_id_seq d)).

Definition updateConversationLastMessageTime (id : Z) : Async t unit :=
  now <- newDate ;;
  statement (setLastMessageAt id now).

Definition insertMessage (m : InsertMessage.t) (createdAt : Z) (d : t) : Message.t * t :=
  let id := messages_id_seq d in
  let row :=
    Message.mk id (InsertMessage.conversationId m) (InsertMessage.senderId m)
      (InsertMessage.content m) false createdAt in
  (row, withMessages d (messages d ++ [row]) (id + 1)).

(** [nextval] of the sequence of [messages.id]. *)
Definition drawMessageId (d : t) : t :=
  withMessages d (messages d) (messages_id_seq d + 1).

Definition createMessage (m : InsertMessage.t) : Async t Message.t :=
  now <- newDate ;;
  message <- insert drawMessageId (insertMessage m now) ;;
  updateConversationLastMessageTime (InsertMessage.conversationId m) ;;;
  ret message.

Definition setIsRead (id : Z) (d : t) : unit * t :=
  (tt,
   withMessages d
     (map (fun m => if Message.id m =? id then Message.markRead m else m) (messages d))
     (messages_id_seq d)).

Fixpoint markMessagesAsRead (messageIds : list Z) (userId : Z) : Async t unit :=
  match messageIds with
  | [] => ret tt
  | id :: rest =>
      rows <- statement (fun d => (filter (fun m => Message.id m =? id) (messages d), d)) ;;
      match firstRow rows with
      | Some message =>
          if negb (Message.senderId message =? userId)
          then statement (setIsRead id) ;;; markMessagesAsRead rest userId
          else markMessagesAsRead rest userId
      | None => markMessagesAsRead rest userId
      end
  end.

End DatabaseStorage.

#[export] Instance DatabaseStorage_IStorage : IStorage DatabaseStorage.t := {
  getPet := DatabaseStorage.getPet;
  getConversation := DatabaseStorage.getConversation;
  getConversationByParticipants := DatabaseStorage.getConversationByParticipants;
  createConversation := DatabaseStorage.createConversation;
  updateConversationLastMessageTime := DatabaseStorage.updateConversationLastMessageTime;
  createMessage := DatabaseStorage.createMessage;
  markMessagesAsRead := DatabaseStorage.markMessagesAsRead
}.

(* ================================================================== *)
(** * The server ([server/routes.ts]) *)

(** A connection is known by the identity of its [WebSocket] object. *)
Definition WebSocket : Type := Z.

Inductive ReadyState : Type :=
| CONNECTING
| OPEN
| CLOSING
| CLOSED.

Definition isOpen (r : ReadyState) : bool :=
  match r with
  | OPEN => true
  | _ => false
  end.

(** The value kept for each connection in [connections]. *)
Record ConnectionInfo : Type := mkConnectionInfo {
  userId : option jsnum;
  conversationId : option jsnum
}.

(** [client !== excludeClient], the excluded client being optional. *)
Definition isNot (client : WebSocket) (excludeClient : option WebSocket) : bool :=
  match excludeClient with
  | Some e => negb (client =? e)
  | None => true
  end.

(** The frames the server writes.  [JsonValue] is whatever a field of a
    client frame may hold; the typing frames pass [userId] on as it
    came. *)
Inductive WebSocketMessage (JsonValue : Type) : Type :=
| connected (message : string)
| new_message (data : Message.t)
| message_read (messageIds : list Z) (userId : Z)
| typing (userId : JsonValue)
| stop_typing (userId : JsonValue)
| pong.

Arguments connected {JsonValue} message.
Arguments new_message {JsonValue} data.
Arguments message_read {JsonValue} messageIds userId.
Arguments typing {JsonValue} userId.
Arguments stop_typing {JsonValue} userId.
Arguments pong {JsonValue}.

(** What [JSON.parse] and the handler's reading of the fields make of a
    received frame.  [Unreadable] is a frame on which the handler throws:
    text that is not JSON, or a frame of a known type with no [data] to
    take the fields from.  [OtherType] is a frame none of the branches
    matches. *)
Inductive ClientFrame (JsonValue : Type) : Type :=
| Unreadable
| AuthFrame (userId conversationId : JsonValue)
| TypingFrame (conversationId userId : JsonValue)
| StopTypingFrame (conversationId userId : JsonValue)
| PingFrame
| OtherType.

Arguments Unreadable {JsonValue}.
Arguments AuthFrame {JsonValue} userId conversationId.
Arguments TypingFrame {JsonValue} conversationId userId.
Arguments StopTypingFrame {JsonValue} conversationId userId.
Arguments PingFrame {JsonValue}.
Arguments OtherType {JsonValue}.

Definition isAuthFrame {JsonValue : Type} (f : ClientFrame JsonValue) : bool :=
  match f with
  | AuthFrame _ _ => true
  | _ => false
  end.

(** The response a REST handler sends. *)
Inductive ResponseBody : Type :=
| ErrorBody (message : string)
| ConversationBody (c : Conversation.t)
| MessageBody (m : Message.t)
| EmptyBody.

Record Response : Type := mkResponse {
  status : Z;
  body : ResponseBody
}.

(** The validated body of [POST /api/messages]: [insertMessageSchema]. *)
Record MessageData : Type := mkMessageData {
  md_conversationId : Z;
  md_content : string
}.

(** The server process: the storage with its environment, the
    [connections] map, the transport state of every socket, and the two
    things the handlers emit, oldest first: the calls of
    [broadcastToConversation] and the calls of [send] on a socket. *)
Record Server (St JsonValue : Type) : Type := mkServer {
  backend : Backend St;
  connections : JsMap.t ConnectionInfo;
  readyState : WebSocket -> ReadyState;
  published : list (jsnum * WebSocketMessage JsonValue);
  outbox : list (WebSocket * WebSocketMessage JsonValue)
}.

Arguments mkServer {St JsonValue} _ _ _ _ _.
Arguments backend {St JsonValue} _.
Arguments connections {St JsonValue} _.
Arguments readyState {St JsonValue} _.
Arguments published {St JsonValue} _.
Arguments outbox {St JsonValue} _.

Section Routes.

Context {St : Type} {storage : IStorage St}.
Context {JsonValue : Type} (parseInt : JsonValue -> jsnum).

Let Msg : Type := WebSocketMessage JsonValue.
Let Srv : Type := Server St JsonValue.

(** ** The broadcast *)

(** The body of the [forEach] of [broadcastToConversation], the calls
    of [client.send] collected in order. *)
Definition broadcastVisit (ready : WebSocket -> ReadyState)
    (conversationId0 : jsnum) (message : Msg) (excludeClient : option WebSocket)
    (connectionInfo : ConnectionInfo) (client : WebSocket)
    (sent : list (WebSocket * Msg)) : list (WebSocket * Msg) :=
  if isOpen (ready client) &&
     nullable_strict_eq (conversationId connectionInfo) conversationId0 &&
     isNot client excludeClient
  then sent ++ [(client, message)]
  else sent.

(** The frames [broadcastToConversation] sends, and to whom. *)
Definition broadcastToConversation (conns : JsMap.t ConnectionInfo)
    (ready : WebSocket -> ReadyState)
    (conversationId0 : jsnum) (message : Msg) (excludeClient : option WebSocket)
  : list (WebSocket * Msg) :=
  JsMap.forEach (broadcastVisit ready conversationId0 message excludeClient) conns [].

(** The call, as a step of the server. *)
Definition broadcast (conversationId0 : jsnum) (message : Msg)
    (excludeClient : option WebSocket) (srv : Srv) : Srv :=
  mkServer (backend srv) (connections srv) (readyState srv)
    (published srv ++ [(conversationId0, message)])
    (outbox srv ++
     broadcastToConversation (connections srv) (readyState srv)
       conversationId0 message excludeClient).

(** [ws.send(...)] *)
Definition send (ws : WebSocket) (message : Msg) (srv : Srv) : Srv :=
  mkServer (backend srv) (connections srv) (readyState srv) (published srv)
    (outbox srv ++ [(ws, message)]).

Definition setConnections (conns : JsMap.t ConnectionInfo) (srv : Srv) : Srv :=
  mkServer (backend srv) conns (readyState srv) (published srv) (outbox srv).

(** ** The WebSocket server *)

(** [wss.on('connection', ...)] *)
Definition onConnection (ws : WebSocket) (srv : Srv) : Srv :=
  send ws (connected "Connected to PawMates Chat Server")
    (setConnections (JsMap.set ws (mkConnectionInfo None None) (connections srv)) srv).

(** [ws.on('message', ...)]; a thrown error is logged and that is all. *)
Definition onMessage (ws : WebSocket) (frame : ClientFrame JsonValue) (srv : Srv) : Srv :=
  match frame with
  | Unreadable => srv
  | AuthFrame userId0 conversationId0 =>
      setConnections
        (JsMap.set ws
           (mkConnectionInfo (Some (parseInt userId0)) (Some (parseInt conversationId0)))
           (connections srv))
        srv
  | TypingFrame conversationId0 userId0 =>
      broadcast (parseInt conversationId0) (typing userId0) (Some ws) srv
  | StopTypingFrame conversationId0 userId0 =>
      broadcast (parseInt conversationId0) (stop_typing userId0) (Some ws) srv
  | PingFrame => send ws pong srv
  | OtherType => srv
  end.

(** [ws.on('close', ...)] *)
Definition onClose (ws : WebSocket) (srv : Srv) : Srv :=
  setConnections (JsMap.delete ws (connections srv)) srv.

(** A connection the server has accepted and that has sent no [auth]
    frame yet: its entry is the one [onConnection] made. *)
Definition unauthenticated (ws : WebSocket) (srv : Srv) : Prop :=
  JsMap.get ws (connections srv) = Some (mkConnectionInfo None None).

(** ** The REST handlers *)

Definition Handler (A : Type) : Type := Promise Srv A.

(** [await storage.method(...)] *)
Definition await {A : Type} (m : Async St A) : Handler A :=
  fun srv =>
    let (r, b') := m (backend srv) in
    (r, mkServer b' (connections srv) (readyState srv) (published srv) (outbox srv)).

(** [broadcastToConversation(...)] as a statement of a handler. *)
Definition publish (conversationId0 : jsnum) (message : Msg)
    (excludeClient : option WebSocket) : Handler unit :=
  fun srv => (Resolved tt, broadcast conversationId0 message excludeClient srv).

(** [schema.parse(req.body)]: the validated body, or a [ZodError]. *)
Definition parse {A : Type} (body0 : option A) : Handler A :=
  fun srv =>
    match body0 with
    | Some a => (Resolved a, srv)
    | None => (Rejected ZodError, srv)
    end.

(** [try { ... } catch (error) { ... }] around a handler's body. *)
Definition tryCatch (m : Handler Response) (h : Error -> Response) : Srv -> Response * Srv :=
  fun srv =>
    match m srv with
    | (Resolved r, srv') => (r, srv')
    | (Rejected e, srv') => (h e, srv')
    end.

Definition json (code : Z) (b : ResponseBody) : Response := mkResponse code b.

(** [currentUserId !== conversation.adopterId && currentUserId !== conversation.ownerId] *)
Definition notParticipant (currentUserId adopterId ownerId : Z) : bool :=
  negb (currentUserId =? adopterId) && negb (currentUserId =? ownerId).

(** [app.post("/api/conversations", ...)]: [user] is [req.user.id] when
    the request is authenticated. *)
Definition postConversations (user : option Z) (body0 : option InsertConversation.t)
  : Srv -> Response * Srv :=
  match user with
  | None => fun srv => (json 401 (ErrorBody "Not authenticated"), srv)
  | Some currentUserId =>
      tryCatch
        (conversationData <- parse body0 ;;
         pet <- await (getPet (InsertConversation.petId conversationData)) ;;
         match pet with
         | None => ret (json 404 (ErrorBody "Pet not found"))
         | Some _ =>
             if notParticipant currentUserId
                  (InsertConversation.adopterId conversationData)
                  (InsertConversation.ownerId conversationData)
             then ret (json 403 (ErrorBody "Not authorized to create this conversation"))
             else
               existingConversation <-
                 await (getConversationByParticipants
                          (InsertConversation.petId conversationData)
                          (InsertConversation.adopterId conversationData)
                          (InsertConversation.ownerId conversationData)) ;;
               match existingConversation with
               | Some c => ret (json 200 (ConversationBody c))
               | None =>
                   newConversation <- await (createConversation conversationData) ;;
                   ret (json 201 (ConversationBody newConversation))
               end
         end)
        (fun error =>
           match error with
           | ZodError => json 400 (ErrorBody "Invalid conversation data")
           | OtherError => json 500 (ErrorBody "Error creating conversation")
           end)
  end.

(** [app.post("/api/messages", ...)] *)
Definition postMessages (user : option Z) (body0 : option MessageData)
  : Srv -> Response * Srv :=
  match user with
  | None => fun srv => (json 401 (ErrorBody "Not authenticated"), srv)
  | Some currentUserId =>
      tryCatch
        (messageData <- parse body0 ;;
         conversation <- await (getConversation (md_conversationId messageData)) ;;
         match conversation with
         | None => ret (json 404 (ErrorBody "Conversation not found"))
         | Some conversation =>
             if notParticipant currentUserId
                  (Conversation.adopterId conversation)
                  (Conversation.ownerId conversation)
             then ret (json 403
                         (ErrorBody "Not authorized to message in this conversation"))
             else
               newMessage <-
                 await (createMessage
                          (InsertMessage.mk (md_conversationId messageData)
                             (md_content messageData) currentUserId)) ;;
               await (updateConversationLastMessageTime (md_conversationId messageData)) ;;;
               publish (Num (md_conversationId messageData)) (new_message newMessage) None ;;;
               ret (json 201 (MessageBody newMessage))
         end)
        (fun error =>
           match error with
           | ZodError => json 400 (ErrorBody "Invalid message data")
           | OtherError => json 500 (ErrorBody "Error creating message")
           end)
  end.

End Routes.

(* ================================================================== *)
(** * [Record<number, V>]: a plain object keyed by numbers

    An object every key of which the program makes from a number it
    holds, the key being known by that number.  The own properties are
    in the order [Object.entries] lists them: the keys that are array
    indices first, ascending, then the other keys in the order they were
    added. *)

Module JsObject.

Definition t (V : Type) : Type := list (Z * V).

Definition empty {V : Type} : t V := [].

Definition isIndex (k : Z) : bool := (0 <=? k) && (k <? 4294967295).

Fixpoint get {V : Type} (k : Z) (o : t V) : option V :=
  match o with
  | [] => None
  | (k', v) :: r => if k' =? k then Some v else get k r
  end.

Definition has {V : Type} (k : Z) (o : t V) : bool :=
  match get k o with
  | Some _ => true
  | None => false
  end.

(** Assignment to a property the object has: its place is kept. *)
Fixpoint replace {V : Type} (k : Z) (v : V) (o : t V) : t V :=
  match o with
  | [] => []
  | (k', v') :: r =>
      if k' =? k then (k, v) :: r else (k', v') :: replace k v r
  end.

(** A new array-index key goes before the first key that is larger or
    not an index. *)
Fixpoint addIndex {V : Type} (k : Z) (v : V) (o : t V) : t V :=
  match o with
  | [] => [(k, v)]
  | (k', v') :: r =>
      if isIndex k' && (k' <? k)
      then (k', v') :: addIndex k v r
      else (k, v) :: (k', v') :: r
  end.

(** [o[k] = v] *)
Definition set {V : Type} (k : Z) (v : V) (o : t V) : t V :=
  if has k o then replace k v o
  else if isIndex k then addIndex k v o
  else o ++ [(k, v)].

(** [delete o[k]] *)
Fixpoint delete {V : Type} (k : Z) (o : t V) : t V :=
  match o with
  | [] => []
  | (k', v') :: r => if k' =? k then r else (k', v') :: delete k r
  end.

Definition keys {V : Type} (o : t V) : list Z := map fst o.

(** [Object.entries(o)] *)
Definition entries {V : Type} (o : t V) : list (Z * V) := o.

(** An object holds each key once. *)
Definition wf {V : Type} (o : t V) : Prop := NoDup (keys o).

End JsObject.

(* ================================================================== *)
(** * A plain object, by its property keys

    A property key is a string.  An object has to tell two keys apart
    and to know which of them are array indices: its own properties come
    in the order [Object.entries] lists them, the keys that are array
    indices first, ascending, then the other keys in the order they were
    added. *)

Class PropertyKey (Key : Type) : Type := {
  sameKey : forall a b : Key, {a = b} + {a <> b};
  arrayIndex : Key -> option Z
}.

Module PlainObject.

Section Object.

Context {Key : Type} {propertyKey : PropertyKey Key} {V : Type}.

Definition t : Type := list (Key * V).

Definition empty : t := [].

Fixpoint get (k : Key) (o : t) : option V :=
  match o with
  | [] => None
  | (k', v) :: r => if sameKey k' k then Some v else get k r
  end.

Definition has (k : Key) (o : t) : bool :=
  match get k o with
  | Some _ => true
  | None => false
  end.

(** Assignment to a property the object has: its place is kept. *)
Fixpoint replace (k : Key) (v : V) (o : t) : t :=
  match o with
  | [] => []
  | (k', v') :: r =>
      if sameKey k' k then (k, v) :: r else (k', v') :: replace k v r
  end.

Definition isIndex (k : Key) : bool :=
  match arrayIndex k with
  | Some _ => true
  | None => false
  end.

(** [k'] is an array index smaller than the array index [k]. *)
Definition indexBefore (k' k : Key) : bool :=
  match arrayIndex k', arrayIndex k with
  | Some i', Some i => i' <? i
  | _, _ => false
  end.

(** A new array-index key goes before the first key that is larger or
    not an index. *)
Fixpoint addIndex (k : Key) (v : V) (o : t) : t :=
  match o with
  | [] => [(k, v)]
  | (k', v') :: r =>
      if indexBefore k' k
      then (k', v') :: addIndex k v r
      else (k, v) :: (k', v') :: r
  end.

(** [o[k] = v] *)
Definition set (k : Key) (v : V) (o : t) : t :=
  if has k o then replace k v o
  else if isIndex k then addIndex k v o
  else o ++ [(k, v)].

(** [delete o[k]] *)
Fixpoint delete (k : Key) (o : t) : t :=
  match o with
  | [] => []
  | (k', v') :: r => if sameKey k' k then r else (k', v') :: delete k r
  end.

(** [Object.keys(o)] *)
Definition keys (o : t) : list Key := map fst o.

(** [Object.entries(o)] *)
Definition entries (o : t) : list (Key * V) := o.

(** An object holds each key once. *)
Definition wf (o : t) : Prop := NoDup (keys o).

End Object.

Arguments t : clear implicits.

End PlainObject.

(* ================================================================== *)
(** * Values of type [any]

    The [data] of a received frame is typed [any]: a field read from it
    is whatever value the sender put there.  What the hook does with such
    a value rests on three operations of the language, over the values
    and the property keys. *)

Class Js (Value Key : Type) : Type := {
  (** [a === b] *)
  strictEquals : Value -> Value -> bool;
  (** the key that [a] names in [o[a]] and in [{ [a]: v }] *)
  toPropertyKey : Value -> Key;
  (** [Number(k)] of a key *)
  toNumber : Key -> Value
}.

(* ================================================================== *)
(** * The client socket hook ([client/src/hooks/use-chat-socket.tsx]) *)

Module ChatSocket.

Section Hook.

Context {Value Key : Type} {propertyKey : PropertyKey Key} {js : Js Value Key}.

Record TypingState : Type := mkTypingState {
  userId : Value;
  timestamp : Z
}.

(** A frame the client receives, by its [type] and by what the handler
    reads of its [data]: the [data] itself where it is handed on, the
    field where one is read, [None] for the field when [data] is [null]
    or [undefined] and the reading throws.  [unknown] is a frame of any
    other type, [unreadable] one on which [JSON.parse] or the reading of
    the type throws. *)
Inductive ChatSocketMessage : Type :=
| connected (message : option Value)
| new_message (data : Value)
| message_read (data : Value)
| typing (userId : option Value)
| stop_typing (userId : option Value)
| pong
| unknown
| unreadable.

(** The options of the hook; of each optional callback, whether the
    caller passed one. *)
Record Options : Type := mkOptions {
  opt_userId : Value;
  opt_conversationId : Z;
  onNewMessage : bool;
  onMessageRead : bool;
  onTyping : bool;
  onStopTyping : bool
}.

(** A call of one of the callbacks. *)
Inductive Call : Type :=
| CallNewMessage (message : Value)
| CallMessageRead (data : Value)
| CallTyping (userId : Value)
| CallStopTyping (userId : Value).

Definition when (present : bool) (c : Call) : list Call :=
  if present then [c] else [].

(** [ws.onmessage] on a frame received at clock reading [now]: the next
    [typingUsers] and the callbacks called.  What throws is caught, and
    nothing is done. *)
Definition onmessage (opts : Options) (now : Z) (message : ChatSocketMessage)
    (typingUsers : PlainObject.t Key TypingState)
  : PlainObject.t Key TypingState * list Call :=
  match message with
  | connected _ => (typingUsers, [])
  | new_message data => (typingUsers, when (onNewMessage opts) (CallNewMessage data))
  | message_read data => (typingUsers, when (onMessageRead opts) (CallMessageRead data))
  | typing None => (typingUsers, [])
  | typing (Some u) =>
      if negb (strictEquals u (opt_userId opts))
      then (PlainObject.set (toPropertyKey u) (mkTypingState u now) typingUsers,
            when (onTyping opts) (CallTyping u))
      else (typingUsers, [])
  | stop_typing None => (typingUsers, [])
  | stop_typing (Some u) =>
      if negb (strictEquals u (opt_userId opts))
      then (PlainObject.delete (toPropertyKey u) typingUsers,
            when (onStopTyping opts) (CallStopTyping u))
      else (typingUsers, [])
  | pong => (typingUsers, [])
  | unknown => (typingUsers, [])
  | unreadable => (typingUsers, [])
  end.

(** The state the sweep's [forEach] works on: [newState], [hasChanges]
    and the callbacks called so far. *)
Record Sweep : Type := mkSweep {
  newState : PlainObject.t Key TypingState;
  hasChanges : bool;
  calls : list Call
}.

(** One round of the [forEach] over [Object.entries(newState)]: [id] is
    the key of the entry, and what is deleted and reported is
    [Number(id)]. *)
Definition sweepEntry (opts : Options) (now : Z) (acc : Sweep)
    (entry : Key * TypingState) : Sweep :=
  let (id, typingState) := entry in
  if 3000 <? now - timestamp typingState
  then mkSweep (PlainObject.delete (toPropertyKey (toNumber id)) (newState acc)) true
               (calls acc ++ when (onStopTyping opts) (CallStopTyping (toNumber id)))
  else acc.

(** One tick of the cleanup interval at clock reading [now]: the next
    [typingUsers] and the callbacks called. *)
Definition sweep (opts : Options) (now : Z) (prev : PlainObject.t Key TypingState)
  : PlainObject.t Key TypingState * list Call :=
  let r := fold_left (sweepEntry opts now) (PlainObject.entries prev)
                     (mkSweep prev false []) in
  ((if hasChanges r then newState r else prev), calls r).

(** The [typingUsers] the hook returns:
    [Object.keys(typingUsers).map(id => Number(id))]. *)
Definition returned_typingUsers (typingUsers : PlainObject.t Key TypingState)
  : list Value :=
  map toNumber (PlainObject.keys typingUsers).

(** What happens to a mounted hook. *)
Inductive Event : Type :=
| Received (now : Z) (message : ChatSocketMessage)
| Tick (now : Z).

Definition step (opts : Options) (e : Event)
    (typingUsers : PlainObject.t Key TypingState)
  : PlainObject.t Key TypingState * list Call :=
  match e with
  | Received now message => onmessage opts now message typingUsers
  | Tick now => sweep opts now typingUsers
  end.

(** The values [typingUsers] takes, from the initial [{}], under events
    that are all among [admitted]. *)
Inductive reachable (opts : Options) (admitted : Event -> Prop)
  : PlainObject.t Key TypingState -> Prop :=
| reachable_init : reachable opts admitted PlainObject.empty
| reachable_step : forall e typingUsers,
    admitted e ->
    reachable opts admitted typingUsers ->
    reachable opts admitted (fst (step opts e typingUsers)).

(** The entry is older than the inactivity window at [now]. *)
Definition expired (now : Z) (typingState : TypingState) : bool :=
  3000 <? now - timestamp typingState.

End Hook.

Arguments TypingState : clear implicits.
Arguments ChatSocketMessage : clear implicits.
Arguments Options : clear implicits.
Arguments Call : clear implicits.
Arguments Sweep : clear implicits.
Arguments Event : clear implicits.

End ChatSocket.

(* ================================================================== *)
(** * The message thread's cache of messages *)

Module MessageThread.

(** What [handleNewMessage] asks for besides updating the cache. *)
Inductive Effect : Type :=
| InvalidateConversations
| PatchRead (conversationId : Z) (messageIds : list Z).

(** The updater [handleNewMessage] gives to [setQueryData]; [None] is
    an [undefined] cache entry. *)
Definition addNewMessage (message : Message.t) (oldData : option (list Message.t))
  : list Message.t :=
  match oldData with
  | None => [message]
  | Some oldData =>
      if array_some (fun msg => Message.id msg =? Message.id message) oldData
      then oldData
      else oldData ++ [message]
  end.

Definition handleNewMessage (conversationId currentUserId : Z) (message : Message.t)
    (oldData : option (list Message.t)) : list Message.t * list Effect :=
  (addNewMessage message oldData,
   InvalidateConversations ::
   (if negb (Message.senderId message =? currentUserId)
    then [PatchRead conversationId [Message.id message]]
    else [])).

(** The updater of [handleMessageRead]. *)
Definition applyMessageRead (currentUserId : Z) (messageIds : list Z) (readerId : Z)
    (oldData : option (list Message.t)) : option (list Message.t) :=
  if negb (readerId =? currentUserId)
  then
    match oldData with
    | None => None
    | Some oldData =>
        Some (map (fun msg =>
                     if array_includes (Message.id msg) messageIds &&
                        (Message.senderId msg =? currentUserId)
                     then Message.markRead msg
                     else msg)
                  oldData)
    end
  else oldData.

(** The ids of a log, in order. *)
Definition ids (log : list Message.t) : list Z := map Message.id log.

End MessageThread.


(* ================================================================== *)
(** * Vocabulary of the statements *)

(** The store holds at most one conversation for each
    (petId, adopterId, ownerId). *)
Definition atMostOnePerTriple (s : MemStorage.t) : Prop :=
  forall petId adopterId ownerId,
    (List.length (filter (sameParticipants petId adopterId ownerId)
                         (JsMap.values (MemStorage.conversations s))) <= 1)%nat.

(** The conversation is the one of the pet, adopter and owner a create
    request names. *)
Definition forTriple (data : InsertConversation.t) (c : Conversation.t) : Prop :=
  Conversation.petId c = InsertConversation.petId data /\
  Conversation.adopterId c = InsertConversation.adopterId data /\
  Conversation.ownerId c = InsertConversation.ownerId data.

(** No two entries of the store are conversations of one pet, adopter
    and owner. *)
Definition onePerTriple (s : MemStorage.t) : Prop :=
  forall k1 k2 c1 c2,
    JsMap.get k1 (MemStorage.conversations s) = Some c1 ->
    JsMap.get k2 (MemStorage.conversations s) = Some c2 ->
    Conversation.petId c1 = Conversation.petId c2 ->
    Conversation.adopterId c1 = Conversation.adopterId c2 ->
    Conversation.ownerId c1 = Conversation.ownerId c2 ->
    k1 = k2.

(** The message under a key after [markMessagesAsRead]: read when the
    key was listed and the reader is not the sender, as it was
    otherwise. *)
Definition marked (listed : bool) (userId0 : Z) (m : Message.t) : Message.t :=
  if listed && negb (Message.senderId m =? userId0) then Message.markRead m else m.

(** The test [broadcastToConversation] makes on one entry of the
    registry. *)
Definition selected (ready : WebSocket -> ReadyState) (cid : jsnum)
    (excludeClient : option WebSocket) (kv : Z * ConnectionInfo) : bool :=
  isOpen (ready (fst kv)) &&
  nullable_strict_eq (conversationId (snd kv)) cid &&
  isNot (fst kv) excludeClient.

(** The server with another store and one more reading of the clock. *)
Definition afterCreate {JsonValue : Type} (srv : Server MemStorage.t JsonValue)
    (s' : MemStorage.t) : Server MemStorage.t JsonValue :=
  mkServer
    (mkBackend s' (clock (backend srv)) (S (dateReads (backend srv)))
               (dbFaults (backend srv)) (dbStatements (backend srv))
               (dbTraces (backend srv)))
    (connections srv) (readyState srv) (published srv) (outbox srv).

(** What marking by [userId0] with the ids [ids] may do to a row. *)
Definition readBy (ids : list Z) (userId0 : Z) (m m' : Message.t) : Prop :=
  m' = m \/
  (m' = Message.markRead m /\ In (Message.id m) ids /\ Message.senderId m <> userId0).

(** Ascending by [createdAt], ties allowed. *)
Definition byCreatedAt (a b : Message.t) : Prop :=
  Message.createdAt a <= Message.createdAt b.

Section TypingVocabulary.

Context {Value Key : Type} {propertyKey : PropertyKey Key} {js : Js Value Key}.

(** An entry of the typing map that is, or is not, older than the
    inactivity window at [now], and the callback called for one that
    is. *)
Definition staleEntry (now : Z) (e : Key * ChatSocket.TypingState Value) : bool :=
  ChatSocket.expired now (snd e).

Definition freshEntry (now : Z) (e : Key * ChatSocket.TypingState Value) : bool :=
  negb (ChatSocket.expired now (snd e)).

Definition stopCall (opts : ChatSocket.Options Value)
    (e : Key * ChatSocket.TypingState Value) : list (ChatSocket.Call Value) :=
  ChatSocket.when (ChatSocket.onStopTyping opts)
    (ChatSocket.CallStopTyping (toNumber (fst e))).

(** The value is the one its key reads back as: [Number(String(v))] is
    [v], as for a number. *)
Definition readsBack (v : Value) : Prop := toNumber (toPropertyKey v) = v.

(** Some expired entry of [prev] has the sweep delete the key [k]. *)
Definition sweptAway (now : Z) (prev : PlainObject.t Key (ChatSocket.TypingState Value))
    (k : Key) : bool :=
  existsb (fun e => staleEntry now e &&
                    (if sameKey (toPropertyKey (toNumber (fst e))) k then true else false))
          prev.

(** The event is no [typing] frame, or one whose [userId] reads back. *)
Definition typingReadsBack (e : ChatSocket.Event Value) : Prop :=
  match e with
  | ChatSocket.Received _ (ChatSocket.typing (Some u)) => readsBack u
  | _ => True
  end.

End TypingVocabulary.


(* ================================================================== *)
(** * Sample states *)

Module Examples.

(** A clock that advances by a millisecond at each reading, and a
    database connection on which no statement fails. *)
Definition memBackend : Backend MemStorage.t :=
  mkBackend MemStorage.init (fun n => 1000 + Z.of_nat n) 0 (fun _ => false) 0
    (fun _ => Untouched).

(** A server that has just started; every socket it will see is open. *)
Definition freshServer : Server MemStorage.t Z :=
  mkServer memBackend JsMap.empty (fun _ => OPEN) [] [].

(** Frame fields that are numbers parse to themselves. *)
Definition parseNumber (z : Z) : jsnum := Num z.

(** Connection 1 was accepted and has sent nothing; connection 2 was
    accepted and has authenticated as user 5 in conversation 7. *)
Definition oneBoundOneNot : Server MemStorage.t Z :=
  onMessage parseNumber 2 (AuthFrame 5 7)
    (onConnection 2 (onConnection 1 freshServer)).

(** Three connections: 1 and 2 bound to conversation 7, 3 to
    conversation 8; socket 2 is closing. *)
Definition threeConnections : JsMap.t ConnectionInfo :=
  [ (1, mkConnectionInfo (Some (Num 5)) (Some (Num 7)));
    (2, mkConnectionInfo (Some (Num 6)) (Some (Num 7)));
    (3, mkConnectionInfo (Some (Num 5)) (Some (Num 8))) ].

Definition socketTwoClosing (ws : WebSocket) : ReadyState :=
  if ws =? 2 then CLOSING else OPEN.

Definition rex : InsertPet.t :=
  InsertPet.mk "Rex" "dog" "Beagle" "male" 3 "adult" "medium" "Pune" "Friendly"
    None None None "rex.png" None None None.

(** A pet of user 3, a conversation about it between adopter 2 and
    owner 3, and two messages created at the same reading of the
    clock. *)
Definition withConversation : MemStorage.t :=
  MemStorage.apply
    (MemStorage.CreateConversation (InsertConversation.mk 1 2 3 "Inquiry about Rex")) 1000
    (MemStorage.apply (MemStorage.CreatePet rex 3) 900 MemStorage.init).

Definition oneMessage : MemStorage.t :=
  MemStorage.apply (MemStorage.CreateMessage (InsertMessage.mk 1 "Hello" 2)) 2000
    withConversation.

Definition sameInstant : MemStorage.t :=
  MemStorage.apply (MemStorage.CreateMessage (InsertMessage.mk 1 "Is he house-trained?" 2))
    2000 oneMessage.

Definition hello : Message.t := Message.mk 1 1 2 "Hello" false 2000.

(** A server over [withConversation]. *)
Definition memServer : Server MemStorage.t Z :=
  mkServer
    (mkBackend withConversation (fun n => 3000 + Z.of_nat n) 0 (fun _ => false) 0
       (fun _ => Untouched))
    JsMap.empty (fun _ => OPEN) [] [].

(** A database with the same conversation, on a connection whose
    third statement from now fails; a statement that fails on it has
    drawn from its sequence, when it has one, and done no more. *)
Definition db : DatabaseStorage.t :=
  DatabaseStorage.mk [] [Conversation.mk 1 1 2 3 "Inquiry about Rex" 1000] [] 2 1.

Definition thirdStatementFails (n : nat) : bool := Nat.eqb n 2.

Definition dbServer : Server DatabaseStorage.t Z :=
  mkServer
    (mkBackend db (fun n => 3000 + Z.of_nat n) 0 thirdStatementFails 0 (fun _ => Drawn))
    [(1, mkConnectionInfo (Some (Num 3)) (Some (Num 1)))] (fun _ => OPEN) [] [].

(** The same database on a connection whose second statement from now
    fails. *)
Definition secondStatementFails (n : nat) : bool := Nat.eqb n 1.

Definition dbServerInsertFails : Server DatabaseStorage.t Z :=
  mkServer
    (mkBackend db (fun n => 3000 + Z.of_nat n) 0 secondStatementFails 0
       (fun _ => Drawn))
    [(1, mkConnectionInfo (Some (Num 3)) (Some (Num 1)))] (fun _ => OPEN) [] [].

(** The same, the failing statement carried out and its answer lost. *)
Definition dbServerAnswerLost : Server DatabaseStorage.t Z :=
  mkServer
    (mkBackend db (fun n => 3000 + Z.of_nat n) 0 secondStatementFails 0
       (fun _ => Applied))
    [(1, mkConnectionInfo (Some (Num 3)) (Some (Num 1)))] (fun _ => OPEN) [] [].

(** The same database on a connection that never fails. *)
Definition dbServerOk : Server DatabaseStorage.t Z :=
  mkServer
    (mkBackend db (fun n => 3000 + Z.of_nat n) 0 (fun _ => false) 0 (fun _ => Untouched))
    [(1, mkConnectionInfo (Some (Num 3)) (Some (Num 1)))] (fun _ => OPEN) [] [].

(** A handful of values: the numbers 2, 4, 5 and 9 and [NaN], and the
    strings ["2"], ["05"] and ["abc"]. *)
Inductive SampleValue : Type :=
| number_2 | number_4 | number_5 | number_9 | number_NaN
| string_2 | string_05 | string_abc.

(** The property keys they name and are read from: the strings ["2"],
    ["4"], ["5"], ["9"], ["NaN"], ["05"] and ["abc"]. *)
Inductive SampleKey : Type :=
| key_2 | key_4 | key_5 | key_9 | key_NaN | key_05 | key_abc.

Definition SampleKey_eq_dec (a b : SampleKey) : {a = b} + {a <> b}.
Proof. decide equality. Defined.

#[global] Instance SampleKey_PropertyKey : PropertyKey SampleKey := {
  sameKey := SampleKey_eq_dec;
  arrayIndex k :=
    match k with
    | key_2 => Some 2
    | key_4 => Some 4
    | key_5 => Some 5
    | key_9 => Some 9
    | key_NaN | key_05 | key_abc => None
    end
}.

#[global] Instance SampleValue_Js : Js SampleValue SampleKey := {
  strictEquals a b :=
    match a, b with
    | number_2, number_2 | number_4, number_4 | number_5, number_5
    | number_9, number_9 | string_2, string_2 | string_05, string_05
    | string_abc, string_abc => true
    | _, _ => false
    end;
  toPropertyKey a :=
    match a with
    | number_2 | string_2 => key_2
    | number_4 => key_4
    | number_5 => key_5
    | number_9 => key_9
    | number_NaN => key_NaN
    | string_05 => key_05
    | string_abc => key_abc
    end;
  toNumber k :=
    match k with
    | key_2 => number_2
    | key_4 => number_4
    | key_5 | key_05 => number_5
    | key_9 => number_9
    | key_NaN | key_abc => number_NaN
    end
}.

(** The typing map of a client: user 4 typed at 1000, user 9 at 5000. *)
Definition twoTyping : PlainObject.t SampleKey (ChatSocket.TypingState SampleValue) :=
  [ (key_4, ChatSocket.mkTypingState number_4 1000);
    (key_9, ChatSocket.mkTypingState number_9 5000) ].

(** The hook of user 2, every callback passed. *)
Definition withCallbacks : ChatSocket.Options SampleValue :=
  ChatSocket.mkOptions number_2 1 true true true true.

(** The typing map after a [typing] frame with the [userId] ["05"] at
    1000 and one with the [userId] 5 at 8000. *)
Definition paddedTyping : PlainObject.t SampleKey (ChatSocket.TypingState SampleValue) :=
  fst (ChatSocket.onmessage withCallbacks 8000 (ChatSocket.typing (Some number_5))
         (fst (ChatSocket.onmessage withCallbacks 1000
                 (ChatSocket.typing (Some string_05)) PlainObject.empty))).

(** The typing map after a [typing] frame with the [userId] ["abc"] at
    1000. *)
Definition wordTyping : PlainObject.t SampleKey (ChatSocket.TypingState SampleValue) :=
  fst (ChatSocket.onmessage withCallbacks 1000 (ChatSocket.typing (Some string_abc))
         PlainObject.empty).

End Examples.


(* ================================================================== *)
(** * More of JavaScript *)

(** [array.sort(cmp)] for a comparator that is a consistent order: the
    sort is stable, so the result is the one arrangement that is
    ascending for [cmp] and keeps equal elements in their order. *)
Fixpoint insertBy {A : Type} (cmp : A -> A -> Z) (x : A) (l : list A) : list A :=
  match l with
  | [] => [x]
  | h :: r => if cmp x h <=? 0 then x :: h :: r else h :: insertBy cmp x r
  end.

Fixpoint array_sort {A : Type} (cmp : A -> A -> Z) (l : list A) : list A :=
  match l with
  | [] => []
  | x :: r => insertBy cmp x (array_sort cmp r)
  end.

(** [array.slice(start, end)]: a negative index counts from the end, and
    both are clamped to the array. *)
Definition sliceIndex (len i : Z) : Z :=
  if i <? 0 then Z.max (len + i) 0 else Z.min i len.

Definition array_slice {A : Type} (start stop : Z) (l : list A) : list A :=
  let len := Z.of_nat (List.length l) in
  let k := sliceIndex len start in
  let final := sliceIndex len stop in
  firstn (Z.to_nat (final - k)) (skipn (Z.to_nat k) l).

(** [a || b] on strings: the empty string is falsy. *)
Definition orString (a b : string) : string :=
  if String.eqb a "" then b else a.

(** [a || b] on numbers that are integers: zero is falsy. *)
Definition orNumber (a : option Z) (b : Z) : Z :=
  match a with
  | Some 0 | None => b
  | Some n => n
  end.

(** [Math.ceil(a / b)] for integers [a] and [b], [b] not zero. *)
Definition ceilDiv (a b : Z) : Z := - ((- a) / b).

(** [set.add(x)] on a [Set<number>], kept in insertion order. *)
Definition set_add (x : Z) (s : list Z) : list Z :=
  if existsb (Z.eqb x) s then s else s ++ [x].

(* ================================================================== *)
(** * The other queries of [MemStorage] ([server/storage.ts]) *)

Module Inquiry.
(** An element of the result of [getOwnerInquiries]. *)
Record t : Type := mk {
  conversationId : Z;
  petId : option Z;
  petName : string;
  adopterName : string;
  lastMessage : string;
  lastMessageDate : Z;
  unreadCount : nat
}.
End Inquiry.

Module MemStorageQueries.

Definition getUserConversations (userId0 : Z) (s : MemStorage.t) : list Conversation.t :=
  filter (fun conversation =>
            (Conversation.adopterId conversation =? userId0) ||
            (Conversation.ownerId conversation =? userId0))
         (JsMap.values (MemStorage.conversations s)).

(** The messages of a conversation, newest first, as [getOwnerInquiries]
    takes them. *)
Definition conversationMessages (conversation : Conversation.t) (s : MemStorage.t)
  : list Message.t :=
  array_sort (fun a b => Message.createdAt b - Message.createdAt a)
    (filter (fun message => Message.conversationId message =? Conversation.id conversation)
            (JsMap.values (MemStorage.messages s))).

(** The body of the [map] in [getOwnerInquiries]. *)
Definition inquiryOf (ownerId0 : Z) (s : MemStorage.t) (conversation : Conversation.t)
  : Inquiry.t :=
  let pet := MemStorage.getPet (Conversation.petId conversation) s in
  let adopter := MemStorage.getUser (Conversation.adopterId conversation) s in
  let msgs := conversationMessages conversation s in
  let lastMessage := hd_error msgs in
  let unreadCount :=
    List.length
      (filter (fun message =>
                 negb (Message.isRead message) &&
                 negb (Message.senderId message =? ownerId0))
              msgs) in
  Inquiry.mk
    (Conversation.id conversation)
    (option_map Pet.id pet)
    (match pet with
     | Some p => orString (InsertPet.name (Pet.fields p)) "Unknown Pet"
     | None => "Unknown Pet"
     end)
    (match adopter with
     | Some a =>
         orString (InsertUser.name (User.fields a))
           (orString (InsertUser.username (User.fields a)) "Unknown User")
     | None => "Unknown User"
     end)
    (match lastMessage with
     | Some m => orString (Message.content m) "No messages yet"
     | None => "No messages yet"
     end)
    (match lastMessage with
     | Some m => Message.createdAt m
     | None => Conversation.lastMessageAt conversation
     end)
    unreadCount.

Definition getOwnerInquiries (ownerId0 : Z) (s : MemStorage.t) : list Inquiry.t :=
  let ownerConversations :=
    filter (fun conversation => Conversation.ownerId conversation =? ownerId0)
           (JsMap.values (MemStorage.conversations s)) in
  array_sort (fun a b => Inquiry.lastMessageDate b - Inquiry.lastMessageDate a)
    (map (inquiryOf ownerId0 s) ownerConversations).

Definition getPetsByOwner (ownerId0 : Z) (s : MemStorage.t) : list Pet.t :=
  filter (fun pet => Pet.ownerId pet =? ownerId0) (JsMap.values (MemStorage.pets s)).

Definition getPetOwners (s : MemStorage.t) : JsObject.t User.t :=
  let petOwnerIds :=
    JsMap.forEach (fun pet _ ids => set_add (Pet.ownerId pet) ids) (MemStorage.pets s) [] in
  fold_left
    (fun owners ownerId0 =>
       match JsMap.get ownerId0 (MemStorage.users s) with
       | Some owner => JsObject.set ownerId0 owner owners
       | None => owners
       end)
    petOwnerIds JsObject.empty.

End MemStorageQueries.

(** Every entry of a map of the store sits under its own id, which is at
    least 1 and below the map's id counter. *)
Definition entitiesWf {V : Type} (idOf : V -> Z) (m : JsMap.t V) (next : Z) : Prop :=
  JsMap.wf m /\
  forall k v, JsMap.get k m = Some v -> idOf v = k /\ 1 <= k < next.

Definition storeWf (s : MemStorage.t) : Prop :=
  entitiesWf User.id (MemStorage.users s) (MemStorage.currentUserId s) /\
  entitiesWf Pet.id (MemStorage.pets s) (MemStorage.currentPetId s) /\
  entitiesWf Conversation.id (MemStorage.conversations s)
             (MemStorage.currentConversationId s) /\
  entitiesWf Message.id (MemStorage.messages s) (MemStorage.currentMessageId s).

(** A message the user [userId0] has not read: what the unread count of
    an inquiry and the thread's mark-as-read effect both select. *)
Definition unreadFor (userId0 : Z) (message : Message.t) : bool :=
  negb (Message.isRead message) && negb (Message.senderId message =? userId0).

(** The id counters have not gone below their start. *)
Definition countersPositive (s : MemStorage.t) : Prop :=
  1 <= MemStorage.currentUserId s /\ 1 <= MemStorage.currentPetId s /\
  1 <= MemStorage.currentConversationId s /\ 1 <= MemStorage.currentMessageId s.

(* ================================================================== *)
(** * The mark-as-read effect of the thread ([MessageThread]) *)

(** The effect that runs when the conversation or its messages change:
    the request it sends, if any.  [conversation] is an object, which is
    truthy. *)
Definition markShownAsRead (conversation : Conversation.t) (messages : list Message.t)
    (currentUserId : Z) : list MessageThread.Effect :=
  if 0 <? Z.of_nat (List.length messages) then
    let unreadMessages :=
      filter (fun msg => negb (Message.isRead msg) &&
                         negb (Message.senderId msg =? currentUserId))
             messages in
    if 0 <? Z.of_nat (List.length unreadMessages)
    then [MessageThread.PatchRead (Conversation.id conversation)
            (map Message.id unreadMessages)]
    else []
  else [].

(* ================================================================== *)
(** * More REST handlers, over [MemStorage] ([server/routes.ts])

    The handlers that take the id from the path read it with
    [parseInt], which may give [NaN]; [MemStorage] looks the id up in a
    [Map] whose keys are numbers it counted itself, so [NaN] finds
    nothing. *)

(** [map.get(key)] for a key that [parseInt] produced. *)
Definition getAt {V : Type} (key : jsnum) (m : JsMap.t V) : option V :=
  match key with
  | Num k => JsMap.get k m
  | NaN => None
  end.

(** The answer of [GET /api/messages/:conversationId]. *)
Inductive MessagesResponse : Type :=
| MessagesError (status : Z) (message : string)
| MessagesOk (messages : list Message.t).

Section MemRoutes.

Context {JsonValue : Type}.

Let Srv : Type := Server MemStorage.t JsonValue.

(** The server with another store. *)
Definition withStore (srv : Srv) (s' : MemStorage.t) : Srv :=
  mkServer
    (mkBackend s' (clock (backend srv)) (dateReads (backend srv))
       (dbFaults (backend srv)) (dbStatements (backend srv)) (dbTraces (backend srv)))
    (connections srv) (readyState srv) (published srv) (outbox srv).

(** [try { ... } catch (error) { ... }] around a body of any answer type. *)
Definition attempt {A : Type} (m : Handler (St := MemStorage.t) (JsonValue := JsonValue) A)
    (h : Error -> A) : Srv -> A * Srv :=
  fun srv =>
    match m srv with
    | (Resolved r, srv') => (r, srv')
    | (Rejected e, srv') => (h e, srv')
    end.

(** [await storage.getConversation(conversationId)] *)
Definition awaitConversation (conversationId0 : jsnum)
  : Handler (St := MemStorage.t) (JsonValue := JsonValue) (option Conversation.t) :=
  await (onStore (fun s => (getAt conversationId0 (MemStorage.conversations s), s))).

(** [app.get("/api/messages/:conversationId", ...)]: [conversationId0]
    is [parseInt(req.params.conversationId)]. *)
Definition getMessages (user : option Z) (conversationId0 : jsnum)
  : Srv -> MessagesResponse * Srv :=
  match user with
  | None => fun srv => (MessagesError 401 "Not authenticated", srv)
  | Some currentUserId =>
      attempt
        (conversation <- awaitConversation conversationId0 ;;
         match conversation with
         | None => ret (MessagesError 404 "Conversation not found")
         | Some conversation =>
             if notParticipant currentUserId
                  (Conversation.adopterId conversation)
                  (Conversation.ownerId conversation)
             then ret (MessagesError 403 "Not authorized to view this conversation")
             else
               messages <-
                 await (onStore (fun s =>
                   (match conversationId0 with
                    | Num k => MemStorage.getConversationMessages k s
                    | NaN => []
                    end, s))) ;;
               ret (MessagesOk messages)
         end)
        (fun _ => MessagesError 500 "Error fetching messages")
  end.

(** [app.patch("/api/messages/:conversationId/read", ...)]:
    [messageIds] is [None] when [req.body.messageIds] is not an array. *)
Definition patchMessagesRead (user : option Z) (conversationId0 : jsnum)
    (messageIds : option (list Z)) : Srv -> Response * Srv :=
  match user with
  | None => fun srv => (json 401 (ErrorBody "Not authenticated"), srv)
  | Some currentUserId =>
      tryCatch
        (match messageIds with
         | None | Some [] => ret (json 400 (ErrorBody "Invalid message IDs"))
         | Some messageIds =>
             conversation <- awaitConversation conversationId0 ;;
             match conversation with
             | None => ret (json 404 (ErrorBody "Conversation not found"))
             | Some conversation =>
                 if notParticipant currentUserId
                      (Conversation.adopterId conversation)
                      (Conversation.ownerId conversation)
                 then ret (json 403
                             (ErrorBody "Not authorized to access this conversation"))
                 else
                   await (markMessagesAsRead messageIds currentUserId) ;;;
                   publish conversationId0 (message_read messageIds currentUserId) None ;;;
                   ret (json 204 EmptyBody)
             end
         end)
        (fun _ => json 500 (ErrorBody "Error marking messages as read"))
  end.

(** [app.delete("/api/pets/:id", ...)]: [petId] is
    [parseInt(req.params.id)]. *)
Definition deletePets (user : option Z) (petId : jsnum) : Srv -> Response * Srv :=
  match user with
  | None => fun srv => (json 401 (ErrorBody "Not authenticated"), srv)
  | Some currentUserId =>
      tryCatch
        (pet <- await (onStore (fun s => (getAt petId (MemStorage.pets s), s))) ;;
         match pet with
         | None => ret (json 404 (ErrorBody "Pet not found"))
         | Some pet =>
             if negb (Pet.ownerId pet =? currentUserId)
             then ret (json 403 (ErrorBody "Not authorized to delete this pet"))
             else
               await (onStore (fun s =>
                 (tt, match petId with
                      | Num id => MemStorage.deletePet id s
                      | NaN => s
                      end))) ;;;
               ret (json 204 EmptyBody)
         end)
        (fun _ => json 500 (ErrorBody "Error deleting pet"))
  end.

End MemRoutes.

(* ================================================================== *)
(** * Contacting the owner of a pet ([PetDetailsModal]) *)

Section ContactOwner.

Context {JsonValue : Type}.

(** Whether [apiRequest], which is not part of these sources, throws
    on an answer of 400 or more. *)
Variable throwsOnError : bool.

(** [conversation.id] of the parsed answer, [undefined] when the answer
    is not a conversation; the body of the second request is then one
    that [insertMessageSchema] refuses. *)
Definition messageBodyFor (res : Response) (content : string) : option MessageData :=
  match body res with
  | ConversationBody conversation => Some (mkMessageData (Conversation.id conversation) content)
  | _ => None
  end.

(** [mutationFn] of [sendMessageMutation], for the logged-in user:
    the answer to the second request, or [None] when it threw. *)
Definition sendInquiry (userId ownerId petId : Z) (title content : string)
    (srv : Server MemStorage.t JsonValue)
  : option Response * Server MemStorage.t JsonValue :=
  if (userId =? 0) || (ownerId =? 0) then (None, srv)
  else
    let (res, srv1) :=
      postConversations (Some userId)
        (Some (InsertConversation.mk petId userId ownerId title)) srv in
    if throwsOnError && (400 <=? status res) then (None, srv1)
    else
      let (messageRes, srv2) :=
        postMessages (Some userId) (messageBodyFor res content) srv1 in
      if throwsOnError && (400 <=? status messageRes) then (None, srv2)
      else (Some messageRes, srv2).

End ContactOwner.

(* ================================================================== *)
(** * The admin gate ([server/middleware/adminAuth.ts]) *)

(** What a middleware does with a request: it answers, or it calls
    [next()]. *)
Inductive Middleware : Type :=
| Answer (status : Z) (message : string)
| Next.

(** [requireAdmin]: [user] is [req.user] when the request is
    authenticated. *)
Definition requireAdmin (user : option User.t) : Middleware :=
  match user with
  | None => Answer 401 "Authentication required"
  | Some user =>
      match InsertUser.isAdmin (User.fields user) with
      | Some true => Next
      | _ => Answer 403 "Admin access required"
      end
  end.

(* ================================================================== *)
(** * Who a publication reaches *)

(** A publication of [message] to [conversationId0] made in the state
    [srv] is sent to the connection [ws]. *)
Definition reaches {St JsonValue : Type} (srv : Server St JsonValue)
    (conversationId0 : jsnum) (message : WebSocketMessage JsonValue)
    (excludeClient : option WebSocket) (ws : WebSocket) : Prop :=
  In (ws, message)
     (broadcastToConversation (connections srv) (readyState srv)
        conversationId0 message excludeClient).

(* ================================================================== *)
(** * The search for pets ([MemStorage.searchPets]) *)

(** [s.includes(sub)] *)
Definition string_includes (s sub : string) : bool :=
  match String.index 0 sub s with
  | Some _ => true
  | None => false
  end.

Inductive SortDirection : Type := asc | desc.

Module SearchPetsParams.
(** [z.infer<typeof searchPetsSchema>] *)
Record t : Type := mk {
  query : option string;
  petType : option string;
  location : option string;
  ageGroup : option string;
  size : option string;
  gender : option string;
  page : option Z;
  limit : option Z;
  sortBy : option string;
  sortDirection : option SortDirection
}.

Definition withPage (params : t) (page0 : option Z) : t :=
  mk (query params) (petType params) (location params) (ageGroup params)
     (size params) (gender params) page0 (limit params)
     (sortBy params) (sortDirection params).
End SearchPetsParams.

Module SearchResult.
Record t : Type := mk {
  pets : list Pet.t;
  totalCount : Z;
  totalPages : Z
}.
End SearchResult.

(** [if (param) { list = list.filter(...) }]: an absent or empty string
    is falsy. *)
Definition filterWhen (param : option string) (test : string -> Pet.t -> bool)
    (l : list Pet.t) : list Pet.t :=
  match param with
  | Some value => if String.eqb value "" then l else filter (test value) l
  | None => l
  end.

Section SearchPets.

(** [String.prototype.toLowerCase] *)
Variable toLowerCase : string -> string.

(** The filters of [searchPets], in their order. *)
Definition searchFilters (params : SearchPetsParams.t) (allPets : list Pet.t)
  : list Pet.t :=
  let filteredPets := allPets in
  let filteredPets :=
    filterWhen (SearchPetsParams.query params)
      (fun q pet =>
         let query := toLowerCase q in
         string_includes (toLowerCase (InsertPet.name (Pet.fields pet))) query ||
         string_includes (toLowerCase (InsertPet.breed (Pet.fields pet))) query ||
         string_includes (toLowerCase (InsertPet.location (Pet.fields pet))) query)
      filteredPets in
  let filteredPets :=
    filterWhen (SearchPetsParams.petType params)
      (fun petType pet => String.eqb (InsertPet.petType (Pet.fields pet)) petType)
      filteredPets in
  let filteredPets :=
    filterWhen (SearchPetsParams.location params)
      (fun location pet =>
         string_includes (toLowerCase (InsertPet.location (Pet.fields pet)))
                         (toLowerCase location))
      filteredPets in
  let filteredPets :=
    filterWhen (SearchPetsParams.ageGroup params)
      (fun ageGroup pet => String.eqb (InsertPet.ageGroup (Pet.fields pet)) ageGroup)
      filteredPets in
  let filteredPets :=
    filterWhen (SearchPetsParams.size params)
      (fun size pet => String.eqb (InsertPet.size (Pet.fields pet)) size)
      filteredPets in
  filterWhen (SearchPetsParams.gender params)
    (fun gender pet => String.eqb (InsertPet.gender (Pet.fields pet)) gender)
    filteredPets.

Definition searchPets (params : SearchPetsParams.t) (s : MemStorage.t) : SearchResult.t :=
  let filteredPets := searchFilters params (JsMap.values (MemStorage.pets s)) in
  let filteredPets :=
    array_sort (fun a b => Pet.createdAt b - Pet.createdAt a) filteredPets in
  let page := orNumber (SearchPetsParams.page params) 1 in
  let limit := orNumber (SearchPetsParams.limit params) 12 in
  let totalCount := Z.of_nat (List.length filteredPets) in
  let totalPages := ceilDiv totalCount limit in
  let startIndex := (page - 1) * limit in
  let endIndex := page * limit in
  let paginatedPets := array_slice startIndex endIndex filteredPets in
  SearchResult.mk paginatedPets totalCount totalPages.

(** The pets that pass the filters, newest first: what the pages of a
    search are cut from. *)
Definition searchMatches (params : SearchPetsParams.t) (s : MemStorage.t) : list Pet.t :=
  array_sort (fun a b => Pet.createdAt b - Pet.createdAt a)
    (searchFilters params (JsMap.values (MemStorage.pets s))).

End SearchPets.

(* ================================================================== *)
(** * The references between the maps of the store *)

(** Every conversation is about a stored pet, and every message is in a
    stored conversation and was sent by its adopter or its owner. *)
Definition referencesResolve (s : MemStorage.t) : Prop :=
  (forall k c,
      MemStorage.getConversation k s = Some c ->
      MemStorage.getPet (Conversation.petId c) s <> None) /\
  (forall k m,
      JsMap.get k (MemStorage.messages s) = Some m ->
      exists c,
        MemStorage.getConversation (Message.conversationId m) s = Some c /\
        (Message.senderId m = Conversation.adopterId c \/
         Message.senderId m = Conversation.ownerId c)).

Definition consistent (s : MemStorage.t) : Prop :=
  countersPositive s /\ storeWf s /\ referencesResolve s.

(** The storage methods that the registration, pet and admin endpoints
    call: those on users and pets. *)
Definition onUsersOrPets (op : MemStorage.Op) : bool :=
  match op with
  | MemStorage.CreateUser _
  | MemStorage.UpdateUserRole _ _ _
  | MemStorage.CreatePet _ _
  | MemStorage.UpdatePet _ _
  | MemStorage.DeletePet _ => true
  | _ => false
  end.

(* ================================================================== *)
(** * The page buttons ([client/src/components/ui/pagination.tsx]) *)

Module Pagination.

Inductive Item : Type :=
| Page (n : Z)
| EllipsisStart
| EllipsisEnd.

(** [for (let i = a; i <= b; i++) pages.push(i)] *)
Definition pushRange (a b : Z) : list Item :=
  map (fun i => Page (a + Z.of_nat i)) (seq 0 (Z.to_nat (b - a + 1))).

(** [rangeStart] and [rangeEnd] once adjusted. *)
Definition range (currentPage totalPages : Z) : Z * Z :=
  let rangeStart := Z.max 2 (currentPage - 1) in
  let rangeEnd := Z.min (totalPages - 1) (currentPage + 1) in
  if (rangeEnd - rangeStart <? 2) && (3 <? totalPages) then
    if rangeStart =? 2 then (rangeStart, Z.min 4 (totalPages - 1))
    else if rangeEnd =? totalPages - 1 then (Z.max 2 (totalPages - 3), rangeEnd)
    else (rangeStart, rangeEnd)
  else (rangeStart, rangeEnd).

Definition getPageNumbers (currentPage totalPages : Z) : list Item :=
  let (rangeStart, rangeEnd) := range currentPage totalPages in
  [Page 1] ++
  (if 2 <? rangeStart then [EllipsisStart] else []) ++
  pushRange rangeStart rangeEnd ++
  (if rangeEnd <? totalPages - 1 then [EllipsisEnd] else []) ++
  (if 1 <? totalPages then [Page totalPages] else []).

(** What the component renders between the two arrows; [None] is
    [null]. *)
Definition render (currentPage totalPages : Z) : option (list Item) :=
  if totalPages <=? 1 then None else Some (getPageNumbers currentPage totalPages).

(** The page numbers among the items. *)
Fixpoint numbers (items : list Item) : list Z :=
  match items with
  | [] => []
  | Page n :: r => n :: numbers r
  | _ :: r => numbers r
  end.

(** The calls of [onPageChange] the buttons can make: the arrow to the
    left, the numbered buttons, the arrow to the right. *)
Definition requests (currentPage totalPages : Z) : list Z :=
  (if 1 <? currentPage then [currentPage - 1] else []) ++
  numbers (getPageNumbers currentPage totalPages) ++
  (if currentPage <? totalPages then [currentPage + 1] else []).

End Pagination.

(* ================================================================== *)
(** * More sample states *)

Module Samples.

Definition tom : InsertPet.t :=
  InsertPet.mk "Tom" "cat" "Siamese" "male" 2 "young" "small" "Goa" "Shy"
    None None None "tom.png" None None None.

(** Two pets of two owners, a conversation about each and one message
    in each: user 5, the adopter in the second, has no part in the
    first. *)
Definition twoConversations : MemStorage.t :=
  MemStorage.apply (MemStorage.CreateMessage (InsertMessage.mk 2 "Is Tom shy?" 5)) 2100
    (MemStorage.apply (MemStorage.CreateMessage (InsertMessage.mk 1 "Hello" 2)) 2000
       (MemStorage.apply
          (MemStorage.CreateConversation (InsertConversation.mk 2 5 4 "Inquiry about Tom"))
          1100
          (MemStorage.apply
             (MemStorage.CreateConversation
                (InsertConversation.mk 1 2 3 "Inquiry about Rex"))
             1000
             (MemStorage.apply (MemStorage.CreatePet tom 4) 950
                (MemStorage.apply (MemStorage.CreatePet Examples.rex 3) 900
                   MemStorage.init))))).

(** A server over [twoConversations]. *)
Definition busyServer : Server MemStorage.t Z :=
  mkServer
    (mkBackend twoConversations (fun n => 3000 + Z.of_nat n) 0 (fun _ => false) 0
       (fun _ => Untouched))
    JsMap.empty (fun _ => OPEN) [] [].

(** A server over [Examples.oneMessage]. *)
Definition oneMessageServer : Server MemStorage.t Z :=
  mkServer
    (mkBackend Examples.oneMessage (fun n => 3000 + Z.of_nat n) 0 (fun _ => false) 0
       (fun _ => Untouched))
    JsMap.empty (fun _ => OPEN) [] [].

(** The connections of [Examples.oneBoundOneNot], the socket of
    connection 1 closing. *)
Definition oneClosing : Server MemStorage.t Z :=
  mkServer (backend Examples.oneBoundOneNot) (connections Examples.oneBoundOneNot)
    (fun ws => if ws =? 1 then CLOSING else OPEN) [] [].

(** The conversation about Rex, as the sample stores hold it. *)
Definition aboutRex : Conversation.t :=
  Conversation.mk 1 1 2 3 "Inquiry about Rex" 1000.

(** A search for dogs, two to a page. *)
Definition dogsByTwos : SearchPetsParams.t :=
  SearchPetsParams.mk None (Some "dog"%string) None None None None None (Some 2) None None.

(** The conversation about Tom, as [twoConversations] holds it. *)
Definition aboutTom : Conversation.t :=
  Conversation.mk 2 2 5 4 "Inquiry about Tom" 1100.

(** A reply in the conversation about Rex, by its owner. *)
Definition thanks : InsertMessage.t := InsertMessage.mk 1 "Thanks" 3.

(** A second inquiry about Rex, by user 7. *)
Definition rexByAnother : InsertConversation.t :=
  InsertConversation.mk 1 7 3 "Rex?".

(** The body of a send-message request in the conversation about Rex. *)
Definition stillThere : MessageData := mkMessageData 1 "Still there?".

(** The pet Rex as the sample stores hold it. *)
Definition storedRex : Pet.t := Pet.mk Examples.rex 3 1 900 900.

End Samples.

(* ================================================================== *)
(** * Proof steps for the paths of a handler *)

(** No statement counted in the goal's range has failed. *)
Ltac no_fault :=
  let i := fresh "i" in
  let Hi := fresh "Hi" in
  let Hf := fresh "Hf" in
  intros [i [Hi Hf]]; exfalso;
  repeat match goal with
         | H : ?f ?k = false |- _ =>
             assert (i <> k) by (intros ->; congruence); clear H
         end;
  lia.

(** The database is as it was. *)
Ltac untouched :=
  split; [intros _; reflexivity
         | split; [intros _; do 3 (split; [reflexivity|]);
                   split; [left; split; reflexivity | intros _; reflexivity]
                  | cbn; discriminate]].

(** A path that sends no statement and answers with an error of the
    request. *)
Ltac quiet :=
  split; [intros [? [? _]]; cbn in *; lia | untouched].

(** A path on which a [select] has failed. *)
Ltac failed := split; [intros _; repeat split | untouched].

(** A path on which the handler answers without writing. *)
Ltac refused := split; [no_fault | untouched].

(* ================================================================== *)
(** * Facts about lists and arrays *)

Lemma NoDup_map_fst_filter {A B : Type} (p : A * B -> bool) (l : list (A * B)) :
  NoDup (map fst l) -> NoDup (map fst (filter p l)).
Proof.
  induction l as [|x r IH]; simpl; [trivial|].
  intros Hnd. inversion Hnd as [|? ? Hnotin Hnd']; subst.
  destruct (p x); simpl; [|now apply IH].
  constructor; [|now apply IH].
  intros Hin. apply Hnotin. apply in_map_iff in Hin.
  destruct Hin as [y [E Hy]]. apply filter_In in Hy. rewrite <- E.
  now apply in_map.
Qed.

Lemma NoDup_map_injective {A B : Type} (f : A -> B) (l : list A) :
  (forall a b, f a = f b -> a = b) -> NoDup l -> NoDup (map f l).
Proof.
  intros Hinj. induction 1 as [|x l Hx Hnd IH]; simpl; constructor; [|exact IH].
  intros Hin. apply in_map_iff in Hin. destruct Hin as [y [E Hy]].
  apply Hinj in E. now subst.
Qed.

Lemma array_find_None {A : Type} (p : A -> bool) (l : list A) :
  array_find p l = None -> filter p l = [].
Proof.
  induction l as [|x r IH]; simpl; [reflexivity|].
  destruct (p x); [discriminate|exact IH].
Qed.

Lemma array_find_Some {A : Type} (p : A -> bool) (l : list A) (x : A) :
  array_find p l = Some x -> In x l /\ p x = true.
Proof.
  induction l as [|y r IH]; simpl; [discriminate|].
  destruct (p y) eqn:E.
  - intros H. injection H as <-. split; [now left|exact E].
  - intros H. destruct (IH H). split; [now right|assumption].
Qed.

Lemma array_includes_In (x : Z) (l : list Z) : array_includes x l = true <-> In x l.
Proof.
  unfold array_includes. rewrite existsb_exists. split.
  - intros [y [Hin E]]. apply Z.eqb_eq in E. now subst.
  - intros H. exists x. split; [exact H|apply Z.eqb_refl].
Qed.

Lemma StronglySorted_split {A : Type} (R : A -> A -> Prop) (pre mid post : list A) (a b : A) :
  StronglySorted R (pre ++ a :: mid ++ b :: post) -> R a b.
Proof.
  induction pre as [|x pre IH]; simpl; intros H.
  - apply StronglySorted_inv in H. destruct H as [_ Hall].
    rewrite Forall_forall in Hall. apply Hall. apply in_or_app. right. now left.
  - apply StronglySorted_inv in H. now apply IH.
Qed.


(* ================================================================== *)
(** * Facts about [JsMap] *)

Module JsMapFacts.
Import JsMap.

Section Facts.
Context {V : Type}.
Implicit Types (m : JsMap.t V) (k : Z) (v : V).

Lemma get_In m k v : get k m = Some v -> In (k, v) m.
Proof.
  induction m as [|[k' v'] r IH]; simpl; [discriminate|].
  destruct (Z.eqb_spec k' k) as [->|Hne]; intros H.
  - injection H as ->. now left.
  - right. now apply IH.
Qed.

Lemma get_None_keys m k : get k m = None <-> ~ In k (keys m).
Proof.
  induction m as [|[k' v'] r IH]; simpl.
  - tauto.
  - destruct (Z.eqb_spec k' k) as [->|Hne].
    + split; [discriminate|]. intros H. exfalso. apply H. now left.
    + rewrite IH. split; [intros H [E|E]; [congruence|tauto] | tauto].
Qed.

Lemma In_get m k v : wf m -> In (k, v) m -> get k m = Some v.
Proof.
  unfold wf. induction m as [|[k' v'] r IH]; simpl; [tauto|].
  intros Hnd [E|Hin]; inversion Hnd as [|? ? Hnotin Hnd']; subst.
  - injection E as -> ->. now rewrite Z.eqb_refl.
  - destruct (Z.eqb_spec k' k) as [->|Hne]; [|now apply IH].
    exfalso. apply Hnotin. change (In (fst (k, v)) (map fst r)).
    now apply in_map.
Qed.

Lemma get_set_eq m k v : get k (set k v m) = Some v.
Proof.
  induction m as [|[k' v'] r IH]; simpl.
  - now rewrite Z.eqb_refl.
  - destruct (Z.eqb_spec k' k) as [->|Hne]; simpl.
    + now rewrite Z.eqb_refl.
    + destruct (Z.eqb_spec k' k); [contradiction|exact IH].
Qed.

Lemma get_set_ne m k k' v : k <> k' -> get k' (set k v m) = get k' m.
Proof.
  intros Hne. induction m as [|[k0 v0] r IH]; simpl.
  - destruct (Z.eqb_spec k k'); [contradiction|reflexivity].
  - destruct (Z.eqb_spec k0 k) as [->|Hne0]; simpl.
    + destruct (Z.eqb_spec k k'); [contradiction|reflexivity].
    + now rewrite IH.
Qed.

Lemma set_absent m k v : get k m = None -> set k v m = m ++ [(k, v)].
Proof.
  induction m as [|[k' v'] r IH]; simpl; [reflexivity|].
  destruct (Z.eqb_spec k' k); [discriminate|].
  intros H. now rewrite IH.
Qed.

Lemma keys_set_present m k v v0 : get k m = Some v0 -> keys (set k v m) = keys m.
Proof.
  induction m as [|[k' v'] r IH]; simpl; [discriminate|].
  destruct (Z.eqb_spec k' k) as [->|Hne]; simpl; [reflexivity|].
  intros H. unfold keys in *. simpl. f_equal. now apply IH.
Qed.

Lemma wf_set m k v : wf m -> wf (set k v m).
Proof.
  intros Hwf. destruct (get k m) as [v0|] eqn:E.
  - unfold wf. now rewrite (keys_set_present _ _ _ _ E).
  - rewrite (set_absent _ _ _ E). unfold wf, keys in *. rewrite map_app. simpl.
    apply NoDup_app; [exact Hwf | repeat constructor; simpl; tauto |].
    intros a Ha [<-|[]]. now apply get_None_keys in E.
Qed.

Lemma In_delete m k kv : In kv (delete k m) -> In kv m.
Proof.
  induction m as [|[k' v'] r IH]; simpl; [tauto|].
  destruct (k' =? k); simpl; [tauto|]. intros [E|H]; [now left|right; now apply IH].
Qed.

Lemma wf_delete m k : wf m -> wf (delete k m).
Proof.
  unfold wf. induction m as [|[k' v'] r IH]; simpl; [trivial|].
  intros Hnd. inversion Hnd as [|? ? Hnotin Hnd']; subst.
  destruct (k' =? k); [exact Hnd'|]. simpl. constructor; [|now apply IH].
  intros Hin. apply Hnotin. unfold keys in Hin. apply in_map_iff in Hin.
  destruct Hin as [[k0 v0] [E Hin]]. simpl in E. subst k0.
  apply In_delete in Hin. change (In (fst (k', v0)) (map fst r)). now apply in_map.
Qed.

Lemma get_delete_ne m k k' : k <> k' -> get k' (delete k m) = get k' m.
Proof.
  intros Hne. induction m as [|[k0 v0] r IH]; simpl; [reflexivity|].
  destruct (Z.eqb_spec k0 k) as [->|Hne0]; simpl.
  - destruct (Z.eqb_spec k k'); [contradiction|reflexivity].
  - now rewrite IH.
Qed.

Lemma get_delete_eq m k : wf m -> get k (delete k m) = None.
Proof.
  unfold wf. induction m as [|[k' v'] r IH]; simpl; [reflexivity|].
  intros Hnd. inversion Hnd as [|? ? Hnotin Hnd']; subst.
  destruct (Z.eqb_spec k' k) as [->|Hne]; simpl.
  - now apply get_None_keys.
  - destruct (Z.eqb_spec k' k); [contradiction|now apply IH].
Qed.

(** A deletion never brings an entry in or changes one. *)
Lemma get_delete_Some m k k' v : wf m -> get k' (delete k m) = Some v -> get k' m = Some v.
Proof.
  intros Hwf. destruct (Z.eq_dec k k') as [->|Hne].
  - now rewrite get_delete_eq.
  - now rewrite get_delete_ne.
Qed.

Lemma In_values m v : In v (values m) <-> exists k, In (k, v) m.
Proof.
  unfold values. rewrite in_map_iff. split.
  - intros [[k v'] [E H]]. simpl in E. subst. now exists k.
  - intros [k H]. now exists (k, v).
Qed.

End Facts.

End JsMapFacts.


(* ================================================================== *)
(** * Facts about [JsObject] *)

Module JsObjectFacts.
Import JsObject.

Section Facts.
Context {V : Type}.
Implicit Types (o : JsObject.t V) (k : Z) (v : V).

Lemma obj_get_None_keys o k : get k o = None <-> ~ In k (keys o).
Proof.
  induction o as [|[k' v'] r IH]; simpl.
  - tauto.
  - destruct (Z.eqb_spec k' k) as [->|Hne].
    + split; [discriminate|]. intros H. exfalso. apply H. now left.
    + rewrite IH. split; [intros H [E|E]; [congruence|tauto] | tauto].
Qed.

Lemma obj_get_In o k v : get k o = Some v -> In (k, v) o.
Proof.
  induction o as [|[k' v'] r IH]; simpl; [discriminate|].
  destruct (Z.eqb_spec k' k) as [->|Hne]; intros H.
  - injection H as ->. now left.
  - right. now apply IH.
Qed.

Lemma obj_In_get o k v : wf o -> In (k, v) o -> get k o = Some v.
Proof.
  unfold wf. induction o as [|[k' v'] r IH]; simpl; [tauto|].
  intros Hnd [E|Hin]; inversion Hnd as [|? ? Hnotin Hnd']; subst.
  - injection E as -> ->. now rewrite Z.eqb_refl.
  - destruct (Z.eqb_spec k' k) as [->|Hne]; [|now apply IH].
    exfalso. apply Hnotin. change (In (fst (k, v)) (map fst r)).
    now apply in_map.
Qed.

Lemma get_app_ne o k k' v : k <> k' -> get k' (o ++ [(k, v)]) = get k' o.
Proof.
  intros Hne. induction o as [|[k0 v0] r IH]; simpl.
  - destruct (Z.eqb_spec k k'); [contradiction|reflexivity].
  - now rewrite IH.
Qed.

Lemma get_replace_ne o k k' v : k <> k' -> get k' (replace k v o) = get k' o.
Proof.
  intros Hne. induction o as [|[k0 v0] r IH]; simpl; [reflexivity|].
  destruct (Z.eqb_spec k0 k) as [->|Hne0]; simpl.
  - destruct (Z.eqb_spec k k'); [contradiction|reflexivity].
  - now rewrite IH.
Qed.

Lemma get_addIndex_ne o k k' v : k <> k' -> get k' (addIndex k v o) = get k' o.
Proof.
  intros Hne. induction o as [|[k0 v0] r IH]; simpl.
  - destruct (Z.eqb_spec k k'); [contradiction|reflexivity].
  - destruct (isIndex k0 && (k0 <? k)); simpl.
    + now rewrite IH.
    + destruct (Z.eqb_spec k k'); [contradiction|reflexivity].
Qed.

Lemma obj_get_set_ne o k k' v : k <> k' -> get k' (set k v o) = get k' o.
Proof.
  intros Hne. unfold set. destruct (has k o); [now apply get_replace_ne|].
  destruct (isIndex k); [now apply get_addIndex_ne|now apply get_app_ne].
Qed.

Lemma keys_replace o k v : keys (replace k v o) = keys o.
Proof.
  induction o as [|[k0 v0] r IH]; simpl; [reflexivity|].
  destruct (Z.eqb_spec k0 k) as [->|Hne]; simpl; [reflexivity|].
  unfold keys in *. simpl. f_equal. exact IH.
Qed.

Lemma keys_addIndex o k v : Permutation (keys (addIndex k v o)) (k :: keys o).
Proof.
  induction o as [|[k0 v0] r IH]; simpl; [reflexivity|].
  destruct (isIndex k0 && (k0 <? k)); simpl; [|reflexivity].
  unfold keys in *. simpl. rewrite IH. apply perm_swap.
Qed.

Lemma obj_wf_set o k v : wf o -> wf (set k v o).
Proof.
  unfold wf, set, has. intros Hwf.
  destruct (get k o) as [v0|] eqn:E.
  - now rewrite keys_replace.
  - apply obj_get_None_keys in E. destruct (isIndex k).
    + eapply Permutation_NoDup; [symmetry; apply keys_addIndex|].
      now constructor.
    + unfold keys in *. rewrite map_app. simpl.
      apply NoDup_app; [exact Hwf|repeat constructor; simpl; tauto|].
      intros a Ha [<-|[]]. contradiction.
Qed.

Lemma obj_In_delete o k kv : In kv (delete k o) -> In kv o.
Proof.
  induction o as [|[k' v'] r IH]; simpl; [tauto|].
  destruct (k' =? k); simpl; [tauto|]. intros [E|H]; [now left|right; now apply IH].
Qed.

Lemma obj_wf_delete o k : wf o -> wf (delete k o).
Proof.
  unfold wf. induction o as [|[k' v'] r IH]; simpl; [trivial|].
  intros Hnd. inversion Hnd as [|? ? Hnotin Hnd']; subst.
  destruct (k' =? k); [exact Hnd'|]. simpl. constructor; [|now apply IH].
  intros Hin. apply Hnotin. unfold keys in Hin. apply in_map_iff in Hin.
  destruct Hin as [[k0 v0] [E Hin]]. simpl in E. subst k0.
  apply obj_In_delete in Hin. change (In (fst (k', v0)) (map fst r)). now apply in_map.
Qed.

Lemma get_delete_None o k k' : get k' o = None -> get k' (delete k o) = None.
Proof.
  induction o as [|[k0 v0] r IH]; simpl; [trivial|].
  destruct (Z.eqb_spec k0 k') as [->|Hne]; [discriminate|].
  intros H. destruct (k0 =? k); simpl; [exact H|].
  destruct (Z.eqb_spec k0 k'); [contradiction|now apply IH].
Qed.

(** Deleting a key that comes after a prefix without it. *)
Lemma delete_middle (p r : JsObject.t V) k v :
  ~ In k (keys p) -> delete k (p ++ (k, v) :: r) = p ++ r.
Proof.
  induction p as [|[k0 v0] p IH]; simpl; intros Hnot.
  - now rewrite Z.eqb_refl.
  - destruct (Z.eqb_spec k0 k) as [->|Hne]; [exfalso; apply Hnot; now left|].
    rewrite IH; [reflexivity|]. intros H. apply Hnot. now right.
Qed.

Lemma get_filter (keep : Z * V -> bool) o k v :
  wf o -> get k o = Some v ->
  get k (filter keep o) = if keep (k, v) then Some v else None.
Proof.
  unfold wf. induction o as [|[k0 v0] r IH]; simpl; [discriminate|].
  intros Hnd. inversion Hnd as [|? ? Hnotin Hnd']; subst.
  destruct (Z.eqb_spec k0 k) as [->|Hne]; intros H.
  - injection H as ->. destruct (keep (k, v)) eqn:E; simpl.
    + now rewrite Z.eqb_refl.
    + apply obj_get_None_keys. intros Hin. apply Hnotin.
      unfold keys in *. apply in_map_iff in Hin. destruct Hin as [x [Ex Hx]].
      apply filter_In in Hx. rewrite <- Ex. apply in_map. tauto.
  - destruct (keep (k0, v0)); simpl.
    + destruct (Z.eqb_spec k0 k); [contradiction|now apply IH].
    + now apply IH.
Qed.

End Facts.

End JsObjectFacts.


(* ================================================================== *)
(** * Facts about [PlainObject] *)

Module PlainObjectFacts.
Import PlainObject.

Section Facts.

Context {Key : Type} {propertyKey : PropertyKey Key} {V : Type}.
Implicit Types (o : PlainObject.t Key V) (k : Key) (v : V).

Lemma filter_all_true {A : Type} (p : A -> bool) (l : list A) :
  (forall x, In x l -> p x = true) -> filter p l = l.
Proof.
  induction l as [|x l IH]; intros H; simpl; [reflexivity|].
  rewrite (H x) by now left. rewrite IH; [reflexivity|]. intros y Hy. apply H. now right.
Qed.

Lemma plain_get_In o k v : get k o = Some v -> In (k, v) o.
Proof.
  induction o as [|[k0 v0] r IH]; simpl; [discriminate|].
  destruct (sameKey k0 k) as [->|Hne].
  - intros H. injection H as ->. now left.
  - intros H. right. now apply IH.
Qed.

Lemma plain_get_None_keys o k : get k o = None <-> ~ In k (keys o).
Proof.
  induction o as [|[k0 v0] r IH]; simpl; [tauto|].
  destruct (sameKey k0 k) as [->|Hne].
  - split; [discriminate|]. intros H. exfalso. apply H. now left.
  - rewrite IH. fold (keys r). split; [intros H [E|Hin]; [contradiction|now apply H]|tauto].
Qed.

Lemma plain_get_Some_keys o k v : get k o = Some v -> In k (keys o).
Proof.
  intros H. apply plain_get_In in H. unfold keys. apply in_map_iff. now exists (k, v).
Qed.

Lemma plain_In_get o k v : wf o -> In (k, v) o -> get k o = Some v.
Proof.
  unfold wf. induction o as [|[k0 v0] r IH]; simpl; [contradiction|].
  intros Hnd. inversion Hnd as [|? ? Hnot Hnd']; subst.
  intros [E|Hin].
  - injection E as -> ->. now destruct (sameKey k k).
  - destruct (sameKey k0 k) as [->|Hne]; [|now apply IH].
    exfalso. apply Hnot. apply in_map_iff. now exists (k, v).
Qed.

Lemma plain_keys_replace o k v : keys (replace k v o) = keys o.
Proof.
  induction o as [|[k0 v0] r IH]; simpl; [reflexivity|].
  destruct (sameKey k0 k) as [->|Hne]; simpl; [reflexivity|].
  fold (keys (replace k v r)) (keys r). now rewrite IH.
Qed.

Lemma plain_In_keys_addIndex o k v k' :
  In k' (keys (addIndex k v o)) <-> k' = k \/ In k' (keys o).
Proof.
  induction o as [|[k0 v0] r IH]; simpl.
  - intuition.
  - destruct (indexBefore k0 k); simpl.
    + fold (keys (addIndex k v r)) (keys r). rewrite IH. intuition.
    + fold (keys r). intuition.
Qed.

Lemma plain_wf_addIndex o k v : wf o -> ~ In k (keys o) -> wf (addIndex k v o).
Proof.
  unfold wf. induction o as [|[k0 v0] r IH]; simpl; intros Hnd Hnot.
  - constructor; [tauto|constructor].
  - inversion Hnd as [|? ? Hk Hnd']; subst.
    destruct (indexBefore k0 k); simpl.
    + constructor.
      * fold (keys (addIndex k v r)). rewrite plain_In_keys_addIndex.
        intros [E|Hin]; [apply Hnot; now left|contradiction].
      * apply IH; [exact Hnd'|]. intros Hin. apply Hnot. now right.
    + constructor; [exact Hnot|exact Hnd].
Qed.

Lemma plain_In_keys_set o k v k' : In k' (keys (set k v o)) <-> k' = k \/ In k' (keys o).
Proof.
  unfold set, has. destruct (get k o) as [v0|] eqn:E.
  - rewrite plain_keys_replace. split; [tauto|]. intros [->|H]; [|exact H].
    now apply plain_get_Some_keys with (v := v0).
  - destruct (isIndex k).
    + apply plain_In_keys_addIndex.
    + unfold keys. rewrite map_app, in_app_iff. simpl. intuition.
Qed.

Lemma plain_wf_set o k v : wf o -> wf (set k v o).
Proof.
  intros Hwf. unfold set, has. destruct (get k o) as [v0|] eqn:E.
  - unfold wf. now rewrite plain_keys_replace.
  - apply plain_get_None_keys in E. destruct (isIndex k).
    + now apply plain_wf_addIndex.
    + unfold wf, keys. rewrite map_app. simpl.
      apply NoDup_app; [exact Hwf|repeat constructor; simpl; tauto|].
      intros a Ha [<-|[]]. contradiction.
Qed.

Lemma plain_get_replace_eq o k v v0 : get k o = Some v0 -> get k (replace k v o) = Some v.
Proof.
  induction o as [|[k0 v1] r IH]; simpl; [discriminate|].
  destruct (sameKey k0 k) as [->|Hne]; simpl.
  - now destruct (sameKey k k).
  - destruct (sameKey k0 k); [contradiction|exact IH].
Qed.

Lemma plain_get_replace_ne o k k' v : k <> k' -> get k' (replace k v o) = get k' o.
Proof.
  intros Hne. induction o as [|[k0 v1] r IH]; simpl; [reflexivity|].
  destruct (sameKey k0 k) as [->|Hne0]; simpl.
  - destruct (sameKey k k'); [contradiction|reflexivity].
  - destruct (sameKey k0 k'); [reflexivity|exact IH].
Qed.

Lemma plain_get_addIndex_eq o k v : get k o = None -> get k (addIndex k v o) = Some v.
Proof.
  induction o as [|[k0 v1] r IH]; simpl.
  - now destruct (sameKey k k).
  - destruct (sameKey k0 k) as [->|Hne]; [discriminate|]. intros H.
    destruct (indexBefore k0 k); simpl.
    + destruct (sameKey k0 k); [contradiction|now apply IH].
    + now destruct (sameKey k k).
Qed.

Lemma plain_get_addIndex_ne o k k' v : k <> k' -> get k' (addIndex k v o) = get k' o.
Proof.
  intros Hne. induction o as [|[k0 v1] r IH]; simpl.
  - now destruct (sameKey k k').
  - destruct (indexBefore k0 k); simpl.
    + destruct (sameKey k0 k'); [reflexivity|exact IH].
    + destruct (sameKey k k'); [contradiction|reflexivity].
Qed.

Lemma plain_get_app_eq o k v : get k o = None -> get k (o ++ [(k, v)]) = Some v.
Proof.
  induction o as [|[k0 v1] r IH]; simpl.
  - now destruct (sameKey k k).
  - destruct (sameKey k0 k); [discriminate|exact IH].
Qed.

Lemma plain_get_app_ne o k k' v : k <> k' -> get k' (o ++ [(k, v)]) = get k' o.
Proof.
  intros Hne. induction o as [|[k0 v1] r IH]; simpl.
  - now destruct (sameKey k k').
  - destruct (sameKey k0 k'); [reflexivity|exact IH].
Qed.

Lemma plain_get_set_eq o k v : get k (set k v o) = Some v.
Proof.
  unfold set, has. destruct (get k o) as [v0|] eqn:E.
  - now apply plain_get_replace_eq with (v0 := v0).
  - destruct (isIndex k); [now apply plain_get_addIndex_eq|now apply plain_get_app_eq].
Qed.

Lemma plain_get_set_ne o k k' v : k <> k' -> get k' (set k v o) = get k' o.
Proof.
  intros Hne. unfold set, has. destruct (get k o).
  - now apply plain_get_replace_ne.
  - destruct (isIndex k); [now apply plain_get_addIndex_ne|now apply plain_get_app_ne].
Qed.

(** In an object, [delete] takes out the entries under the key. *)
Lemma plain_delete_filter o k :
  wf o ->
  delete k o = filter (fun e => if sameKey (fst e) k then false else true) o.
Proof.
  unfold wf. induction o as [|[k0 v0] r IH]; simpl; [reflexivity|].
  intros Hnd. inversion Hnd as [|? ? Hk Hnd']; subst.
  destruct (sameKey k0 k) as [->|Hne].
  - symmetry. apply filter_all_true. intros [k1 v1] Hin. simpl.
    destruct (sameKey k1 k) as [->|]; [|reflexivity].
    exfalso. apply Hk. apply in_map_iff. now exists (k, v1).
  - now rewrite IH.
Qed.

Lemma plain_wf_filter (p : Key * V -> bool) o : wf o -> wf (filter p o).
Proof. unfold wf, keys. apply NoDup_map_fst_filter. Qed.

Lemma plain_wf_delete o k : wf o -> wf (delete k o).
Proof. intros Hwf. rewrite plain_delete_filter by exact Hwf. now apply plain_wf_filter. Qed.

Lemma plain_get_filter (p : Key * V -> bool) o k :
  wf o ->
  get k (filter p o)
  = match get k o with
    | Some v => if p (k, v) then Some v else None
    | None => None
    end.
Proof.
  unfold wf. induction o as [|[k0 v0] r IH]; simpl; [reflexivity|].
  intros Hnd. inversion Hnd as [|? ? Hk Hnd']; subst.
  destruct (sameKey k0 k) as [->|Hne].
  - destruct (p (k, v0)) eqn:P; simpl.
    + now destruct (sameKey k k).
    + rewrite IH by exact Hnd'. fold (keys r) in Hk.
      apply plain_get_None_keys in Hk. now rewrite Hk.
  - destruct (p (k0, v0)); simpl.
    + destruct (sameKey k0 k); [contradiction|now apply IH].
    + now apply IH.
Qed.

Lemma plain_get_delete o k k' :
  wf o -> get k' (delete k o) = if sameKey k' k then None else get k' o.
Proof.
  intros Hwf. rewrite plain_delete_filter, plain_get_filter by exact Hwf. simpl.
  destruct (get k' o); destruct (sameKey k' k); reflexivity.
Qed.

Lemma plain_In_keys_filter (p : Key * V -> bool) o k :
  In k (keys (filter p o)) -> In k (keys o).
Proof.
  unfold keys. rewrite !in_map_iff. intros [e [E Hin]].
  apply filter_In in Hin. exists e. tauto.
Qed.

Lemma plain_In_keys_delete o k k' : In k' (keys (delete k o)) -> In k' (keys o).
Proof.
  induction o as [|[k0 v0] r IH]; simpl; [tauto|].
  destruct (sameKey k0 k); simpl; [now right|]. intros [E|H]; [now left|right; now apply IH].
Qed.

End Facts.

End PlainObjectFacts.


(* ================================================================== *)
(** * Facts about [MemStorage] *)

Module MemStorageFacts.
Import MemStorage.

(** ** What [markMessagesAsRead] does to each entry *)

Lemma marked_markRead listed userId m :
  marked listed userId (Message.markRead m) = Message.markRead (marked listed userId m).
Proof.
  unfold marked. simpl.
  destruct (listed && negb (Message.senderId m =? userId)); reflexivity.
Qed.

Lemma markOne_get userId msgs id k :
  JsMap.get k (markOne userId msgs id)
  = option_map (marked (k =? id) userId) (JsMap.get k msgs).
Proof.
  unfold markOne.
  destruct (JsMap.get id msgs) as [message|] eqn:Hid.
  - destruct (negb (Message.senderId message =? userId)) eqn:Hs.
    + destruct (Z.eqb_spec k id) as [->|Hne].
      * rewrite JsMapFacts.get_set_eq, Hid. simpl. unfold marked. now rewrite Hs.
      * rewrite JsMapFacts.get_set_ne by congruence.
        destruct (JsMap.get k msgs); reflexivity.
    + destruct (Z.eqb_spec k id) as [->|Hne].
      * rewrite Hid. simpl. unfold marked. now rewrite Hs.
      * destruct (JsMap.get k msgs); reflexivity.
  - destruct (Z.eqb_spec k id) as [->|Hne].
    + now rewrite Hid.
    + destruct (JsMap.get k msgs); reflexivity.
Qed.

Lemma markOne_keys userId msgs id :
  JsMap.keys (markOne userId msgs id) = JsMap.keys msgs.
Proof.
  unfold markOne. destruct (JsMap.get id msgs) as [message|] eqn:Hid; [|reflexivity].
  destruct (negb (Message.senderId message =? userId)); [|reflexivity].
  now apply JsMapFacts.keys_set_present with (v0 := message).
Qed.

Lemma markAll_keys userId ids msgs :
  JsMap.keys (fold_left (markOne userId) ids msgs) = JsMap.keys msgs.
Proof.
  revert msgs. induction ids as [|id r IH]; intros msgs; simpl; [reflexivity|].
  now rewrite IH, markOne_keys.
Qed.

Lemma markAll_get userId ids msgs k :
  JsMap.get k (fold_left (markOne userId) ids msgs)
  = option_map (marked (array_includes k ids) userId) (JsMap.get k msgs).
Proof.
  revert msgs. induction ids as [|id r IH]; intros msgs; simpl.
  - destruct (JsMap.get k msgs); reflexivity.
  - rewrite IH, markOne_get. destruct (JsMap.get k msgs) as [m|]; simpl; [|reflexivity].
    f_equal. unfold marked at 2.
    destruct ((k =? id) && negb (Message.senderId m =? userId)) eqn:E.
    + rewrite marked_markRead. apply andb_true_iff in E. destruct E as [E1 E2].
      rewrite E1. simpl. unfold marked. rewrite E2.
      destruct (array_includes k r); reflexivity.
    + unfold marked. apply andb_false_iff in E. destruct E as [E|E]; rewrite E.
      * reflexivity.
      * now rewrite !andb_false_r.
Qed.

(** ** Deletions only remove entries *)

Lemma deleteAll_sub {V : Type} (ids : list Z) (m : JsMap.t V) :
  JsMap.wf m ->
  JsMap.wf (fold_left (fun msgs id => JsMap.delete id msgs) ids m) /\
  forall k v, JsMap.get k (fold_left (fun msgs id => JsMap.delete id msgs) ids m) = Some v ->
              JsMap.get k m = Some v.
Proof.
  revert m. induction ids as [|id r IH]; intros m Hwf; simpl; [tauto|].
  destruct (IH (JsMap.delete id m) (JsMapFacts.wf_delete _ _ Hwf)) as [H1 H2].
  split; [exact H1|]. intros k v H. apply H2 in H.
  now apply JsMapFacts.get_delete_Some in H.
Qed.

Lemma cascade_messages_sub (convIds : list Z)
    (cm : JsMap.t Conversation.t * JsMap.t Message.t) :
  JsMap.wf (snd cm) ->
  let cm' := fold_left (fun cm convId => deleteConversationCascade convId cm) convIds cm in
  JsMap.wf (snd cm') /\
  forall k v, JsMap.get k (snd cm') = Some v -> JsMap.get k (snd cm) = Some v.
Proof.
  revert cm. induction convIds as [|c r IH]; intros cm Hm; simpl; [tauto|].
  set (cm1 := deleteConversationCascade c cm).
  destruct (deleteAll_sub
              (JsMap.forEach
                 (fun message _ acc =>
                    if Message.conversationId message =? c
                    then acc ++ [Message.id message] else acc) (snd cm) [])
              (snd cm) Hm) as [Hm1 Hsub1].
  destruct (IH cm1 Hm1) as [B1 B2].
  split; trivial.
  intros k v H. apply B2 in H. now apply Hsub1.
Qed.

Lemma cascade_conversations_sub (convIds : list Z)
    (cm : JsMap.t Conversation.t * JsMap.t Message.t) :
  JsMap.wf (fst cm) ->
  let cm' := fold_left (fun cm convId => deleteConversationCascade convId cm) convIds cm in
  JsMap.wf (fst cm') /\
  forall k v, JsMap.get k (fst cm') = Some v -> JsMap.get k (fst cm) = Some v.
Proof.
  revert cm. induction convIds as [|c r IH]; intros cm Hc; simpl; [tauto|].
  set (cm1 := deleteConversationCascade c cm).
  assert (Hc1 : JsMap.wf (fst cm1)) by (apply JsMapFacts.wf_delete; exact Hc).
  destruct (IH cm1 Hc1) as [A1 A2].
  split; trivial.
  intros k v H. apply A2 in H. simpl in H.
  now apply JsMapFacts.get_delete_Some in H.
Qed.

(** ** The shape of the two maps is kept by every operation *)

Lemma messagesWf_init : messagesWf init.
Proof. split; [constructor|]. intros k m H. discriminate. Qed.

Lemma messagesWf_apply op now s : messagesWf s -> messagesWf (apply op now s).
Proof.
  intros [Hwf Hid].
  destruct op as [u | uid role adm | p owner | pid upd | pid | c | cid | im | ids reader];
    simpl; try (split; assumption).
  - unfold updateUserRole. destruct (JsMap.get uid (users s)); split; assumption.
  - unfold updatePet. destruct (JsMap.get pid (pets s)); split; assumption.
  - unfold deletePet, messagesWf. simpl.
    destruct (cascade_messages_sub
                (JsMap.forEach
                   (fun conversation _ acc =>
                      if Conversation.petId conversation =? pid
                      then acc ++ [Conversation.id conversation] else acc)
                   (conversations s) [])
                (conversations s, MemStorage.messages s) Hwf) as [B1 B2].
    split; [exact B1|]. intros k m H. apply B2 in H. now apply Hid.
  - unfold updateConversationLastMessageTime.
    destruct (JsMap.get cid (conversations s)); split; assumption.
  - unfold messagesWf. simpl. split; [now apply JsMapFacts.wf_set|].
    intros k m H. destruct (Z.eq_dec (currentMessageId s) k) as [<-|Hne].
    + rewrite JsMapFacts.get_set_eq in H. injection H as <-. simpl. lia.
    + rewrite JsMapFacts.get_set_ne in H by exact Hne.
      apply Hid in H. lia.
  - unfold messagesWf. simpl. split.
    + unfold JsMap.wf. now rewrite markAll_keys.
    + intros k m H. rewrite markAll_get in H.
      destruct (JsMap.get k (MemStorage.messages s)) as [m0|] eqn:E; [|discriminate].
      simpl in H. injection H as <-. destruct (Hid k m0 E) as [H1 H2].
      split; [|exact H2]. unfold marked.
      destruct (array_includes k ids && negb (Message.senderId m0 =? reader));
        simpl; exact H1.
Qed.

Lemma reachable_messagesWf s : reachable s -> messagesWf s.
Proof.
  induction 1 as [|op now s _ IH]; [apply messagesWf_init|now apply messagesWf_apply].
Qed.

End MemStorageFacts.


(* ================================================================== *)
(** * The broadcast reaches the open connections of the conversation *)

Section BroadcastFacts.

Context {JsonValue : Type}.
Implicit Types (conns : JsMap.t ConnectionInfo) (message : WebSocketMessage JsonValue).

Lemma broadcast_fold ready cid message excludeClient conns sent :
  fold_left
    (fun a kv => broadcastVisit ready cid message excludeClient (snd kv) (fst kv) a)
    conns sent
  = sent ++ map (fun kv => (fst kv, message))
                (filter (selected ready cid excludeClient) conns).
Proof.
  revert sent. induction conns as [|kv r IH]; intros sent; simpl.
  - now rewrite app_nil_r.
  - rewrite IH. unfold broadcastVisit.
    change (isOpen (ready (fst kv)) &&
            nullable_strict_eq (conversationId (snd kv)) cid &&
            isNot (fst kv) excludeClient)
      with (selected ready cid excludeClient kv).
    destruct (selected ready cid excludeClient kv); simpl.
    + now rewrite <- (app_assoc sent).
    + reflexivity.
Qed.

Lemma broadcastToConversation_filter conns ready cid message excludeClient :
  broadcastToConversation conns ready cid message excludeClient
  = map (fun kv => (fst kv, message))
        (filter (selected ready cid excludeClient) conns).
Proof.
  unfold broadcastToConversation, JsMap.forEach. now rewrite broadcast_fold.
Qed.

Lemma nullable_strict_eq_Num (c : option jsnum) (cid : Z) :
  nullable_strict_eq c (Num cid) = true <-> c = Some (Num cid).
Proof.
  destruct c as [[|z]|]; simpl; split; try discriminate.
  - intros H. apply Z.eqb_eq in H. now subst.
  - intros H. injection H as ->. apply Z.eqb_refl.
Qed.

Lemma isNot_true (client : WebSocket) (excludeClient : option WebSocket) :
  isNot client excludeClient = true <-> excludeClient <> Some client.
Proof.
  destruct excludeClient as [e|]; simpl.
  - rewrite negb_true_iff, Z.eqb_neq. split; intros H; congruence.
  - split; [discriminate|reflexivity].
Qed.

(** The test of the socket's state passes for [WebSocket.OPEN] and for
    no other state. *)
Lemma isOpen_OPEN (r : ReadyState) : isOpen r = true <-> r = OPEN.
Proof. destruct r; simpl; split; congruence. Qed.

(** C1.  For a publication to conversation [cid]: among the connections
    of the registry, the frame is sent, once, to exactly those that are
    bound to [cid], whose socket is in the state [OPEN] and that are not
    the excluded one; a connection bound to another conversation gets
    nothing, and neither does one whose socket is connecting, closing or
    closed. *)
Theorem broadcast_exactly_bound_open conns ready (cid : Z) message excludeClient :
  JsMap.wf conns ->
  let sent := broadcastToConversation conns ready (Num cid) message excludeClient in
  NoDup (map fst sent) /\
  (forall client m,
      In (client, m) sent <->
      m = message /\
      ready client = OPEN /\
      excludeClient <> Some client /\
      exists info, JsMap.get client conns = Some info /\
                   conversationId info = Some (Num cid)) /\
  (forall client info other m,
      JsMap.get client conns = Some info ->
      conversationId info = Some (Num other) ->
      other <> cid ->
      ~ In (client, m) sent) /\
  (forall client m,
      ready client = CONNECTING \/ ready client = CLOSING \/ ready client = CLOSED ->
      ~ In (client, m) sent).
Proof.
  intros Hwf sent.
  assert (Hchar : forall client m,
      In (client, m) sent <->
      m = message /\
      ready client = OPEN /\
      excludeClient <> Some client /\
      exists info, JsMap.get client conns = Some info /\
                   conversationId info = Some (Num cid)).
  { intros client m. subst sent. rewrite broadcastToConversation_filter.
    rewrite in_map_iff. split.
    - intros [[k info] [E Hin]]. simpl in E. injection E as -> ->.
      apply filter_In in Hin. destruct Hin as [Hin Hsel].
      unfold selected in Hsel. simpl in Hsel.
      apply andb_true_iff in Hsel. destruct Hsel as [Hsel Hnot].
      apply andb_true_iff in Hsel. destruct Hsel as [Hopen Hconv].
      repeat split; trivial.
      + now apply isOpen_OPEN.
      + now apply isNot_true.
      + exists info. split; [now apply JsMapFacts.In_get|].
        now apply nullable_strict_eq_Num.
    - intros [-> [Hopen [Hnot [info [Hget Hconv]]]]].
      exists (client, info). split; [reflexivity|].
      apply filter_In. split; [now apply JsMapFacts.get_In|].
      unfold selected. simpl. apply isOpen_OPEN in Hopen. rewrite Hopen. simpl.
      apply andb_true_iff. split.
      + now apply nullable_strict_eq_Num.
      + now apply isNot_true. }
  split; [|split; [exact Hchar|split]].
  - subst sent. rewrite broadcastToConversation_filter, map_map. simpl.
    now apply NoDup_map_fst_filter.
  - intros client info other m Hget Hconv Hne Hin.
    apply Hchar in Hin. destruct Hin as [_ [_ [_ [info' [Hget' Hconv']]]]].
    congruence.
  - intros client m Hstate Hin.
    apply Hchar in Hin. destruct Hin as [_ [Hopen _]].
    rewrite Hopen in Hstate. destruct Hstate as [H|[H|H]]; discriminate.
Qed.

End BroadcastFacts.


(* ================================================================== *)
(** * Creating a conversation *)

Section ConversationCreation.

Context {JsonValue : Type}.
Implicit Types (srv : Server MemStorage.t JsonValue).

Lemma postConversations_run srv u data :
  notParticipant u (InsertConversation.adopterId data) (InsertConversation.ownerId data)
    = false ->
  MemStorage.getPet (InsertConversation.petId data) (store (backend srv)) <> None ->
  postConversations (Some u) (Some data) srv
  = match MemStorage.getConversationByParticipants
            (InsertConversation.petId data) (InsertConversation.adopterId data)
            (InsertConversation.ownerId data) (store (backend srv)) with
    | Some c => (json 200 (ConversationBody c), srv)
    | None =>
        let r := MemStorage.createConversation data
                   (clock (backend srv) (dateReads (backend srv)))
                   (store (backend srv)) in
        (json 201 (ConversationBody (fst r)), afterCreate srv (snd r))
    end.
Proof.
  intros Hpart Hpet.
  destruct srv as [[s ck dr df ds dt] conns ready pub out].
  cbn [backend store clock dateReads dbFaults dbStatements dbTraces] in *.
  unfold postConversations, tryCatch, bind, parse, await, ret.
  cbn [getPet getConversationByParticipants createConversation MemStorage_IStorage].
  unfold onStore, bind, newDate.
  cbn [backend store clock dateReads dbFaults dbStatements dbTraces
       connections readyState published outbox].
  destruct (MemStorage.getPet (InsertConversation.petId data) s) as [pet|];
    [|contradiction].
  rewrite Hpart.
  cbn [backend store clock dateReads dbFaults dbStatements dbTraces
       connections readyState published outbox].
  destruct (MemStorage.getConversationByParticipants
              (InsertConversation.petId data) (InsertConversation.adopterId data)
              (InsertConversation.ownerId data) s) as [c|]; reflexivity.
Qed.


Lemma array_find_set_new {V : Type} (p : V -> bool) (m : JsMap.t V) (k : Z) (v : V) :
  array_find p (JsMap.values m) = None -> p v = true ->
  array_find p (JsMap.values (JsMap.set k v m)) = Some v.
Proof.
  intros Hnone Hv. induction m as [|[k0 v0] r IH]; simpl in *.
  - now rewrite Hv.
  - destruct (p v0) eqn:E0; [discriminate|].
    destruct (k0 =? k); simpl.
    + now rewrite Hv.
    + rewrite E0. now apply IH.
Qed.

Lemma filter_set_length {V : Type} (p : V -> bool) (m : JsMap.t V) (k : Z) (v : V) :
  (List.length (filter p (JsMap.values (JsMap.set k v m)))
   <= List.length (filter p (JsMap.values m)) + (if p v then 1 else 0))%nat.
Proof.
  induction m as [|[k0 v0] r IH]; simpl.
  - destruct (p v); simpl; lia.
  - destruct (k0 =? k); simpl.
    + destruct (p v), (p v0); simpl; lia.
    + destruct (p v0); simpl; lia.
Qed.

Lemma sameParticipants_created data now s petId adopterId ownerId :
  sameParticipants petId adopterId ownerId
    (fst (MemStorage.createConversation data now s)) = true ->
  petId = InsertConversation.petId data /\
  adopterId = InsertConversation.adopterId data /\
  ownerId = InsertConversation.ownerId data.
Proof.
  unfold sameParticipants. simpl. rewrite !andb_true_iff, !Z.eqb_eq. intuition.
Qed.

Lemma sameParticipants_own data now s :
  sameParticipants (InsertConversation.petId data) (InsertConversation.adopterId data)
    (InsertConversation.ownerId data)
    (fst (MemStorage.createConversation data now s)) = true.
Proof. unfold sameParticipants. simpl. now rewrite !Z.eqb_refl. Qed.

(** A conversation created for a triple that had none keeps the
    triples apart. *)
Lemma createConversation_atMostOnePerTriple data now s :
  MemStorage.getConversationByParticipants
    (InsertConversation.petId data) (InsertConversation.adopterId data)
    (InsertConversation.ownerId data) s = None ->
  atMostOnePerTriple s ->
  atMostOnePerTriple (snd (MemStorage.createConversation data now s)).
Proof.
  intros Hnone Hinv p a o. simpl.
  pose proof (filter_set_length (sameParticipants p a o) (MemStorage.conversations s)
                (MemStorage.currentConversationId s)
                (fst (MemStorage.createConversation data now s))) as Hlen.
  simpl in Hlen.
  destruct (sameParticipants p a o (fst (MemStorage.createConversation data now s)))
    eqn:E; simpl in E; rewrite E in Hlen.
  - apply (sameParticipants_created data now s) in E. destruct E as [-> [-> ->]].
    unfold MemStorage.getConversationByParticipants in Hnone.
    apply array_find_None in Hnone. rewrite Hnone in Hlen. simpl in Hlen. lia.
  - specialize (Hinv p a o). lia.
Qed.

(** What a request can do to the server: nothing, or create the
    conversation of a triple that had none. *)
Lemma postConversations_cases srv user body0 :
  snd (postConversations user body0 srv) = srv \/
  exists data,
    MemStorage.getConversationByParticipants
      (InsertConversation.petId data) (InsertConversation.adopterId data)
      (InsertConversation.ownerId data) (store (backend srv)) = None /\
    snd (postConversations user body0 srv)
    = afterCreate srv
        (snd (MemStorage.createConversation data
                (clock (backend srv) (dateReads (backend srv)))
                (store (backend srv)))).
Proof.
  destruct user as [u|]; [|now left].
  destruct body0 as [data|]; [|now left].
  destruct (notParticipant u (InsertConversation.adopterId data)
              (InsertConversation.ownerId data)) eqn:Hpart.
  - left. destruct srv as [[s ck dr df ds dt] conns ready pub out].
    unfold postConversations, tryCatch, bind, parse, await, ret.
    cbn [getPet MemStorage_IStorage]. unfold onStore.
    cbn [backend store clock dateReads dbFaults dbStatements dbTraces
         connections readyState published outbox].
    destruct (MemStorage.getPet (InsertConversation.petId data) s); [|reflexivity].
    rewrite Hpart. reflexivity.
  - destruct (MemStorage.getPet (InsertConversation.petId data) (store (backend srv)))
      as [pet|] eqn:Hpet.
    + rewrite postConversations_run by (trivial; congruence).
      destruct (MemStorage.getConversationByParticipants
                  (InsertConversation.petId data) (InsertConversation.adopterId data)
                  (InsertConversation.ownerId data) (store (backend srv))) eqn:Hfind.
      * now left.
      * right. exists data. split; [exact Hfind|reflexivity].
    + left. destruct srv as [[s ck dr df ds dt] conns ready pub out].
      unfold postConversations, tryCatch, bind, parse, await, ret.
      cbn [getPet MemStorage_IStorage]. unfold onStore.
      cbn [backend store clock dateReads dbFaults dbStatements dbTraces
           connections readyState published outbox] in *.
      rewrite Hpet. reflexivity.
Qed.

Lemma atMostOnePerTriple_init : atMostOnePerTriple MemStorage.init.
Proof. intros p a o. simpl. lia. Qed.

Lemma filter_delete_length {V : Type} (p : V -> bool) (m : JsMap.t V) (k : Z) :
  (List.length (filter p (JsMap.values (JsMap.delete k m)))
   <= List.length (filter p (JsMap.values m)))%nat.
Proof.
  induction m as [|[k0 v0] r IH]; simpl; [lia|].
  destruct (k0 =? k); simpl.
  - destruct (p v0); simpl; lia.
  - destruct (p v0); simpl; lia.
Qed.

Lemma filter_set_same_length {V : Type} (p : V -> bool) (m : JsMap.t V) (k : Z) (v v0 : V) :
  JsMap.get k m = Some v0 -> p v = p v0 ->
  List.length (filter p (JsMap.values (JsMap.set k v m)))
  = List.length (filter p (JsMap.values m)).
Proof.
  intros Hget Hp. induction m as [|[k1 v1] r IH]; simpl in *; [discriminate|].
  destruct (k1 =? k); cbn [JsMap.values map snd filter].
  - injection Hget as <-. rewrite Hp. destruct (p v1); reflexivity.
  - fold (JsMap.values (JsMap.set k v r)) (JsMap.values r).
    destruct (p v1); cbn [List.length]; rewrite (IH Hget); reflexivity.
Qed.

Lemma cascade_length (p : Conversation.t -> bool) (convIds : list Z)
    (cm : JsMap.t Conversation.t * JsMap.t Message.t) :
  (List.length
     (filter p (JsMap.values
                  (fst (fold_left
                          (fun cm convId => MemStorage.deleteConversationCascade convId cm)
                          convIds cm))))
   <= List.length (filter p (JsMap.values (fst cm))))%nat.
Proof.
  revert cm. induction convIds as [|c r IH]; intros cm; simpl; [lia|].
  etransitivity; [apply IH|]. simpl. apply filter_delete_length.
Qed.

(** No operation but the creation of a conversation adds one for any
    triple. *)
Lemma apply_atMostOnePerTriple op now s :
  (forall c, op <> MemStorage.CreateConversation c) ->
  atMostOnePerTriple s -> atMostOnePerTriple (MemStorage.apply op now s).
Proof.
  intros Hop Hinv.
  destruct op as [u | uid role adm | p owner | pid upd | pid | c | cid | im | ids reader];
    simpl; trivial.
  - unfold MemStorage.updateUserRole.
    destruct (JsMap.get uid (MemStorage.users s)); exact Hinv.
  - unfold MemStorage.updatePet.
    destruct (JsMap.get pid (MemStorage.pets s)); exact Hinv.
  - intros p a o. unfold MemStorage.deletePet. simpl.
    etransitivity; [apply cascade_length|]. apply Hinv.
  - exfalso. now apply (Hop c).
  - unfold MemStorage.updateConversationLastMessageTime.
    destruct (JsMap.get cid (MemStorage.conversations s)) as [c|] eqn:E; [|exact Hinv].
    intros p a o. simpl.
    rewrite (filter_set_same_length _ _ _ _ c E); [apply Hinv|reflexivity].
Qed.

(** Whatever the request, the handler keeps the triples apart. *)
Lemma postConversations_atMostOnePerTriple srv user body0 :
  atMostOnePerTriple (store (backend srv)) ->
  atMostOnePerTriple (store (backend (snd (postConversations user body0 srv)))).
Proof.
  intros Hinv. destruct (postConversations_cases srv user body0) as [->|[data [Hnone ->]]].
  - exact Hinv.
  - now apply createConversation_atMostOnePerTriple.
Qed.

Lemma participant_ok u data :
  u = InsertConversation.adopterId data \/ u = InsertConversation.ownerId data ->
  notParticipant u (InsertConversation.adopterId data) (InsertConversation.ownerId data)
  = false.
Proof.
  unfold notParticipant. intros [->| ->]; rewrite Z.eqb_refl; simpl; trivial.
  apply andb_false_r.
Qed.

Lemma sameParticipants_fields petId adopterId ownerId (c : Conversation.t) :
  sameParticipants petId adopterId ownerId c = true <->
  Conversation.petId c = petId /\
  Conversation.adopterId c = adopterId /\
  Conversation.ownerId c = ownerId.
Proof.
  unfold sameParticipants. rewrite !andb_true_iff, !Z.eqb_eq. tauto.
Qed.

Lemma filter_two {A : Type} (p : A -> bool) (l : list A) (x y : A) :
  In x l -> In y l -> x <> y -> p x = true -> p y = true ->
  (2 <= List.length (filter p l))%nat.
Proof.
  intros Hx Hy Hne Px Py. induction l as [|a l IH]; [contradiction|].
  simpl. destruct Hx as [->|Hx], Hy as [->|Hy].
  - contradiction.
  - rewrite Px. simpl.
    assert (In y (filter p l)) by (apply filter_In; now split).
    destruct (filter p l); [contradiction|simpl; lia].
  - rewrite Py. simpl.
    assert (In x (filter p l)) by (apply filter_In; now split).
    destruct (filter p l); [contradiction|simpl; lia].
  - specialize (IH Hx Hy). destruct (p a); simpl; lia.
Qed.

Lemma filter_snd_length {K V : Type} (p : V -> bool) (l : list (K * V)) :
  List.length (filter p (map snd l)) = List.length (filter (fun kv => p (snd kv)) l).
Proof.
  induction l as [|[k v] l IH]; simpl; [reflexivity|].
  destruct (p v); simpl; now rewrite IH.
Qed.

Lemma filter_at_most_one {K V : Type} (p : V -> bool) (l : list (K * V)) :
  NoDup (map fst l) ->
  (forall x y, In x l -> In y l -> p (snd x) = true -> p (snd y) = true ->
               fst x = fst y) ->
  (List.length (filter p (map snd l)) <= 1)%nat.
Proof.
  induction l as [|[k v] l IH]; intros Hnd Huniq; simpl; [lia|].
  inversion Hnd as [|? ? Hk Hnd']; subst.
  assert (IHl : (List.length (filter p (map snd l)) <= 1)%nat).
  { apply IH; [exact Hnd'|]. intros x y Hx Hy. apply Huniq; now right. }
  destruct (p v) eqn:Pv; [|exact IHl].
  assert (Hnone : filter p (map snd l) = []).
  { destruct (filter p (map snd l)) as [|v' r] eqn:E; [reflexivity|exfalso].
    assert (Hin : In v' (filter p (map snd l))) by (rewrite E; now left).
    apply filter_In in Hin. destruct Hin as [Hin Pv'].
    apply in_map_iff in Hin. destruct Hin as [[k' v''] [Ev Hin]]. simpl in Ev. subst v''.
    apply Hk. assert (Ek : k = k').
    { apply (Huniq (k, v) (k', v')); simpl; auto. }
    subst k'. apply in_map_iff. now exists (k, v'). }
  rewrite Hnone. simpl. lia.
Qed.

(** On a map, the count by triple and the statement by fields agree. *)
Lemma onePerTriple_count (s : MemStorage.t) :
  JsMap.wf (MemStorage.conversations s) ->
  (onePerTriple s <-> atMostOnePerTriple s).
Proof.
  intros Hwf. split.
  - intros Huniq p a o. unfold JsMap.values. apply filter_at_most_one; [exact Hwf|].
    intros [k1 c1] [k2 c2] H1 H2 P1 P2. simpl in *.
    apply sameParticipants_fields in P1, P2.
    destruct P1 as (E1 & E2 & E3), P2 as (F1 & F2 & F3).
    apply (Huniq k1 k2 c1 c2); try congruence; now apply JsMapFacts.In_get.
  - intros Hcount k1 k2 c1 c2 H1 H2 Ep Ea Eo.
    destruct (Z.eq_dec k1 k2) as [E|Hne]; [exact E|exfalso].
    specialize (Hcount (Conversation.petId c1) (Conversation.adopterId c1)
                       (Conversation.ownerId c1)).
    set (p := sameParticipants (Conversation.petId c1) (Conversation.adopterId c1)
                (Conversation.ownerId c1)) in *.
    assert (Hlen : List.length (filter p (JsMap.values (MemStorage.conversations s)))
                   = List.length (filter (fun kv => p (snd kv))
                                         (MemStorage.conversations s))).
    { unfold JsMap.values. apply filter_snd_length. }
    assert (Htwo : (2 <= List.length (filter (fun kv => p (snd kv))
                                             (MemStorage.conversations s)))%nat).
    { apply (filter_two _ _ (k1, c1) (k2, c2)).
      - now apply JsMapFacts.get_In.
      - now apply JsMapFacts.get_In.
      - congruence.
      - apply sameParticipants_fields. simpl. tauto.
      - apply sameParticipants_fields. simpl. repeat split; congruence. }
    lia.
Qed.

Lemma postConversations_wf srv user body0 :
  JsMap.wf (MemStorage.conversations (store (backend srv))) ->
  JsMap.wf (MemStorage.conversations
              (store (backend (snd (postConversations user body0 srv))))).
Proof.
  intros Hwf. destruct (postConversations_cases srv user body0) as [->|[data [_ ->]]].
  - exact Hwf.
  - cbn. now apply JsMapFacts.wf_set.
Qed.

Lemma postConversations_onePerTriple srv user body0 :
  JsMap.wf (MemStorage.conversations (store (backend srv))) ->
  onePerTriple (store (backend srv)) ->
  onePerTriple (store (backend (snd (postConversations user body0 srv)))).
Proof.
  intros Hwf Huniq.
  apply onePerTriple_count; [now apply postConversations_wf|].
  apply postConversations_atMostOnePerTriple. now apply onePerTriple_count.
Qed.

(** C2.  For a pet, adopter and owner that have a conversation in the
    store, a create request by a participant answers 200 with a stored
    conversation of that pet, adopter and owner, the very one when the
    store has one per triple, and leaves the server as it was; when
    they have none, the request answers 201 with a new conversation of
    theirs, stored under the next id.  Two create requests in a row for
    one triple answer with the same conversation, of that pet, adopter
    and owner, the second creating nothing.  A store in which no two
    conversations are of one pet, adopter and owner stays so. *)
Theorem postConversations_idempotent srv u1 u2 data :
  (u1 = InsertConversation.adopterId data \/ u1 = InsertConversation.ownerId data) ->
  (u2 = InsertConversation.adopterId data \/ u2 = InsertConversation.ownerId data) ->
  MemStorage.getPet (InsertConversation.petId data) (store (backend srv)) <> None ->
  let first := postConversations (Some u1) (Some data) srv in
  let second := postConversations (Some u2) (Some data) (snd first) in
  let stored := MemStorage.conversations (store (backend srv)) in
  (forall c,
      In c (JsMap.values stored) ->
      Conversation.petId c = InsertConversation.petId data ->
      Conversation.adopterId c = InsertConversation.adopterId data ->
      Conversation.ownerId c = InsertConversation.ownerId data ->
      exists c0,
        first = (json 200 (ConversationBody c0), srv) /\
        In c0 (JsMap.values stored) /\
        Conversation.petId c0 = InsertConversation.petId data /\
        Conversation.adopterId c0 = InsertConversation.adopterId data /\
        Conversation.ownerId c0 = InsertConversation.ownerId data /\
        (JsMap.wf stored -> onePerTriple (store (backend srv)) -> c0 = c)) /\
  ((forall c,
       In c (JsMap.values stored) ->
       ~ (Conversation.petId c = InsertConversation.petId data /\
          Conversation.adopterId c = InsertConversation.adopterId data /\
          Conversation.ownerId c = InsertConversation.ownerId data)) ->
   exists c0,
     fst first = json 201 (ConversationBody c0) /\
     Conversation.id c0 = MemStorage.currentConversationId (store (backend srv)) /\
     Conversation.petId c0 = InsertConversation.petId data /\
     Conversation.adopterId c0 = InsertConversation.adopterId data /\
     Conversation.ownerId c0 = InsertConversation.ownerId data /\
     MemStorage.conversations (store (backend (snd first)))
     = JsMap.set (Conversation.id c0) c0 stored) /\
  (exists c,
      body (fst first) = ConversationBody c /\
      fst second = json 200 (ConversationBody c) /\
      snd second = snd first /\
      Conversation.petId c = InsertConversation.petId data /\
      Conversation.adopterId c = InsertConversation.adopterId data /\
      Conversation.ownerId c = InsertConversation.ownerId data /\
      In c (JsMap.values (MemStorage.conversations (store (backend (snd second)))))) /\
  (JsMap.wf stored ->
   onePerTriple (store (backend srv)) ->
   onePerTriple (store (backend (snd first))) /\
   onePerTriple (store (backend (snd second)))).
Proof.
  intros H1 H2 Hpet first second stored.
  pose proof (participant_ok u1 data H1) as P1.
  pose proof (participant_ok u2 data H2) as P2.
  assert (Hfirst := postConversations_run srv u1 data P1 Hpet). fold first in Hfirst.
  set (find := MemStorage.getConversationByParticipants
                 (InsertConversation.petId data) (InsertConversation.adopterId data)
                 (InsertConversation.ownerId data)) in *.
  assert (Hfound : forall s c, find s = Some c ->
            forTriple data c /\ In c (JsMap.values (MemStorage.conversations s))).
  { intros s c Hc. unfold find, MemStorage.getConversationByParticipants in Hc.
    pose proof (array_find_Some _ _ _ Hc) as [Hin Hp].
    apply sameParticipants_fields in Hp. now split. }
  assert (Hmissing : forall s, find s = None ->
            forall c, In c (JsMap.values (MemStorage.conversations s)) ->
                      ~ forTriple data c).
  { intros s Hnone c Hin Htr. unfold find, MemStorage.getConversationByParticipants in Hnone.
    apply array_find_None in Hnone.
    assert (Hf : In c (filter (sameParticipants (InsertConversation.petId data)
                                 (InsertConversation.adopterId data)
                                 (InsertConversation.ownerId data))
                              (JsMap.values (MemStorage.conversations s)))).
    { apply filter_In. split; [exact Hin|now apply sameParticipants_fields]. }
    rewrite Hnone in Hf. contradiction. }
  assert (Hkey : forall c, In c (JsMap.values stored) -> JsMap.wf stored ->
                           exists k, JsMap.get k stored = Some c).
  { intros c Hin Hwf. unfold JsMap.values in Hin. apply in_map_iff in Hin.
    destruct Hin as [[k c'] [E Hin]]. simpl in E. subst c'. exists k.
    now apply JsMapFacts.In_get. }
  split; [|split; [|split]].
  - intros c Hin Ep Ea Eo.
    destruct (find (store (backend srv))) as [c0|] eqn:Hfind.
    + destruct (Hfound _ _ Hfind) as [(F1 & F2 & F3) Hin0].
      exists c0. split; [exact Hfirst|].
      split; [exact Hin0|split; [exact F1|split; [exact F2|split; [exact F3|]]]].
      intros Hwf Huniq.
      destruct (Hkey c0 Hin0 Hwf) as [k0 Hget0].
      destruct (Hkey c Hin Hwf) as [k Hget].
      assert (k0 = k) by (apply (Huniq k0 k c0 c); trivial; congruence).
      subst k0. congruence.
    + exfalso. apply (Hmissing _ Hfind c Hin). now repeat split.
  - intros Hnone.
    destruct (find (store (backend srv))) as [c0|] eqn:Hfind.
    + exfalso. destruct (Hfound _ _ Hfind) as [Htr Hin0].
      exact (Hnone c0 Hin0 Htr).
    + rewrite Hfirst. eexists. cbn [fst snd afterCreate backend store].
      split; [reflexivity|]. cbn. repeat split.
  - destruct (find (store (backend srv))) as [c|] eqn:Hfind.
    + exists c. subst second. rewrite Hfirst. cbn [fst snd body json].
      rewrite (postConversations_run srv u2 data P2 Hpet). fold find. rewrite Hfind.
      destruct (Hfound _ _ Hfind) as [(F1 & F2 & F3) Hin0].
      cbn [fst snd]. repeat split; trivial.
    + set (r := MemStorage.createConversation data
                  (clock (backend srv) (dateReads (backend srv)))
                  (store (backend srv))) in *.
      exists (fst r). subst second. rewrite Hfirst. cbn [fst snd body json].
      rewrite postConversations_run; [| exact P2 | exact Hpet].
      cbn [afterCreate backend store].
      assert (Hagain : find (snd r) = Some (fst r)).
      { unfold find, MemStorage.getConversationByParticipants. subst r. simpl.
        apply array_find_set_new; [exact Hfind|]. apply sameParticipants_own. }
      fold find. rewrite Hagain. cbn [fst snd afterCreate backend store].
      destruct (Hfound _ _ Hagain) as [(F1 & F2 & F3) Hin0].
      repeat split; trivial.
  - intros Hwf Huniq.
    pose proof (postConversations_onePerTriple srv (Some u1) (Some data) Hwf Huniq) as I1.
    split; [exact I1|]. apply postConversations_onePerTriple; [|exact I1].
    now apply postConversations_wf.
Qed.

End ConversationCreation.


(* ================================================================== *)
(** * Read receipts *)

Section ReadReceipts.
Import MemStorage.

(** Only [markMessagesAsRead] changes a message that stays stored. *)
Lemma apply_keeps_message op now s k m m' :
  messagesWf s ->
  (forall ids reader, op <> MarkMessagesAsRead ids reader) ->
  JsMap.get k (messages s) = Some m ->
  JsMap.get k (messages (apply op now s)) = Some m' ->
  m' = m.
Proof.
  intros [Hwf Hid] Hop Hm Hm'.
  destruct op as [u | uid role adm | p owner | pid upd | pid | c | cid | im | ids reader];
    simpl in Hm'.
  - congruence.
  - unfold updateUserRole in Hm'. destruct (JsMap.get uid (users s)); simpl in Hm'; congruence.
  - congruence.
  - unfold updatePet in Hm'. destruct (JsMap.get pid (pets s)); simpl in Hm'; congruence.
  - unfold deletePet in Hm'. simpl in Hm'.
    apply (MemStorageFacts.cascade_messages_sub _ (conversations s, messages s) Hwf) in Hm'.
    simpl in Hm'. congruence.
  - congruence.
  - unfold updateConversationLastMessageTime in Hm'.
    destruct (JsMap.get cid (conversations s)); simpl in Hm'; congruence.
  - destruct (Hid k m Hm) as [_ Hlt].
    rewrite JsMapFacts.get_set_ne in Hm' by lia. congruence.
  - exfalso. now apply (Hop ids reader).
Qed.

(** C3.  In a store that keeps every message under its own id, below
    the id counter, as every store the operations produce does: a
    message marked by its own sender is left as it is (so it stays unread
    when it was);
    no operation turns [isRead] from true to false; and [isRead] turns
    from false to true only under [markMessagesAsRead] called with the
    message's id by a reader who is not its sender. *)
Theorem isRead_set_only_by_the_other_participant op now s k m m' :
  messagesWf s ->
  JsMap.get k (messages s) = Some m ->
  JsMap.get k (messages (apply op now s)) = Some m' ->
  Message.id m = k /\
  (forall ids reader,
      op = MarkMessagesAsRead ids reader ->
      Message.senderId m = reader -> m' = m) /\
  (Message.isRead m = true -> Message.isRead m' = true) /\
  (Message.isRead m = false -> Message.isRead m' = true ->
   exists ids reader,
     op = MarkMessagesAsRead ids reader /\
     In (Message.id m) ids /\
     Message.senderId m <> reader).
Proof.
  intros Hwf Hm Hm'.
  destruct (proj2 Hwf k m Hm) as [Hk _].
  split; [exact Hk|].
  assert (Hcases :
            (exists ids reader,
                op = MarkMessagesAsRead ids reader /\
                m' = marked (array_includes k ids) reader m) \/
            ((forall ids reader, op <> MarkMessagesAsRead ids reader) /\ m' = m)).
  { destruct op as [u | uid role adm | p owner | pid upd | pid | c | cid | im | ids reader];
      try (right; split; [intros; discriminate |];
           eapply apply_keeps_message; eauto; intros; discriminate).
    left. exists ids, reader. split; [reflexivity|].
    simpl in Hm'. rewrite MemStorageFacts.markAll_get, Hm in Hm'. simpl in Hm'.
    congruence. }
  destruct Hcases as [[ids [reader [-> ->]]] | [Hop ->]].
  - unfold marked. repeat split.
    + intros ids' reader' E Hs. injection E as <- <-.
      rewrite Hs, Z.eqb_refl. simpl. now rewrite andb_false_r.
    + intros Hr.
      destruct (array_includes k ids && negb (Message.senderId m =? reader));
        [reflexivity|exact Hr].
    + intros Hf Ht. exists ids, reader. split; [reflexivity|].
      destruct (array_includes k ids) eqn:Hin;
        destruct (Z.eqb_spec (Message.senderId m) reader) as [E|E];
        simpl in Ht; try congruence.
      split; [|exact E]. rewrite Hk. now apply array_includes_In.
  - repeat split.
    + trivial.
    + intros Hf Ht. congruence.
Qed.

(** C10.  In a store that keeps every message under its own id,
    [markMessagesAsRead] leaves the users, the pets and the
    conversations as they are, adds and removes no message, changes of
    a message nothing but [isRead], and changes nothing at all of a
    message whose id is not in the list. *)
Theorem markMessagesAsRead_changes_only_isRead messageIds userId s :
  messagesWf s ->
  let s' := markMessagesAsRead messageIds userId s in
  users s' = users s /\
  pets s' = pets s /\
  conversations s' = conversations s /\
  JsMap.keys (messages s') = JsMap.keys (messages s) /\
  forall k m,
    JsMap.get k (messages s) = Some m ->
    exists m',
      JsMap.get k (messages s') = Some m' /\
      Message.id m' = Message.id m /\
      Message.conversationId m' = Message.conversationId m /\
      Message.senderId m' = Message.senderId m /\
      Message.content m' = Message.content m /\
      Message.createdAt m' = Message.createdAt m /\
      (~ In (Message.id m) messageIds -> m' = m).
Proof.
  intros [_ Hid] s'.
  repeat split; try reflexivity.
  - apply MemStorageFacts.markAll_keys.
  - intros k m Hm. subst s'. simpl.
    rewrite MemStorageFacts.markAll_get, Hm. simpl.
    eexists. split; [reflexivity|].
    destruct (Hid k m Hm) as [Hk _].
    unfold marked.
    destruct (array_includes k messageIds) eqn:Hin; simpl.
    + destruct (negb (Message.senderId m =? userId)); simpl; repeat split; trivial.
      intros Hnot. exfalso. apply Hnot. rewrite Hk.
      now apply array_includes_In.
    + repeat split; trivial.
Qed.

End ReadReceipts.


(* ================================================================== *)
(** * Read receipts in the database *)

Section DatabaseReadReceipts.
Import DatabaseStorage.

Lemma bind_statement {St A B : Type} (f : St -> A * St) (k : A -> Async St B)
    (b : Backend St) :
  bind (statement f) k b
  = if dbFaults b (dbStatements b)
    then (Rejected OtherError,
          mkBackend (leftBy (dbTraces b (dbStatements b))
                            (store b) (store b) (snd (f (store b))))
                    (clock b) (dateReads b) (dbFaults b) (S (dbStatements b))
                    (dbTraces b))
    else k (fst (f (store b)))
           (mkBackend (snd (f (store b))) (clock b) (dateReads b) (dbFaults b)
                      (S (dbStatements b)) (dbTraces b)).
Proof.
  unfold bind, statement. destruct (dbFaults b (dbStatements b)); [reflexivity|].
  destruct (f (store b)); reflexivity.
Qed.

Lemma firstRow_filter_In {A : Type} (p : A -> bool) (rows : list A) (r : A) :
  firstRow (filter p rows) = Some r -> In r rows /\ p r = true.
Proof.
  intros H. apply filter_In.
  destruct (filter p rows) as [|x l]; [discriminate|].
  injection H as ->. now left.
Qed.

Lemma setIsRead_rows (id userId0 : Z) (ids : list Z) (rows : list Message.t) (first : Message.t) :
  NoDup (map Message.id rows) ->
  In first rows -> Message.id first = id -> Message.senderId first <> userId0 ->
  Forall2 (readBy (id :: ids) userId0) rows
          (map (fun m => if Message.id m =? id then Message.markRead m else m) rows).
Proof.
  intros Hnd Hin Hid Hs. subst id.
  induction rows as [|m rows IH]; simpl; constructor.
  - destruct (Z.eqb_spec (Message.id m) (Message.id first)) as [E|E]; [|now left].
    right. split; [reflexivity|]. split; [left; congruence|].
    assert (m = first) as ->; [|exact Hs].
    destruct Hin as [->|Hin]; [reflexivity|]. exfalso.
    inversion Hnd as [|? ? Hnot _]; subst. apply Hnot.
    rewrite E. now apply in_map.
  - inversion Hnd as [|? ? Hnot Hnd']; subst.
    destruct Hin as [->|Hin]; [|now apply IH].
    clear IH. assert (Hall : forall x, In x rows -> Message.id x <> Message.id first).
    { intros x Hx E. apply Hnot. rewrite <- E. now apply in_map. }
    clear Hnd Hnot. induction rows as [|x rows IH]; simpl; constructor.
    + destruct (Z.eqb_spec (Message.id x) (Message.id first)) as [E|E]; [|now left].
      exfalso. apply (Hall x); [now left|exact E].
    + inversion Hnd' as [|? ? _ Hnd'']; subst. apply IH; [exact Hnd''|].
      intros y Hy. apply Hall. now right.
Qed.

Lemma readBy_refl ids userId0 (rows : list Message.t) :
  Forall2 (readBy ids userId0) rows rows.
Proof. induction rows; constructor; [now left|assumption]. Qed.

Lemma readBy_weaken id ids userId0 (rows rows' : list Message.t) :
  Forall2 (readBy ids userId0) rows rows' ->
  Forall2 (readBy (id :: ids) userId0) rows rows'.
Proof.
  induction 1 as [|m m' l l' H _ IH]; constructor; [|exact IH].
  destruct H as [->|[-> [Hin Hs]]]; [now left|right].
  repeat split; [now right|exact Hs].
Qed.

Lemma readBy_trans id ids userId0 (rows rows1 rows' : list Message.t) :
  Forall2 (readBy (id :: ids) userId0) rows rows1 ->
  Forall2 (readBy (id :: ids) userId0) rows1 rows' ->
  Forall2 (readBy (id :: ids) userId0) rows rows'.
Proof.
  intros H. revert rows'. induction H as [|m m1 l l1 H _ IH]; intros rows' H'.
  - inversion H'. constructor.
  - inversion H' as [|? m' ? l' H1 Hl]; subst. constructor; [|now apply IH].
    destruct H as [->|[-> [Hin Hs]]]; [exact H1|].
    destruct H1 as [->|[-> _]]; right; repeat split; trivial.
Qed.

Lemma readBy_ids ids userId0 (rows rows' : list Message.t) :
  Forall2 (readBy ids userId0) rows rows' ->
  map Message.id rows' = map Message.id rows.
Proof.
  induction 1 as [|m m' l l' H _ IH]; simpl; [reflexivity|].
  rewrite IH. destruct H as [->|[-> _]]; reflexivity.
Qed.

(** [DatabaseStorage.markMessagesAsRead], run to its end or to the
    statement that fails: every row is as it was or, its id listed and
    its sender another user, marked read; the other tables are
    untouched. *)
Lemma markMessagesAsRead_rows (messageIds : list Z) (userId0 : Z)
    (b : Backend DatabaseStorage.t) :
  NoDup (map Message.id (messages (store b))) ->
  let d' := store (snd (markMessagesAsRead messageIds userId0 b)) in
  Forall2 (readBy messageIds userId0) (messages (store b)) (messages d') /\
  pets d' = pets (store b) /\
  conversations d' = conversations (store b).
Proof.
  revert b. induction messageIds as [|id ids IH]; intros b Hnd; cbv zeta in *.
  - simpl. split; [apply readBy_refl|split; reflexivity].
  - destruct b as [d ck dr df ds dt]. cbn [store] in Hnd. cbn [markMessagesAsRead].
    rewrite bind_statement. cbn [store clock dateReads dbFaults dbStatements dbTraces fst snd].
    destruct (df ds).
    + cbn. destruct (dt ds); cbn; (split; [apply readBy_refl|split; reflexivity]).
    + destruct (firstRow (filter (fun m => Message.id m =? id) (messages d)))
        as [first|] eqn:Hfirst.
      * apply firstRow_filter_In in Hfirst. destruct Hfirst as [Hin Hid].
        apply Z.eqb_eq in Hid.
        destruct (Z.eqb_spec (Message.senderId first) userId0) as [Hs|Hs]; cbn [negb].
        -- destruct (IH (mkBackend d ck dr df (S ds) dt) Hnd) as [H1 [H2 H3]].
           split; [now apply readBy_weaken|split; assumption].
        -- rewrite bind_statement.
           cbn [store clock dateReads dbFaults dbStatements dbTraces fst snd setIsRead].
           pose proof (setIsRead_rows id userId0 ids (messages d) first
                         Hnd Hin Hid Hs) as Hstep.
           destruct (df (S ds)).
           ++ cbn. destruct (dt (S ds)); cbn;
                (split; [first [apply readBy_refl | exact Hstep]|split; reflexivity]).
           ++ match goal with
              | |- context [markMessagesAsRead ids userId0 ?b1] =>
                  destruct (IH b1) as [H1 [H2 H3]]
              end.
              { cbn. rewrite (readBy_ids _ _ _ _ Hstep). exact Hnd. }
              cbn in H1, H2, H3.
              split; [|split; assumption].
              eapply readBy_trans; [exact Hstep|now apply readBy_weaken].
      * destruct (IH (mkBackend d ck dr df (S ds) dt) Hnd) as [H1 [H2 H3]].
        split; [now apply readBy_weaken|split; assumption].
Qed.

End DatabaseReadReceipts.


(* ================================================================== *)
(** * Sending a message *)

Section SendMessage.

Context {JsonValue : Type}.

(** With any storage: the event is published exactly when the answer
    is 201, and then it is the message of the answer, sent to the
    connections the registry had. *)
Lemma postMessages_publishes_iff_created {St : Type} {storage : IStorage St}
    (srv : Server St JsonValue) user body0 :
  let r := postMessages user body0 srv in
  connections (snd r) = connections srv /\
  ((status (fst r) <> 201 /\
    published (snd r) = published srv /\
    outbox (snd r) = outbox srv) \/
   (exists data m,
       body0 = Some data /\
       fst r = json 201 (MessageBody m) /\
       published (snd r)
       = published srv ++ [(Num (md_conversationId data), new_message m)] /\
       outbox (snd r)
       = outbox srv ++
         broadcastToConversation (connections srv) (readyState srv)
           (Num (md_conversationId data)) (new_message m) None)).
Proof.
  intros r. subst r.
  destruct srv as [b conns ready pub out].
  destruct user as [u|]; [|cbn; split; [reflexivity|left; repeat split; discriminate]].
  destruct body0 as [data|]; [|cbn; split; [reflexivity|left; repeat split; discriminate]].
  unfold postMessages, tryCatch, bind, parse, await, publish, ret. cbn.
  destruct (getConversation (md_conversationId data) b) as [[[conv|]|e] b1]; cbn.
  - destruct (notParticipant u (Conversation.adopterId conv) (Conversation.ownerId conv)).
    + cbn. split; [reflexivity|left; repeat split; discriminate].
    + cbn. destruct (createMessage
                  (InsertMessage.mk (md_conversationId data) (md_content data) u) b1)
        as [[m|e] b2]; cbn.
      * destruct (updateConversationLastMessageTime (md_conversationId data) b2)
          as [[[]|e] b3]; cbn.
        -- split; [reflexivity|]. right. exists data, m. repeat split.
        -- split; [reflexivity|left]. destruct e; cbn; repeat split; discriminate.
      * split; [reflexivity|left]. destruct e; cbn; repeat split; discriminate.
  - split; [reflexivity|left; repeat split; discriminate].
  - split; [reflexivity|left]. destruct e; cbn; repeat split; discriminate.
Qed.

(** [MemStorage] never rejects: the handler never answers 500. *)
Lemma postMessages_mem_never_500 (srv : Server MemStorage.t JsonValue) user body0 :
  status (fst (postMessages user body0 srv)) <> 500.
Proof.
  destruct srv as [[s ck dr df ds dt] conns ready pub out].
  destruct user as [u|]; [|cbn; discriminate].
  destruct body0 as [data|]; [|cbn; discriminate].
  unfold postMessages, tryCatch, bind, parse, await, publish, ret.
  cbn [getConversation createMessage updateConversationLastMessageTime MemStorage_IStorage].
  unfold onStore, bind, newDate, ret.
  cbn [backend store clock dateReads dbFaults dbStatements dbTraces
       connections readyState published outbox fst snd].
  destruct (MemStorage.getConversation (md_conversationId data) s) as [conv|];
    [|cbn; discriminate].
  destruct (notParticipant u (Conversation.adopterId conv) (Conversation.ownerId conv));
    [cbn; discriminate|].
  cbn [MemStorage.createMessage MemStorage.withMessages MemStorage.conversations
       backend store clock dateReads dbFaults dbStatements dbTraces fst snd].
  destruct (JsMap.get (md_conversationId data) (MemStorage.conversations s));
    cbn; discriminate.
Qed.

End SendMessage.


Section SendMessageDatabase.

Context {JsonValue : Type}.
Implicit Types (srv : Server DatabaseStorage.t JsonValue).


End SendMessageDatabase.


(** When it is the insert that fails, after drawing its id, the
    request ends in 500 with the table as it was and the sequence one
    further: the same request sent again stores the message under
    id 2. *)
Example postMessages_again_after_failed_insert :
  let r := postMessages (Some 2) (Some (mkMessageData 1 "Hello"))
             Examples.dbServerInsertFails in
  let r' := postMessages (Some 2) (Some (mkMessageData 1 "Hello")) (snd r) in
  status (fst r) = 500 /\
  DatabaseStorage.messages (store (backend (snd r))) = [] /\
  DatabaseStorage.messages_id_seq (store (backend Examples.dbServerInsertFails)) = 1 /\
  DatabaseStorage.messages_id_seq (store (backend (snd r))) = 2 /\
  fst r' = json 201 (MessageBody (Message.mk 2 1 2 "Hello" false 3001)).
Proof. repeat split. Qed.

(** When the insert is carried out and its answer lost, the request
    ends in 500 with nothing sent and the message in the table. *)
Example postMessages_answer_lost :
  let r := postMessages (Some 2) (Some (mkMessageData 1 "Hello"))
             Examples.dbServerAnswerLost in
  status (fst r) = 500 /\
  outbox (snd r) = [] /\
  DatabaseStorage.messages (store (backend (snd r)))
  = [Message.mk 1 1 2 "Hello" false 3000].
Proof. repeat split. Qed.

(** On a connection that does not fail the same request is answered
    201 and the open connection bound to the conversation gets the
    event. *)
Example postMessages_created :
  let r := postMessages (Some 2) (Some (mkMessageData 1 "Hello")) Examples.dbServerOk in
  fst r = json 201 (MessageBody (Message.mk 1 1 2 "Hello" false 3000)) /\
  outbox (snd r) = [(1, new_message (Message.mk 1 1 2 "Hello" false 3000))] /\
  DatabaseStorage.conversations (store (backend (snd r)))
  = [Conversation.mk 1 1 2 3 "Inquiry about Rex" 3002].
Proof. repeat split. Qed.


(* ================================================================== *)
(** * Frames received before authentication *)

Section BeforeAuthentication.

Context {St JsonValue : Type} (parseInt : JsonValue -> jsnum).
Implicit Types (srv : Server St JsonValue) (frame : ClientFrame JsonValue).

(** C5, as the code has it.  On a connection that has not
    authenticated: no frame but [auth] changes the registry, so the
    connection stays unauthenticated; an unreadable frame and a frame of
    an unknown type do nothing; a [typing] or [stop_typing] frame is
    published to the conversation it names, the sender excluded; a
    [ping] is answered with [pong]; and [auth] installs the binding and
    sends nothing. *)
Theorem onMessage_unauthenticated ws frame srv :
  unauthenticated ws srv ->
  let srv' := onMessage parseInt ws frame srv in
  backend srv' = backend srv /\
  (isAuthFrame frame = false ->
   connections srv' = connections srv /\ unauthenticated ws srv') /\
  match frame with
  | Unreadable | OtherType => srv' = srv
  | AuthFrame userId0 conversationId0 =>
      JsMap.get ws (connections srv')
      = Some (mkConnectionInfo (Some (parseInt userId0))
                               (Some (parseInt conversationId0))) /\
      (forall other, other <> ws ->
                     JsMap.get other (connections srv')
                     = JsMap.get other (connections srv)) /\
      published srv' = published srv /\
      outbox srv' = outbox srv
  | TypingFrame conversationId0 userId0 =>
      published srv' = published srv ++ [(parseInt conversationId0, typing userId0)] /\
      outbox srv'
      = outbox srv ++
        broadcastToConversation (connections srv) (readyState srv)
          (parseInt conversationId0) (typing userId0) (Some ws)
  | StopTypingFrame conversationId0 userId0 =>
      published srv' = published srv ++ [(parseInt conversationId0, stop_typing userId0)] /\
      outbox srv'
      = outbox srv ++
        broadcastToConversation (connections srv) (readyState srv)
          (parseInt conversationId0) (stop_typing userId0) (Some ws)
  | PingFrame =>
      published srv' = published srv /\
      outbox srv' = outbox srv ++ [(ws, pong)]
  end.
Proof.
  intros Hun srv'. subst srv'.
  destruct srv as [b conns ready pub out]. unfold unauthenticated in *.
  destruct frame as [|u c|c u|c u| |]; cbn in *; repeat split; trivial;
    try discriminate.
  - apply JsMapFacts.get_set_eq.
  - intros other Hne. apply JsMapFacts.get_set_ne. congruence.
Qed.

(** The registry of a running server holds each connection once. *)
Lemma onConnection_wf ws srv :
  JsMap.wf (connections srv) -> JsMap.wf (connections (onConnection ws srv)).
Proof. intros H. cbn. now apply JsMapFacts.wf_set. Qed.

Lemma onMessage_wf ws frame srv :
  JsMap.wf (connections srv) -> JsMap.wf (connections (onMessage parseInt ws frame srv)).
Proof.
  intros H. destruct frame; cbn; trivial. now apply JsMapFacts.wf_set.
Qed.

Lemma onClose_wf ws srv :
  JsMap.wf (connections srv) -> JsMap.wf (connections (onClose ws srv)).
Proof. intros H. cbn. now apply JsMapFacts.wf_delete. Qed.

End BeforeAuthentication.

(** C5, as stated, fails: connection 1 has not authenticated, and its
    [typing] frame for conversation 7 is sent to connection 2, and its
    [ping] is answered. *)
Lemma unauthenticated_frames_are_served :
  unauthenticated 1 Examples.oneBoundOneNot /\
  isAuthFrame (TypingFrame 7 5 : ClientFrame Z) = false /\
  outbox (onMessage Examples.parseNumber 1 (TypingFrame 7 5) Examples.oneBoundOneNot)
  = outbox Examples.oneBoundOneNot ++ [(2, typing 5)] /\
  outbox (onMessage Examples.parseNumber 1 PingFrame Examples.oneBoundOneNot)
  = outbox Examples.oneBoundOneNot ++ [(1, pong)].
Proof. repeat split. Qed.


(* ================================================================== *)
(** * The order of a conversation's messages *)

Section MessageOrder.

Lemma insertByCreatedAt_perm m l : Permutation (insertByCreatedAt m l) (m :: l).
Proof.
  induction l as [|h r IH]; simpl; [reflexivity|].
  destruct (Message.createdAt m - Message.createdAt h <=? 0); [reflexivity|].
  rewrite IH. apply perm_swap.
Qed.

Lemma sortByCreatedAt_perm l : Permutation (sortByCreatedAt l) l.
Proof.
  induction l as [|m r IH]; simpl; [reflexivity|].
  rewrite insertByCreatedAt_perm. now constructor.
Qed.

Lemma insertByCreatedAt_sorted m l :
  StronglySorted byCreatedAt l -> StronglySorted byCreatedAt (insertByCreatedAt m l).
Proof.
  induction 1 as [|h r Hs IH Hall]; simpl.
  - repeat constructor.
  - destruct (Z.leb_spec (Message.createdAt m - Message.createdAt h) 0) as [Hle|Hgt].
    + constructor; [now constructor|].
      constructor; [unfold byCreatedAt; lia|].
      eapply Forall_impl; [|exact Hall]. unfold byCreatedAt. intros; lia.
    + constructor; [exact IH|].
      eapply Permutation_Forall; [symmetry; apply insertByCreatedAt_perm|].
      constructor; [unfold byCreatedAt; lia|exact Hall].
Qed.

Lemma sortByCreatedAt_sorted l : StronglySorted byCreatedAt (sortByCreatedAt l).
Proof.
  induction l as [|m r IH]; simpl; [constructor|now apply insertByCreatedAt_sorted].
Qed.

(** The sort is stable: the messages of one instant keep their order. *)
Lemma insertByCreatedAt_stable t m l :
  filter (fun x => Message.createdAt x =? t) (insertByCreatedAt m l)
  = filter (fun x => Message.createdAt x =? t) (m :: l).
Proof.
  induction l as [|h r IH]; [reflexivity|].
  simpl insertByCreatedAt.
  destruct (Z.leb_spec (Message.createdAt m - Message.createdAt h) 0) as [Hle|Hgt];
    [reflexivity|].
  simpl in *. rewrite IH.
  destruct (Z.eqb_spec (Message.createdAt m) t) as [Em|Em];
    destruct (Z.eqb_spec (Message.createdAt h) t) as [Eh|Eh]; try reflexivity.
  lia.
Qed.

Lemma sortByCreatedAt_stable t l :
  filter (fun x => Message.createdAt x =? t) (sortByCreatedAt l)
  = filter (fun x => Message.createdAt x =? t) l.
Proof.
  induction l as [|m r IH]; [reflexivity|].
  simpl sortByCreatedAt. rewrite insertByCreatedAt_stable. simpl. now rewrite IH.
Qed.

(** C6, as the code has it.  The fetch returns the stored messages of
    the conversation, each as often as it is stored, and of any two
    returned messages the earlier one in the result has a [createdAt]
    that is at most that of the later one, and a smaller one when no two
    of the returned messages share a [createdAt]. *)
Theorem getConversationMessages_ascending conversationId0 s :
  let fetched := MemStorage.getConversationMessages conversationId0 s in
  Permutation fetched
    (filter (fun m => Message.conversationId m =? conversationId0)
            (JsMap.values (MemStorage.messages s))) /\
  (forall m, In m fetched <->
             In m (JsMap.values (MemStorage.messages s)) /\
             Message.conversationId m = conversationId0) /\
  (forall pre a mid b post,
      fetched = pre ++ a :: mid ++ b :: post ->
      Message.createdAt a <= Message.createdAt b /\
      (NoDup (map Message.createdAt fetched) ->
       Message.createdAt a < Message.createdAt b)).
Proof.
  intros fetched.
  assert (Hperm : Permutation fetched
            (filter (fun m => Message.conversationId m =? conversationId0)
                    (JsMap.values (MemStorage.messages s))))
    by apply sortByCreatedAt_perm.
  split; [exact Hperm|split].
  - intros m. split.
    + intros Hin. apply (Permutation_in _ Hperm) in Hin.
      apply filter_In in Hin. destruct Hin as [Hin E].
      apply Z.eqb_eq in E. tauto.
    + intros [Hin E]. apply (Permutation_in _ (Permutation_sym Hperm)).
      apply filter_In. split; [exact Hin|now apply Z.eqb_eq].
  - intros pre a mid b post E.
    pose proof (sortByCreatedAt_sorted
                  (filter (fun m => Message.conversationId m =? conversationId0)
                          (JsMap.values (MemStorage.messages s)))) as Hs.
    change (StronglySorted byCreatedAt fetched) in Hs. rewrite E in Hs.
    pose proof (StronglySorted_split _ _ _ _ _ _ Hs) as Hle. unfold byCreatedAt in Hle.
    split; [exact Hle|].
    intros Hnd. rewrite E, map_app in Hnd. apply NoDup_app_remove_l in Hnd.
    simpl in Hnd. inversion Hnd as [|? ? Hnotin _]; subst.
    assert (Message.createdAt a <> Message.createdAt b); [|lia].
    intros Heq. apply Hnotin. rewrite Heq, map_app. apply in_or_app. right. now left.
Qed.

End MessageOrder.

(** C6, as stated, fails: two messages of conversation 1 created at the
    same reading of the clock are both fetched, and the first does not
    have a smaller [createdAt] than the second. *)
Lemma getConversationMessages_not_strictly_ascending :
  MemStorage.reachable Examples.sameInstant /\
  exists a b,
    MemStorage.getConversationMessages 1 Examples.sameInstant = [a; b] /\
    a <> b /\
    ~ (Message.createdAt a < Message.createdAt b).
Proof.
  split.
  - unfold Examples.sameInstant, Examples.oneMessage, Examples.withConversation.
    repeat apply MemStorage.reachable_step. apply MemStorage.reachable_init.
  - exists (Message.mk 1 1 2 "Hello" false 2000),
           (Message.mk 2 1 2 "Is he house-trained?" false 2000).
    repeat split; [discriminate|simpl; lia].
Qed.

(* ================================================================== *)
(** * The client's message log *)

Section MessageLog.
Import MessageThread.

Lemma array_some_id_In (message : Message.t) (log : list Message.t) :
  array_some (fun msg => Message.id msg =? Message.id message) log = true
  <-> In (Message.id message) (ids log).
Proof.
  unfold array_some, ids. rewrite existsb_exists, in_map_iff.
  split; intros [x [H1 H2]]; exists x.
  - apply Z.eqb_eq in H2. tauto.
  - split; [tauto|]. now apply Z.eqb_eq.
Qed.

(** C7.  Applying a [new_message] event leaves a log that holds the
    message's id as it is and appends the message to a log that does
    not; applying the event a second time changes nothing; and a log
    without a repeated id stays one. *)
Theorem handleNewMessage_idempotent (conversationId0 currentUserId : Z)
    (message : Message.t) (oldData : option (list Message.t)) :
  let apply1 := fun cache => fst (handleNewMessage conversationId0 currentUserId message cache) in
  (forall log, oldData = Some log -> In (Message.id message) (ids log) ->
               apply1 oldData = log) /\
  (forall log, oldData = Some log -> ~ In (Message.id message) (ids log) ->
               apply1 oldData = log ++ [message]) /\
  (oldData = None -> apply1 oldData = [message]) /\
  apply1 (Some (apply1 oldData)) = apply1 oldData /\
  (NoDup (ids (match oldData with Some log => log | None => [] end)) ->
   NoDup (ids (apply1 oldData))).
Proof.
  intros apply1. subst apply1. cbn [handleNewMessage fst].
  assert (Hin : forall log, In (Message.id message) (ids log) ->
                            addNewMessage message (Some log) = log).
  { intros log H. simpl. apply array_some_id_In in H. now rewrite H. }
  assert (Hout : forall log, ~ In (Message.id message) (ids log) ->
                             addNewMessage message (Some log) = log ++ [message]).
  { intros log H. simpl.
    destruct (array_some (fun msg => Message.id msg =? Message.id message) log) eqn:E;
      [|reflexivity].
    apply array_some_id_In in E. contradiction. }
  assert (Hmine : forall log, In (Message.id message) (ids (log ++ [message]))).
  { intros log. unfold ids. rewrite map_app. apply in_or_app. right. now left. }
  repeat split.
  - intros log -> H. now apply Hin.
  - intros log -> H. now apply Hout.
  - intros ->. reflexivity.
  - destruct oldData as [log|].
    + destruct (in_dec Z.eq_dec (Message.id message) (ids log)) as [H|H].
      * rewrite (Hin log H). now apply Hin.
      * rewrite (Hout log H). apply Hin, Hmine.
    + apply Hin, (Hmine []).
  - destruct oldData as [log|].
    + intros Hnd.
      destruct (in_dec Z.eq_dec (Message.id message) (ids log)) as [H|H].
      * now rewrite (Hin log H).
      * rewrite (Hout log H). unfold ids in *. rewrite map_app. simpl.
        apply NoDup_app; [exact Hnd|repeat constructor; simpl; tauto|].
        intros a Ha [<-|[]]. contradiction.
    + intros _. simpl. repeat constructor. simpl. tauto.
Qed.

End MessageLog.


(* ================================================================== *)
(** * Typing indicators on the client *)

Section TypingIndicators.
Import ChatSocket.

Context {Value Key : Type} {propertyKey : PropertyKey Key} {js : Js Value Key}.
Variable opts : Options Value.
Implicit Types (prev es : PlainObject.t Key (TypingState Value)) (acc : Sweep Value Key).

Lemma filter_filter {A : Type} (p q : A -> bool) (l : list A) :
  filter p (filter q l) = filter (fun x => q x && p x) l.
Proof.
  induction l as [|x l IH]; simpl; [reflexivity|].
  destruct (q x); simpl; [destruct (p x)|]; now rewrite IH.
Qed.

Lemma sweptAway_iff now prev k :
  sweptAway now prev k = true <->
  exists id typingState,
    In (id, typingState) prev /\
    expired now typingState = true /\
    toPropertyKey (toNumber id) = k.
Proof.
  unfold sweptAway. rewrite existsb_exists. split.
  - intros [[id ts] [Hin H]]. apply andb_true_iff in H. destruct H as [Hst Hk].
    simpl in Hk. destruct (sameKey (toPropertyKey (toNumber id)) k); [|discriminate].
    now exists id, ts.
  - intros (id & ts & Hin & Hst & Hk). exists (id, ts). split; [exact Hin|].
    apply andb_true_iff. split; [exact Hst|]. simpl.
    now destruct (sameKey (toPropertyKey (toNumber id)) k).
Qed.

(** The [forEach] of the sweep: what it leaves of [newState], what it
    calls and whether it sets [hasChanges]. *)
Lemma sweep_fold now es acc :
  PlainObject.wf (newState acc) ->
  let r := fold_left (sweepEntry opts now) es acc in
  newState r = filter (fun e => negb (sweptAway now es (fst e))) (newState acc) /\
  calls r = calls acc ++ flat_map (stopCall opts) (filter (staleEntry now) es) /\
  hasChanges r = hasChanges acc || existsb (staleEntry now) es.
Proof.
  revert acc. induction es as [|[k ts] es IH]; intros acc Hwf.
  - simpl. rewrite app_nil_r, orb_false_r. repeat split.
    symmetry. now apply PlainObjectFacts.filter_all_true.
  - cbn [fold_left filter existsb].
    replace (staleEntry now (k, ts)) with (3000 <? now - timestamp ts) by reflexivity.
    replace (sweepEntry opts now acc (k, ts))
      with (if 3000 <? now - timestamp ts
            then mkSweep (PlainObject.delete (toPropertyKey (toNumber k)) (newState acc))
                   true
                   (calls acc ++ when (onStopTyping opts) (CallStopTyping (toNumber k)))
            else acc) by reflexivity.
    destruct (3000 <? now - timestamp ts) eqn:E; cbn [flat_map].
    + destruct (IH (mkSweep (PlainObject.delete (toPropertyKey (toNumber k)) (newState acc))
                            true
                            (calls acc ++
                             when (onStopTyping opts) (CallStopTyping (toNumber k)))))
        as [H1 [H2 H3]].
      { cbn [newState]. now apply PlainObjectFacts.plain_wf_delete. }
      cbv zeta in H1, H2, H3. cbv zeta. rewrite H1, H2, H3. cbn [newState calls hasChanges].
      split; [|split].
      * rewrite PlainObjectFacts.plain_delete_filter by exact Hwf. rewrite filter_filter.
        apply filter_ext. intros [k0 ts0]. unfold sweptAway. cbn [existsb fst].
        replace (staleEntry now (k, ts)) with (3000 <? now - timestamp ts) by reflexivity.
        rewrite E. cbn [andb fst].
        destruct (sameKey k0 (toPropertyKey (toNumber k))) as [E1|Hne];
          destruct (sameKey (toPropertyKey (toNumber k)) k0) as [E0|Hne0];
          simpl; try reflexivity; exfalso; congruence.
      * replace (stopCall opts (k, ts))
          with (when (onStopTyping opts) (CallStopTyping (toNumber k))) by reflexivity.
        now rewrite <- app_assoc.
      * now rewrite orb_true_r.
    + destruct (IH acc Hwf) as [H1 [H2 H3]]. cbv zeta in H1, H2, H3. cbv zeta.
      rewrite H1, H2, H3. repeat split.
      apply filter_ext. intros [k0 ts0]. unfold sweptAway. cbn [existsb fst].
      replace (staleEntry now (k, ts)) with (3000 <? now - timestamp ts) by reflexivity.
      now rewrite E.
Qed.

Lemma sweptAway_none now prev k :
  existsb (staleEntry now) prev = false -> sweptAway now prev k = false.
Proof.
  intros Hnone. apply not_true_is_false. intros H. apply sweptAway_iff in H.
  destruct H as (id & ts & Hin & Hst & _).
  assert (Hex : existsb (staleEntry now) prev = true).
  { apply existsb_exists. now exists (id, ts). }
  congruence.
Qed.

Lemma sweep_spec now prev :
  PlainObject.wf prev ->
  sweep opts now prev
  = (filter (fun e => negb (sweptAway now prev (fst e))) prev,
     flat_map (stopCall opts) (filter (staleEntry now) prev)).
Proof.
  intros Hwf. unfold sweep, PlainObject.entries.
  destruct (sweep_fold now prev (mkSweep prev false []) Hwf) as [H1 [H2 H3]].
  cbv zeta in H1, H2, H3. cbn [newState calls hasChanges] in H1, H2, H3.
  rewrite H1, H2, H3. cbn [orb app].
  destruct (existsb (staleEntry now) prev) eqn:E; [reflexivity|].
  f_equal. symmetry. apply PlainObjectFacts.filter_all_true.
  intros e _. now rewrite sweptAway_none.
Qed.

Lemma sweep_get now prev k :
  PlainObject.wf prev ->
  PlainObject.get k (fst (sweep opts now prev))
  = if sweptAway now prev k then None else PlainObject.get k prev.
Proof.
  intros Hwf. rewrite sweep_spec by exact Hwf. cbn [fst].
  rewrite PlainObjectFacts.plain_get_filter by exact Hwf. cbn [fst].
  destruct (PlainObject.get k prev); destruct (sweptAway now prev k); reflexivity.
Qed.

(** When every key is the key of its number, the sweep deletes what it
    visits. *)
Lemma sweptAway_numberKeys now prev k typingState :
  PlainObject.wf prev ->
  (forall id, In id (PlainObject.keys prev) -> toPropertyKey (toNumber id) = id) ->
  PlainObject.get k prev = Some typingState ->
  sweptAway now prev k = expired now typingState.
Proof.
  intros Hwf Hkeys Hget.
  destruct (expired now typingState) eqn:E.
  - apply sweptAway_iff. exists k, typingState.
    split; [now apply PlainObjectFacts.plain_get_In|]. split; [exact E|].
    apply Hkeys. now apply PlainObjectFacts.plain_get_Some_keys with (v := typingState).
  - apply not_true_is_false. intros H. apply sweptAway_iff in H.
    destruct H as (id & ts & Hin & Hst & Hk).
    rewrite Hkeys in Hk
      by (apply PlainObjectFacts.plain_get_Some_keys with (v := ts);
          now apply PlainObjectFacts.plain_In_get).
    subst id. apply PlainObjectFacts.plain_In_get in Hin; [|exact Hwf]. congruence.
Qed.

Lemma sweep_numberKeys now prev :
  PlainObject.wf prev ->
  (forall id, In id (PlainObject.keys prev) -> toPropertyKey (toNumber id) = id) ->
  sweep opts now prev
  = (filter (freshEntry now) prev, flat_map (stopCall opts) (filter (staleEntry now) prev)).
Proof.
  intros Hwf Hkeys. rewrite sweep_spec by exact Hwf. f_equal.
  apply filter_ext_in. intros [k ts] Hin. cbn [fst].
  rewrite (sweptAway_numberKeys now prev k ts Hwf Hkeys)
    by now apply PlainObjectFacts.plain_In_get.
  reflexivity.
Qed.

Lemma stopCalls_map now prev :
  onStopTyping opts = true ->
  flat_map (stopCall opts) (filter (staleEntry now) prev)
  = map (fun e => CallStopTyping (toNumber (fst e))) (filter (staleEntry now) prev).
Proof.
  intros Hcb. unfold stopCall. rewrite Hcb. simpl.
  induction (filter (staleEntry now) prev) as [|e l IH]; simpl; [reflexivity|now rewrite IH].
Qed.


Lemma keys_sweep_fold now k es acc :
  In k (PlainObject.keys (newState (fold_left (sweepEntry opts now) es acc))) ->
  In k (PlainObject.keys (newState acc)).
Proof.
  revert acc. induction es as [|[id ts] es IH]; intros acc H; simpl in H; [exact H|].
  apply IH in H. destruct (3000 <? now - timestamp ts); simpl in H; [|exact H].
  now apply PlainObjectFacts.plain_In_keys_delete in H.
Qed.

Lemma keys_step e k (typingUsers : PlainObject.t Key (TypingState Value)) :
  In k (PlainObject.keys (fst (step opts e typingUsers))) ->
  In k (PlainObject.keys typingUsers) \/
  exists now u, e = Received now (typing (Some u)) /\
                strictEquals u (opt_userId opts) = false /\
                k = toPropertyKey u.
Proof.
  destruct e as [now message|now]; cbn [step].
  - destruct message as [text|data|data|[u|]|[u|]| | |]; simpl; auto.
    + destruct (strictEquals u (opt_userId opts)) eqn:E; simpl; auto.
      rewrite PlainObjectFacts.plain_In_keys_set. intros [->|H]; [right|now left].
      now exists now, u.
    + destruct (strictEquals u (opt_userId opts)); simpl; auto.
      intros H. left. now apply PlainObjectFacts.plain_In_keys_delete in H.
  - unfold sweep.
    destruct (hasChanges
                (fold_left (sweepEntry opts now) (PlainObject.entries typingUsers)
                           (mkSweep typingUsers false []))); simpl; auto.
    intros H. left. now apply keys_sweep_fold in H.
Qed.

Lemma step_wf e (typingUsers : PlainObject.t Key (TypingState Value)) :
  PlainObject.wf typingUsers -> PlainObject.wf (fst (step opts e typingUsers)).
Proof.
  intros Hwf. destruct e as [now message|now]; cbn [step].
  - destruct message as [text|data|data|[u|]|[u|]| | |]; simpl; trivial.
    + destruct (strictEquals u (opt_userId opts)); simpl; trivial.
      now apply PlainObjectFacts.plain_wf_set.
    + destruct (strictEquals u (opt_userId opts)); simpl; trivial.
      now apply PlainObjectFacts.plain_wf_delete.
  - rewrite (sweep_spec now typingUsers Hwf). cbn [fst].
    now apply PlainObjectFacts.plain_wf_filter.
Qed.

(** Every value of [typingUsers] holds each key once. *)
Lemma typingUsers_wf admitted (typingUsers : PlainObject.t Key (TypingState Value)) :
  reachable opts admitted typingUsers -> PlainObject.wf typingUsers.
Proof.
  induction 1 as [|e tu _ _ IH]; [constructor|now apply step_wf].
Qed.

(** When the [userId] of every [typing] frame received reads back from
    its key, every key of [typingUsers] is the key of its number. *)
Lemma typingUsers_numberKeys (typingUsers : PlainObject.t Key (TypingState Value)) :
  reachable opts typingReadsBack typingUsers ->
  forall id, In id (PlainObject.keys typingUsers) -> toPropertyKey (toNumber id) = id.
Proof.
  induction 1 as [|e tu Hadm _ IH]; [intros id []|].
  intros id Hid. apply keys_step in Hid.
  destruct Hid as [Hid|(now & u & -> & _ & ->)]; [now apply IH|].
  cbn in Hadm. unfold readsBack in Hadm. now rewrite Hadm.
Qed.


End TypingIndicators.


(* ================================================================== *)
(** * The statements at sample states *)

Lemma threeConnections_wf : JsMap.wf Examples.threeConnections.
Proof.
  unfold JsMap.wf. simpl. repeat constructor; simpl; intuition discriminate.
Defined.

(** The broadcast among three connections, one of them closing and one
    bound elsewhere. *)
Lemma broadcast_exactly_bound_open_witness :
  JsMap.wf Examples.threeConnections /\
  let sent :=
    broadcastToConversation Examples.threeConnections Examples.socketTwoClosing
      (Num 7) (pong : WebSocketMessage Z) None in
  NoDup (map fst sent) /\
  (forall client m,
      In (client, m) sent <->
      m = pong /\
      Examples.socketTwoClosing client = OPEN /\
      None <> Some client /\
      exists info, JsMap.get client Examples.threeConnections = Some info /\
                   conversationId info = Some (Num 7)) /\
  (forall client info other m,
      JsMap.get client Examples.threeConnections = Some info ->
      conversationId info = Some (Num other) ->
      other <> 7 ->
      ~ In (client, m) sent) /\
  (forall client m,
      Examples.socketTwoClosing client = CONNECTING \/
      Examples.socketTwoClosing client = CLOSING \/
      Examples.socketTwoClosing client = CLOSED ->
      ~ In (client, m) sent).
Proof.
  split; [exact threeConnections_wf|].
  exact (broadcast_exactly_bound_open Examples.threeConnections Examples.socketTwoClosing
           7 pong None threeConnections_wf).
Defined.

Example broadcast_three :
  broadcastToConversation Examples.threeConnections Examples.socketTwoClosing
    (Num 7) (pong : WebSocketMessage Z) None
  = [(1, pong)].
Proof. reflexivity. Qed.

Lemma oneMessage_reachable : MemStorage.reachable Examples.oneMessage.
Proof.
  unfold Examples.oneMessage, Examples.withConversation.
  repeat apply MemStorage.reachable_step. apply MemStorage.reachable_init.
Qed.

Lemma oneMessage_wf : MemStorage.messagesWf Examples.oneMessage.
Proof. exact (MemStorageFacts.reachable_messagesWf _ oneMessage_reachable). Qed.

(** A second create request for the conversation of pet 1, adopter 2 and
    owner 3, by the owner after the adopter. *)
Lemma postConversations_idempotent_witness :
  let data := InsertConversation.mk 1 2 3 "Rex again" in
  let first := postConversations (Some 2) (Some data) Examples.memServer in
  let second := postConversations (Some 3) (Some data) (snd first) in
  let stored := MemStorage.conversations (store (backend Examples.memServer)) in
  (forall c,
      In c (JsMap.values stored) ->
      Conversation.petId c = 1 ->
      Conversation.adopterId c = 2 ->
      Conversation.ownerId c = 3 ->
      exists c0,
        first = (json 200 (ConversationBody c0), Examples.memServer) /\
        In c0 (JsMap.values stored) /\
        Conversation.petId c0 = 1 /\
        Conversation.adopterId c0 = 2 /\
        Conversation.ownerId c0 = 3 /\
        (JsMap.wf stored -> onePerTriple (store (backend Examples.memServer)) ->
         c0 = c)) /\
  ((forall c,
       In c (JsMap.values stored) ->
       ~ (Conversation.petId c = 1 /\
          Conversation.adopterId c = 2 /\
          Conversation.ownerId c = 3)) ->
   exists c0,
     fst first = json 201 (ConversationBody c0) /\
     Conversation.id c0
     = MemStorage.currentConversationId (store (backend Examples.memServer)) /\
     Conversation.petId c0 = 1 /\
     Conversation.adopterId c0 = 2 /\
     Conversation.ownerId c0 = 3 /\
     MemStorage.conversations (store (backend (snd first)))
     = JsMap.set (Conversation.id c0) c0 stored) /\
  (exists c,
      body (fst first) = ConversationBody c /\
      fst second = json 200 (ConversationBody c) /\
      snd second = snd first /\
      Conversation.petId c = 1 /\
      Conversation.adopterId c = 2 /\
      Conversation.ownerId c = 3 /\
      In c (JsMap.values (MemStorage.conversations (store (backend (snd second)))))) /\
  (JsMap.wf stored ->
   onePerTriple (store (backend Examples.memServer)) ->
   onePerTriple (store (backend (snd first))) /\
   onePerTriple (store (backend (snd second)))).
Proof.
  apply (postConversations_idempotent Examples.memServer 2 3
           (InsertConversation.mk 1 2 3 "Rex again"));
    [left; reflexivity | right; reflexivity | discriminate].
Defined.

(** The store of the sample server holds the conversation of pet 1,
    adopter 2 and owner 3 under id 1; both requests answer with it, and a
    request of adopter 7 for the same pet and owner creates
    conversation 2. *)
Example postConversations_twice :
  let data := InsertConversation.mk 1 2 3 "Rex again" in
  let first := postConversations (Some 2) (Some data) Examples.memServer in
  let second := postConversations (Some 3) (Some data) (snd first) in
  let other := postConversations (Some 7) (Some (InsertConversation.mk 1 7 3 "Rex?"))
                 Examples.memServer in
  fst first = json 200 (ConversationBody (Conversation.mk 1 1 2 3 "Inquiry about Rex" 1000)) /\
  fst second = fst first /\
  snd second = Examples.memServer /\
  fst other = json 201 (ConversationBody (Conversation.mk 2 1 7 3 "Rex?" 3000)) /\
  JsMap.keys (MemStorage.conversations (store (backend (snd other)))) = [1; 2].
Proof. repeat split. Qed.

(** User 3 marks the message of user 2. *)
Lemma isRead_set_only_by_the_other_participant_witness :
  let op := MemStorage.MarkMessagesAsRead [1] 3 in
  let m := Examples.hello in
  let m' := Message.markRead Examples.hello in
  Message.id m = 1 /\
  (forall ids reader,
      op = MemStorage.MarkMessagesAsRead ids reader ->
      Message.senderId m = reader -> m' = m) /\
  (Message.isRead m = true -> Message.isRead m' = true) /\
  (Message.isRead m = false -> Message.isRead m' = true ->
   exists ids reader,
     op = MemStorage.MarkMessagesAsRead ids reader /\
     In (Message.id m) ids /\
     Message.senderId m <> reader).
Proof.
  exact (isRead_set_only_by_the_other_participant
           (MemStorage.MarkMessagesAsRead [1] 3) 0 Examples.oneMessage 1
           Examples.hello (Message.markRead Examples.hello)
           oneMessage_wf eq_refl eq_refl).
Defined.

(** Connection 1 of the sample server sends a [typing] frame before any
    [auth]. *)
Lemma onMessage_unauthenticated_witness :
  unauthenticated 1 Examples.oneBoundOneNot /\
  let srv' := onMessage Examples.parseNumber 1 (TypingFrame 7 5) Examples.oneBoundOneNot in
  backend srv' = backend Examples.oneBoundOneNot /\
  (isAuthFrame (TypingFrame 7 5 : ClientFrame Z) = false ->
   connections srv' = connections Examples.oneBoundOneNot /\ unauthenticated 1 srv') /\
  published srv' = published Examples.oneBoundOneNot ++ [(Examples.parseNumber 7, typing 5)] /\
  outbox srv'
  = outbox Examples.oneBoundOneNot ++
    broadcastToConversation (connections Examples.oneBoundOneNot)
      (readyState Examples.oneBoundOneNot) (Examples.parseNumber 7) (typing 5) (Some 1).
Proof.
  split; [reflexivity|].
  exact (onMessage_unauthenticated Examples.parseNumber 1 (TypingFrame 7 5)
           Examples.oneBoundOneNot eq_refl).
Defined.

Lemma twoTyping_wf : PlainObject.wf Examples.twoTyping.
Proof.
  unfold PlainObject.wf. simpl. repeat constructor; simpl; intuition discriminate.
Defined.


(** Its keys are those of the numbers 4 and 9: the entry of 1000 goes
    and the callback is called with 4. *)
Example sweep_two :
  (forall id, In id (PlainObject.keys Examples.twoTyping) ->
              toPropertyKey (toNumber id) = id) /\
  ChatSocket.sweep Examples.withCallbacks 5500 Examples.twoTyping
  = ([(Examples.key_9, ChatSocket.mkTypingState Examples.number_9 5000)],
     [ChatSocket.CallStopTyping Examples.number_4]).
Proof.
  split; [|reflexivity]. intros id [<-|[<-|[]]]; reflexivity.
Qed.


(** An entry stored for the [userId] ["abc"] is never removed: each
    sweep after its expiry deletes the key ["NaN"] and calls the callback
    with [NaN]. *)
Example sweep_never_clears_a_word :
  forall now, 4000 < now ->
    ChatSocket.sweep Examples.withCallbacks now Examples.wordTyping
    = (Examples.wordTyping, [ChatSocket.CallStopTyping Examples.number_NaN]).
Proof.
  intros now Hnow. unfold ChatSocket.sweep.
  change Examples.wordTyping
    with [(Examples.key_abc, ChatSocket.mkTypingState Examples.string_abc 1000)].
  cbn [PlainObject.entries fold_left ChatSocket.sweepEntry ChatSocket.timestamp].
  destruct (Z.ltb_spec 3000 (now - 1000)) as [_|H]; [reflexivity|lia].
Qed.




(** User 3 marks message 1 of the sample store. *)
Lemma markMessagesAsRead_changes_only_isRead_witness :
  MemStorage.messagesWf Examples.oneMessage /\
  let s' := MemStorage.markMessagesAsRead [1] 3 Examples.oneMessage in
  MemStorage.users s' = MemStorage.users Examples.oneMessage /\
  MemStorage.pets s' = MemStorage.pets Examples.oneMessage /\
  MemStorage.conversations s' = MemStorage.conversations Examples.oneMessage /\
  JsMap.keys (MemStorage.messages s') = JsMap.keys (MemStorage.messages Examples.oneMessage) /\
  forall k m,
    JsMap.get k (MemStorage.messages Examples.oneMessage) = Some m ->
    exists m',
      JsMap.get k (MemStorage.messages s') = Some m' /\
      Message.id m' = Message.id m /\
      Message.conversationId m' = Message.conversationId m /\
      Message.senderId m' = Message.senderId m /\
      Message.content m' = Message.content m /\
      Message.createdAt m' = Message.createdAt m /\
      (~ In (Message.id m) [1] -> m' = m).
Proof.
  split; [exact oneMessage_wf|].
  exact (markMessagesAsRead_changes_only_isRead [1] 3 Examples.oneMessage
           oneMessage_wf).
Defined.

Example markMessagesAsRead_sample :
  JsMap.values (MemStorage.messages (MemStorage.markMessagesAsRead [1] 3 Examples.oneMessage))
  = [Message.markRead Examples.hello] /\
  JsMap.values (MemStorage.messages (MemStorage.markMessagesAsRead [1] 2 Examples.oneMessage))
  = [Examples.hello].
Proof. split; reflexivity. Qed.

(* ================================================================== *)
(** * More facts about [JsMap] *)

Module JsMapMore.
Import JsMap.

Section Facts.
Context {V : Type}.
Implicit Types (m : JsMap.t V) (k : Z) (v : V).

Lemma get_delete_None_kept m k k' : get k' m = None -> get k' (delete k m) = None.
Proof.
  induction m as [|[k0 v0] r IH]; simpl; [trivial|].
  destruct (Z.eqb_spec k0 k') as [->|Hne]; [discriminate|].
  intros H. destruct (k0 =? k); simpl; [exact H|].
  destruct (Z.eqb_spec k0 k'); [contradiction|now apply IH].
Qed.

Lemma get_deleteAll (ids : list Z) m k :
  wf m ->
  get k (fold_left (fun acc id => delete id acc) ids m)
  = if existsb (Z.eqb k) ids then None else get k m.
Proof.
  revert m. induction ids as [|id r IH]; intros m Hwf; simpl; [reflexivity|].
  rewrite IH by now apply JsMapFacts.wf_delete.
  destruct (Z.eqb_spec k id) as [->|Hne]; simpl.
  - rewrite JsMapFacts.get_delete_eq by exact Hwf. now destruct (existsb (Z.eqb id) r).
  - rewrite JsMapFacts.get_delete_ne by congruence. reflexivity.
Qed.

(** [forEach] with a callback that pushes [f value] when [p value]. *)
Lemma forEach_collect {B : Type} (p : V -> bool) (f : V -> B) m (acc : list B) :
  forEach (fun value _ l => if p value then l ++ [f value] else l) m acc
  = acc ++ map f (filter p (values m)).
Proof.
  unfold forEach, values. revert acc.
  induction m as [|[k v] r IH]; intros acc; simpl; [now rewrite app_nil_r|].
  rewrite IH. destruct (p v); simpl; [now rewrite <- app_assoc|reflexivity].
Qed.

Lemma In_values_get m v : In v (values m) -> exists k, In (k, v) m.
Proof. apply JsMapFacts.In_values. Qed.

(** Assignment to a key the map has, as a pass over its entries. *)
Lemma set_present_map m k v v0 :
  wf m -> get k m = Some v0 ->
  set k v m = map (fun kv => if fst kv =? k then (k, v) else kv) m.
Proof.
  unfold wf. induction m as [|[k1 v1] r IH]; simpl; [discriminate|].
  intros Hnd Hget. inversion Hnd as [|? ? Hnot Hnd']; subst.
  destruct (Z.eqb_spec k1 k) as [->|Hne].
  - f_equal. clear IH Hget Hnd. unfold keys in *.
    induction r as [|[k2 v2] r IH]; simpl in *; [reflexivity|].
    destruct (Z.eqb_spec k2 k) as [->|Hne2]; [exfalso; apply Hnot; now left|].
    f_equal. apply IH.
    + intros H. apply Hnot. now right.
    + now inversion Hnd'.
  - f_equal. now apply IH.
Qed.

Lemma get_map_values (f : Z -> V -> V) m k :
  get k (map (fun kv => (fst kv, f (fst kv) (snd kv))) m) = option_map (f k) (get k m).
Proof.
  induction m as [|[k1 v1] r IH]; simpl; [reflexivity|].
  destruct (Z.eqb_spec k1 k) as [->|Hne]; [reflexivity|exact IH].
Qed.

End Facts.

End JsMapMore.

(* ================================================================== *)
(** * The shape of the store *)

Section StoreShape.
Import MemStorage.

Lemma entitiesWf_empty {V : Type} (idOf : V -> Z) : entitiesWf idOf JsMap.empty 1.
Proof. split; [constructor|]. intros k v H. discriminate. Qed.

(** A new entry under the counter, which moves on. *)
Lemma entitiesWf_create {V : Type} (idOf : V -> Z) (m : JsMap.t V) (next : Z) (v : V) :
  1 <= next -> idOf v = next ->
  entitiesWf idOf m next -> entitiesWf idOf (JsMap.set next v m) (next + 1).
Proof.
  intros Hpos Hid [Hwf Hk]. split; [now apply JsMapFacts.wf_set|].
  intros k v' H. destruct (Z.eq_dec next k) as [<-|Hne].
  - rewrite JsMapFacts.get_set_eq in H. injection H as <-. lia.
  - rewrite JsMapFacts.get_set_ne in H by exact Hne. apply Hk in H. lia.
Qed.

(** An entry replaced by one of the same id. *)
Lemma entitiesWf_update {V : Type} (idOf : V -> Z) (m : JsMap.t V) (next k : Z) (v v0 : V) :
  JsMap.get k m = Some v0 -> idOf v = idOf v0 ->
  entitiesWf idOf m next -> entitiesWf idOf (JsMap.set k v m) next.
Proof.
  intros Hget Hid [Hwf Hk]. split; [now apply JsMapFacts.wf_set|].
  intros k' v' H. destruct (Z.eq_dec k k') as [<-|Hne].
  - rewrite JsMapFacts.get_set_eq in H. injection H as <-.
    rewrite Hid. now apply Hk.
  - rewrite JsMapFacts.get_set_ne in H by exact Hne. now apply Hk.
Qed.

(** A map that lost entries and changed none. *)
Lemma entitiesWf_sub {V : Type} (idOf : V -> Z) (m m' : JsMap.t V) (next : Z) :
  JsMap.wf m' ->
  (forall k v, JsMap.get k m' = Some v -> JsMap.get k m = Some v) ->
  entitiesWf idOf m next -> entitiesWf idOf m' next.
Proof.
  intros Hwf' Hsub [_ Hk]. split; [exact Hwf'|].
  intros k v H. apply Hk. now apply Hsub.
Qed.

Lemma entitiesWf_positive {V : Type} (idOf : V -> Z) (m : JsMap.t V) (next : Z) :
  entitiesWf idOf m next -> m <> [] -> 1 <= next.
Proof.
  intros [_ Hk] Hne. destruct m as [|[k v] r]; [contradiction|].
  destruct (Hk k v) as [_ H]; [simpl; now rewrite Z.eqb_refl|lia].
Qed.

Lemma storeWf_apply op now s :
  countersPositive s /\ storeWf s ->
  countersPositive (apply op now s) /\ storeWf (apply op now s).
Proof.
  intros [[Pu [Pp [Pc Pm]]] [Wu [Wp [Wc Wm]]]].
  unfold countersPositive, storeWf.
  destruct op as [u | uid role adm | p owner | pid upd | pid | c | cid | im | ids reader];
    simpl.
  - split; [lia|]. split; [|tauto].
    now apply (entitiesWf_create User.id).
  - unfold updateUserRole.
    destruct (JsMap.get uid (users s)) as [user|] eqn:E; simpl; [|tauto].
    split; [tauto|]. split; [|tauto].
    now apply (entitiesWf_update User.id _ _ _ _ user).
  - split; [lia|]. split; [exact Wu|]. split; [|tauto].
    now apply (entitiesWf_create Pet.id).
  - unfold updatePet.
    destruct (JsMap.get pid (pets s)) as [pet|] eqn:E; simpl; [|tauto].
    split; [tauto|]. split; [exact Wu|]. split; [|tauto].
    now apply (entitiesWf_update Pet.id _ _ _ _ pet).
  - split; [tauto|]. split; [exact Wu|].
    set (convIds := JsMap.forEach _ (conversations s) []).
    destruct (MemStorageFacts.cascade_conversations_sub convIds
                (conversations s, messages s) (proj1 Wc)) as [C1 C2].
    destruct (MemStorageFacts.cascade_messages_sub convIds
                (conversations s, messages s) (proj1 Wm)) as [M1 M2].
    split; [|split].
    + apply (entitiesWf_sub Pet.id (pets s)); [|intros k v|exact Wp].
      * apply JsMapFacts.wf_delete, Wp.
      * apply JsMapFacts.get_delete_Some, Wp.
    + now apply (entitiesWf_sub Conversation.id (conversations s)).
    + now apply (entitiesWf_sub Message.id (messages s)).
  - split; [lia|]. split; [exact Wu|]. split; [exact Wp|]. split; [|exact Wm].
    now apply (entitiesWf_create Conversation.id).
  - unfold updateConversationLastMessageTime.
    destruct (JsMap.get cid (conversations s)) as [conv|] eqn:E; simpl; [|tauto].
    split; [tauto|]. split; [exact Wu|]. split; [exact Wp|]. split; [|exact Wm].
    now apply (entitiesWf_update Conversation.id _ _ _ _ conv).
  - split; [lia|]. split; [exact Wu|]. split; [exact Wp|]. split; [exact Wc|].
    now apply (entitiesWf_create Message.id).
  - split; [tauto|]. split; [exact Wu|]. split; [exact Wp|]. split; [exact Wc|].
    destruct Wm as [Hwf Hk]. split.
    + unfold JsMap.wf. now rewrite MemStorageFacts.markAll_keys.
    + intros k m H. rewrite MemStorageFacts.markAll_get in H.
      destruct (JsMap.get k (messages s)) as [m0|] eqn:E; [|discriminate].
      simpl in H. injection H as <-. destruct (Hk k m0 E) as [H1 H2].
      split; [|exact H2]. unfold marked.
      destruct (array_includes k ids && negb (Message.senderId m0 =? reader));
        simpl; exact H1.
Qed.

(** X1.  Every store the operations produce from the empty one keeps each
    user, pet, conversation and message under its own id, an id that is
    at least 1 and below the counter the next one will get: no id is
    handed out twice. *)
Theorem reachable_storeWf s : reachable s -> countersPositive s /\ storeWf s.
Proof.
  induction 1 as [|op now s _ IH].
  - split; [unfold countersPositive; simpl; lia|].
    unfold storeWf. simpl.
    repeat split; try apply NoDup_nil; simpl in *; discriminate.
  - apply storeWf_apply. exact IH.
Qed.

End StoreShape.

(* ================================================================== *)
(** * Deleting a pet *)

Section DeletePet.
Import MemStorage.

Lemma cascade_fst (convIds : list Z) (cm : JsMap.t Conversation.t * JsMap.t Message.t) :
  fst (fold_left (fun cm convId => deleteConversationCascade convId cm) convIds cm)
  = fold_left (fun acc id => JsMap.delete id acc) convIds (fst cm).
Proof.
  revert cm. induction convIds as [|c r IH]; intros cm; simpl; [reflexivity|].
  now rewrite IH.
Qed.

(** The ids a predicate selects among the entries of a map whose
    entries sit under their ids. *)
Lemma existsb_selected_ids {V : Type} (idOf : V -> Z) (p : V -> bool)
    (m : JsMap.t V) (next : Z) (k : Z) (v : V) :
  entitiesWf idOf m next -> JsMap.get k m = Some v ->
  existsb (Z.eqb k) (map idOf (filter p (JsMap.values m))) = p v.
Proof.
  intros [Hwf Hk] Hget. destruct (p v) eqn:E.
  - apply existsb_exists. exists k. split; [|apply Z.eqb_refl].
    apply in_map_iff. exists v. split; [now apply Hk|].
    apply filter_In. split; [|exact E].
    apply JsMapFacts.In_values. exists k. now apply JsMapFacts.get_In.
  - destruct (existsb (Z.eqb k) (map idOf (filter p (JsMap.values m)))) eqn:Ex;
      [|reflexivity].
    apply existsb_exists in Ex. destruct Ex as [k' [Hin Hkk]].
    apply Z.eqb_eq in Hkk. subst k'.
    apply in_map_iff in Hin. destruct Hin as [v' [Hid Hin]].
    apply filter_In in Hin. destruct Hin as [Hin Hp].
    apply JsMapFacts.In_values in Hin. destruct Hin as [k' Hin].
    apply (JsMapFacts.In_get _ _ _ Hwf) in Hin.
    destruct (Hk k' v' Hin) as [Hid' _].
    assert (k' = k) by congruence. subst k'.
    assert (v' = v) by congruence. subst v'. congruence.
Qed.

Lemma existsb_selected_absent {V : Type} (idOf : V -> Z) (p : V -> bool)
    (m : JsMap.t V) (next : Z) (k : Z) :
  entitiesWf idOf m next -> JsMap.get k m = None ->
  existsb (Z.eqb k) (map idOf (filter p (JsMap.values m))) = false.
Proof.
  intros [Hwf Hk] Hget.
  destruct (existsb (Z.eqb k) (map idOf (filter p (JsMap.values m)))) eqn:Ex;
    [|reflexivity].
  apply existsb_exists in Ex. destruct Ex as [k' [Hin Hkk]].
  apply Z.eqb_eq in Hkk. subst k'.
  apply in_map_iff in Hin. destruct Hin as [v' [Hid Hin]].
  apply filter_In in Hin. destruct Hin as [Hin Hp].
  apply JsMapFacts.In_values in Hin. destruct Hin as [k' Hin].
  apply (JsMapFacts.In_get _ _ _ Hwf) in Hin.
  destruct (Hk k' v' Hin) as [Hid' _]. congruence.
Qed.

(** The messages left by the cascade over a list of conversation ids. *)
Lemma cascade_messages_get (convIds : list Z)
    (cm : JsMap.t Conversation.t * JsMap.t Message.t) (next : Z) (k : Z) :
  entitiesWf Message.id (snd cm) next ->
  JsMap.get k
    (snd (fold_left (fun cm convId => deleteConversationCascade convId cm) convIds cm))
  = match JsMap.get k (snd cm) with
    | Some m =>
        if existsb (Z.eqb (Message.conversationId m)) convIds then None else Some m
    | None => None
    end.
Proof.
  revert cm. induction convIds as [|c r IH]; intros cm Hwf.
  - simpl. now destruct (JsMap.get k (snd cm)).
  - cbn [fold_left]. set (cm1 := deleteConversationCascade c cm).
    assert (Hstep : forall k',
               JsMap.get k' (snd cm1)
               = match JsMap.get k' (snd cm) with
                 | Some m => if Message.conversationId m =? c then None else Some m
                 | None => None
                 end).
    { intros k'. subst cm1. unfold deleteConversationCascade. cbn [snd].
      rewrite (JsMapMore.forEach_collect
                 (fun message => Message.conversationId message =? c) Message.id).
      cbn [app]. rewrite JsMapMore.get_deleteAll by apply Hwf.
      destruct (JsMap.get k' (snd cm)) as [m|] eqn:E.
      - now rewrite (existsb_selected_ids Message.id _ _ next k' m Hwf E).
      - now rewrite (existsb_selected_absent Message.id _ _ next k' Hwf E). }
    assert (Hwf1 : entitiesWf Message.id (snd cm1) next).
    { apply (entitiesWf_sub Message.id (snd cm)); [| |exact Hwf].
      - subst cm1. unfold deleteConversationCascade. cbn [snd].
        apply MemStorageFacts.deleteAll_sub, Hwf.
      - intros k' v H. rewrite Hstep in H.
        destruct (JsMap.get k' (snd cm)) as [m|]; [|discriminate].
        destruct (Message.conversationId m =? c); [discriminate|exact H]. }
    rewrite (IH cm1 Hwf1), Hstep.
    destruct (JsMap.get k (snd cm)) as [m|]; [|reflexivity].
    cbn [existsb]. rewrite (Z.eqb_sym (Message.conversationId m) c).
    destruct (c =? Message.conversationId m); reflexivity.
Qed.

Lemma storeWf_deletePet id s : storeWf s -> storeWf (deletePet id s).
Proof.
  intros [Wu [Wp [Wc Wm]]]. unfold storeWf. simpl.
  split; [exact Wu|].
  set (convIds := JsMap.forEach _ (conversations s) []).
  destruct (MemStorageFacts.cascade_conversations_sub convIds
              (conversations s, messages s) (proj1 Wc)) as [C1 C2].
  destruct (MemStorageFacts.cascade_messages_sub convIds
              (conversations s, messages s) (proj1 Wm)) as [M1 M2].
  split; [|split].
  - apply (entitiesWf_sub Pet.id (pets s)); [|intros k v|exact Wp].
    + apply JsMapFacts.wf_delete, Wp.
    + apply JsMapFacts.get_delete_Some, Wp.
  - now apply (entitiesWf_sub Conversation.id (conversations s)).
  - now apply (entitiesWf_sub Message.id (messages s)).
Qed.

Lemma deletePet_facts id s :
  storeWf s ->
  let s' := deletePet id s in
  getPet id s' = None /\
  (forall k, k <> id -> getPet k s' = getPet k s) /\
  (forall k c,
      getConversation k s' = Some c <->
      getConversation k s = Some c /\ Conversation.petId c <> id) /\
  (forall k m,
      JsMap.get k (messages s') = Some m <->
      JsMap.get k (messages s) = Some m /\
      forall c, getConversation (Message.conversationId m) s = Some c ->
                Conversation.petId c <> id) /\
  users s' = users s.
Proof.
  intros [Wu [Wp [Wc Wm]]] s'. subst s'. unfold deletePet, getPet, getConversation.
  cbn [pets conversations messages users].
  rewrite (JsMapMore.forEach_collect
             (fun conversation => Conversation.petId conversation =? id) Conversation.id).
  cbn [app].
  set (convIds := map Conversation.id
                    (filter (fun conversation => Conversation.petId conversation =? id)
                            (JsMap.values (conversations s)))).
  split; [apply JsMapFacts.get_delete_eq, Wp|].
  split; [intros k Hk; apply JsMapFacts.get_delete_ne; congruence|].
  split; [|split; [|reflexivity]].
  - intros k c. rewrite cascade_fst. cbn [fst].
    rewrite JsMapMore.get_deleteAll by apply Wc.
    destruct (JsMap.get k (conversations s)) as [c0|] eqn:E.
    + subst convIds.
      rewrite (existsb_selected_ids Conversation.id _ _ _ k c0 Wc E).
      destruct (Z.eqb_spec (Conversation.petId c0) id) as [Hp|Hp].
      * split; [discriminate|]. intros [H1 H2]. congruence.
      * split; [intros H; split; congruence|tauto].
    + subst convIds.
      rewrite (existsb_selected_absent Conversation.id _ _ _ k Wc E).
      split; [discriminate|intros [H _]; discriminate].
  - intros k m.
    rewrite (cascade_messages_get convIds (conversations s, messages s) _ k Wm).
    cbn [snd].
    destruct (JsMap.get k (messages s)) as [m0|] eqn:E;
      [|split; [discriminate|intros [H _]; discriminate]].
    destruct (JsMap.get (Message.conversationId m0) (conversations s)) as [c0|] eqn:Ec.
    + subst convIds.
      rewrite (existsb_selected_ids Conversation.id _ _ _ _ c0 Wc Ec).
      destruct (Z.eqb_spec (Conversation.petId c0) id) as [Hp|Hp].
      * split; [discriminate|]. intros [H1 H2]. injection H1 as <-.
        exfalso. now apply (H2 c0).
      * split.
        -- intros H. injection H as <-. split; [reflexivity|].
           intros c Hc. congruence.
        -- intros [H _]. exact H.
    + subst convIds.
      rewrite (existsb_selected_absent Conversation.id _ _ _ _ Wc Ec).
      split.
      * intros H. injection H as <-. split; [reflexivity|].
        intros c Hc. congruence.
      * intros [H _]. exact H.
Qed.

(** X2.  In a store that keeps its entries under their ids, [deletePet]
    removes the pet, every conversation about it and every message of
    such a conversation, and nothing else: the other pets, conversations
    and messages stay as they are, and so do the users; and the store
    still keeps its entries under their ids. *)
Theorem deletePet_cascade id s :
  storeWf s ->
  let s' := deletePet id s in
  storeWf s' /\
  getPet id s' = None /\
  (forall k, k <> id -> getPet k s' = getPet k s) /\
  (forall k c,
      getConversation k s' = Some c <->
      getConversation k s = Some c /\ Conversation.petId c <> id) /\
  (forall k m,
      JsMap.get k (messages s') = Some m <->
      JsMap.get k (messages s) = Some m /\
      forall c, getConversation (Message.conversationId m) s = Some c ->
                Conversation.petId c <> id) /\
  users s' = users s.
Proof.
  intros Hwf s'. split; [|exact (deletePet_facts id s Hwf)].
  now apply storeWf_deletePet.
Qed.

End DeletePet.

(* ================================================================== *)
(** * Creating and fetching messages and conversations *)

Section CreateAndFetch.
Import MemStorage.

Lemma insertByCreatedAt_last (m x : Message.t) (l : list Message.t) :
  Message.createdAt x <= Message.createdAt m ->
  insertByCreatedAt x (l ++ [m]) = insertByCreatedAt x l ++ [m].
Proof.
  intros Hle. induction l as [|h r IH]; simpl.
  - destruct (Z.leb_spec (Message.createdAt x - Message.createdAt m) 0); [reflexivity|lia].
  - destruct (Message.createdAt x - Message.createdAt h <=? 0); [reflexivity|].
    now rewrite IH.
Qed.

Lemma sortByCreatedAt_last (m : Message.t) (l : list Message.t) :
  (forall x, In x l -> Message.createdAt x <= Message.createdAt m) ->
  sortByCreatedAt (l ++ [m]) = sortByCreatedAt l ++ [m].
Proof.
  induction l as [|x r IH]; intros Hall; simpl; [reflexivity|].
  rewrite IH by (intros y Hy; apply Hall; now right).
  apply insertByCreatedAt_last. apply Hall. now left.
Qed.

(** X3.  [createMessage] then [getConversationMessages].  In a store that
    keeps its messages under their ids: the new message gets the next id,
    is unread and carries the clock reading; it is stored under an id
    that was free; the fetch of its conversation returns it together with
    what it returned before, at the end when no message of the
    conversation is newer than it; and the fetch of any other
    conversation is unchanged. *)
Theorem createMessage_then_fetch insertMessage now s :
  messagesWf s ->
  let message := fst (createMessage insertMessage now s) in
  let s' := snd (createMessage insertMessage now s) in
  let cid := InsertMessage.conversationId insertMessage in
  message = Message.mk (currentMessageId s) cid (InsertMessage.senderId insertMessage)
              (InsertMessage.content insertMessage) false now /\
  JsMap.get (Message.id message) (messages s) = None /\
  JsMap.get (Message.id message) (messages s') = Some message /\
  (forall k, k <> Message.id message ->
             JsMap.get k (messages s') = JsMap.get k (messages s)) /\
  Permutation (getConversationMessages cid s')
              (message :: getConversationMessages cid s) /\
  ((forall x, In x (getConversationMessages cid s) ->
              Message.createdAt x <= now) ->
   getConversationMessages cid s' = getConversationMessages cid s ++ [message]) /\
  (forall other, other <> cid ->
                 getConversationMessages other s' = getConversationMessages other s) /\
  currentMessageId s' = currentMessageId s + 1.
Proof.
  intros [Hwf Hk] message s' cid. subst message s' cid.
  cbn [createMessage fst snd withMessages messages currentMessageId Message.id].
  assert (Hfree : JsMap.get (currentMessageId s) (messages s) = None).
  { destruct (JsMap.get (currentMessageId s) (messages s)) as [m|] eqn:E; [|reflexivity].
    apply Hk in E. lia. }
  split; [reflexivity|]. split; [exact Hfree|].
  split; [apply JsMapFacts.get_set_eq|].
  split; [intros k Hne; apply JsMapFacts.get_set_ne; congruence|].
  unfold getConversationMessages. cbn [messages].
  rewrite (JsMapFacts.set_absent _ _ _ Hfree).
  unfold JsMap.values. cbn [withMessages messages]. rewrite map_app. cbn [map snd].
  split; [|split; [|split; [|reflexivity]]].
  - rewrite filter_app. cbn [filter Message.conversationId]. rewrite Z.eqb_refl.
    rewrite sortByCreatedAt_perm. rewrite Permutation_app_comm. simpl.
    constructor. symmetry. apply sortByCreatedAt_perm.
  - intros Hall. rewrite filter_app. cbn [filter Message.conversationId].
    rewrite Z.eqb_refl. apply sortByCreatedAt_last. intros x Hx. cbn [Message.createdAt].
    apply Hall. eapply Permutation_in; [symmetry; apply sortByCreatedAt_perm|exact Hx].
  - intros other Hne. rewrite filter_app. cbn [filter Message.conversationId].
    destruct (Z.eqb_spec (InsertMessage.conversationId insertMessage) other);
      [congruence|]. now rewrite app_nil_r.
Qed.

(** X4.  The messages of one instant come back in the order they were
    stored: the fetch breaks ties of [createdAt] by insertion. *)
Theorem getConversationMessages_ties_by_insertion conversationId0 t s :
  filter (fun m => Message.createdAt m =? t) (getConversationMessages conversationId0 s)
  = filter (fun m => Message.createdAt m =? t)
      (filter (fun m => Message.conversationId m =? conversationId0)
              (JsMap.values (messages s))).
Proof. unfold getConversationMessages. apply sortByCreatedAt_stable. Qed.


(** X6.  [updateConversationLastMessageTime] changes nothing when the id is
    unknown, and otherwise nothing but the [lastMessageAt] of that one
    conversation: its other fields, the other conversations, the order of
    the map, and the users, pets and messages stay as they are. *)
Theorem updateConversationLastMessageTime_frame id now s :
  let s' := updateConversationLastMessageTime id now s in
  (getConversation id s = None -> s' = s) /\
  (forall c,
      getConversation id s = Some c ->
      getConversation id s'
      = Some (Conversation.mk (Conversation.id c) (Conversation.petId c)
                (Conversation.adopterId c) (Conversation.ownerId c)
                (Conversation.title c) now)) /\
  (forall k, k <> id -> getConversation k s' = getConversation k s) /\
  JsMap.keys (conversations s') = JsMap.keys (conversations s) /\
  users s' = users s /\ pets s' = pets s /\ messages s' = messages s /\
  currentConversationId s' = currentConversationId s.
Proof.
  intros s'. subst s'. unfold updateConversationLastMessageTime, getConversation.
  destruct (JsMap.get id (conversations s)) as [c|] eqn:E.
  - cbn [withConversations conversations users pets messages currentConversationId].
    split; [discriminate|].
    split; [intros c' H; injection H as <-; apply JsMapFacts.get_set_eq|].
    split; [intros k Hne; apply JsMapFacts.get_set_ne; congruence|].
    split; [now apply JsMapFacts.keys_set_present with (v0 := c)|].
    repeat split.
  - split; [reflexivity|]. split; [discriminate|]. repeat split.
Qed.

End CreateAndFetch.

(* ================================================================== *)
(** * Marking messages as read, as a pass over the stored messages *)

Section MarkRead.
Import MemStorage.

Lemma JsMap_ext {V : Type} (m1 m2 : JsMap.t V) :
  JsMap.wf m1 -> JsMap.keys m1 = JsMap.keys m2 ->
  (forall k, JsMap.get k m1 = JsMap.get k m2) -> m1 = m2.
Proof.
  unfold JsMap.wf, JsMap.keys. revert m2.
  induction m1 as [|[k1 v1] r1 IH]; intros [|[k2 v2] r2] Hnd Hk Hg;
    simpl in *; try discriminate; [reflexivity|].
  injection Hk as -> Hk. inversion Hnd as [|? ? Hnot Hnd']; subst.
  pose proof (Hg k2) as H2. rewrite Z.eqb_refl in H2. injection H2 as ->.
  f_equal. apply IH; trivial.
  intros k. specialize (Hg k). destruct (Z.eqb_spec k2 k) as [->|Hne]; [|exact Hg].
  transitivity (@None V).
  - apply JsMapFacts.get_None_keys. exact Hnot.
  - symmetry. apply JsMapFacts.get_None_keys. unfold JsMap.keys. now rewrite <- Hk.
Qed.

Lemma markAll_map userId ids msgs :
  JsMap.wf msgs ->
  fold_left (markOne userId) ids msgs
  = map (fun kv => (fst kv, marked (array_includes (fst kv) ids) userId (snd kv))) msgs.
Proof.
  intros Hwf. apply JsMap_ext.
  - unfold JsMap.wf. now rewrite MemStorageFacts.markAll_keys.
  - rewrite MemStorageFacts.markAll_keys. unfold JsMap.keys. rewrite map_map.
    apply map_ext. reflexivity.
  - intros k. rewrite MemStorageFacts.markAll_get.
    now rewrite (JsMapMore.get_map_values
                   (fun k m => marked (array_includes k ids) userId m)).
Qed.

Lemma marked_marked b1 u1 b2 u2 m :
  marked b1 u1 (marked b2 u2 m) = marked b2 u2 (marked b1 u1 m).
Proof.
  unfold marked. destruct m as [i c sd ct r t]; simpl.
  destruct b1, b2, (sd =? u1) eqn:E1, (sd =? u2) eqn:E2; simpl;
    rewrite ?E1, ?E2; reflexivity.
Qed.

Lemma marked_twice b u m : marked b u (marked b u m) = marked b u m.
Proof.
  unfold marked. destruct m as [i c sd ct r t]; simpl.
  destruct b, (sd =? u) eqn:E; simpl; rewrite ?E; reflexivity.
Qed.

Lemma map_ext_keys {V : Type} (f g : Z -> V -> V) (m : JsMap.t V) :
  (forall k v, In (k, v) m -> f k v = g k v) ->
  map (fun kv => (fst kv, f (fst kv) (snd kv))) m
  = map (fun kv => (fst kv, g (fst kv) (snd kv))) m.
Proof.
  intros H. apply map_ext_in. intros [k v] Hin. simpl. f_equal. now apply H.
Qed.

(** X7.  [markMessagesAsRead] reads its list of ids as a set, and only the
    part of it that names stored messages: two lists that hold the same
    stored ids, in whatever order and however often, leave the same
    store. *)
Theorem markMessagesAsRead_ids_as_set ids ids' userId s :
  JsMap.wf (messages s) ->
  (forall k, JsMap.get k (messages s) <> None -> (In k ids <-> In k ids')) ->
  markMessagesAsRead ids userId s = markMessagesAsRead ids' userId s.
Proof.
  intros Hwf Hsame. unfold markMessagesAsRead. f_equal.
  rewrite !markAll_map by exact Hwf.
  apply (map_ext_keys (fun k m => marked (array_includes k ids) userId m)
                      (fun k m => marked (array_includes k ids') userId m)).
  intros k v Hin. f_equal.
  assert (Hhas : JsMap.get k (messages s) <> None).
  { apply JsMapFacts.In_get in Hin; [|exact Hwf]. now rewrite Hin. }
  specialize (Hsame k Hhas). rewrite <- !array_includes_In in Hsame.
  destruct (array_includes k ids), (array_includes k ids'); trivial.
  - symmetry. now apply Hsame.
  - now apply Hsame.
Qed.

(** X8.  Marking is idempotent, marks by two readers commute, and marking
    two lists one after the other is marking their concatenation. *)
Theorem markMessagesAsRead_algebra ids1 u1 ids2 u2 s :
  JsMap.wf (messages s) ->
  markMessagesAsRead ids1 u1 (markMessagesAsRead ids1 u1 s)
  = markMessagesAsRead ids1 u1 s /\
  markMessagesAsRead ids1 u1 (markMessagesAsRead ids2 u2 s)
  = markMessagesAsRead ids2 u2 (markMessagesAsRead ids1 u1 s) /\
  markMessagesAsRead ids2 u1 (markMessagesAsRead ids1 u1 s)
  = markMessagesAsRead (ids1 ++ ids2) u1 s.
Proof.
  intros Hwf.
  assert (Hwf' : forall ids u, JsMap.wf (fold_left (markOne u) ids (messages s))).
  { intros ids u. unfold JsMap.wf. now rewrite MemStorageFacts.markAll_keys. }
  unfold markMessagesAsRead, withMessages. cbn [messages currentMessageId].
  split; [|split].
  - f_equal. rewrite (markAll_map u1 ids1 _ (Hwf' ids1 u1)).
    rewrite (markAll_map u1 ids1 _ Hwf), map_map. apply map_ext.
    intros [k m]. simpl. now rewrite marked_twice.
  - f_equal. rewrite (markAll_map u1 ids1 _ (Hwf' ids2 u2)).
    rewrite (markAll_map u2 ids2 _ (Hwf' ids1 u1)).
    rewrite !(markAll_map _ _ _ Hwf), !map_map. apply map_ext.
    intros [k m]. simpl. now rewrite marked_marked.
  - f_equal. now rewrite fold_left_app.
Qed.

End MarkRead.

(* ================================================================== *)
(** * [array.sort] with a comparator *)

Section ArraySort.
Context {A : Type} (cmp : A -> A -> Z).

Lemma insertBy_perm (x : A) (l : list A) : Permutation (insertBy cmp x l) (x :: l).
Proof.
  induction l as [|h r IH]; simpl; [reflexivity|].
  destruct (cmp x h <=? 0); [reflexivity|].
  rewrite IH. apply perm_swap.
Qed.

Lemma array_sort_perm (l : list A) : Permutation (array_sort cmp l) l.
Proof.
  induction l as [|x r IH]; simpl; [reflexivity|].
  rewrite insertBy_perm. now constructor.
Qed.

Hypothesis cmp_total : forall a b, cmp a b <= 0 \/ cmp b a <= 0.
Hypothesis cmp_trans : forall a b c, cmp a b <= 0 -> cmp b c <= 0 -> cmp a c <= 0.

Lemma insertBy_sorted (x : A) (l : list A) :
  StronglySorted (fun a b => cmp a b <= 0) l ->
  StronglySorted (fun a b => cmp a b <= 0) (insertBy cmp x l).
Proof.
  induction 1 as [|h r Hs IH Hall]; simpl.
  - constructor; constructor.
  - destruct (Z.leb_spec (cmp x h) 0) as [Hle|Hgt].
    + constructor; [now constructor|].
      constructor; [exact Hle|].
      rewrite Forall_forall in *. intros y Hy. eapply cmp_trans; eauto.
    + constructor; [exact IH|].
      rewrite Forall_forall in *. intros y Hy.
      apply (Permutation_in _ (insertBy_perm x r)) in Hy.
      destruct Hy as [<-|Hy]; [|now apply Hall].
      destruct (cmp_total h x); [assumption|lia].
Qed.

Lemma array_sort_sorted (l : list A) :
  StronglySorted (fun a b => cmp a b <= 0) (array_sort cmp l).
Proof.
  induction l as [|x r IH]; simpl; [constructor|now apply insertBy_sorted].
Qed.

Lemma array_sort_head (l : list A) (x : A) :
  hd_error (array_sort cmp l) = Some x ->
  In x l /\ forall y, In y l -> cmp x y <= 0.
Proof.
  intros Hhd. pose proof (array_sort_sorted l) as Hs.
  pose proof (array_sort_perm l) as Hp.
  destruct (array_sort cmp l) as [|h r]; [discriminate|].
  injection Hhd as ->. split.
  - apply (Permutation_in _ Hp). now left.
  - intros y Hy. apply (Permutation_in _ (Permutation_sym Hp)) in Hy.
    inversion Hs as [|? ? _ Hall]; subst. destruct Hy as [<-|Hy].
    + destruct (cmp_total x x); assumption.
    + rewrite Forall_forall in Hall. now apply Hall.
Qed.

End ArraySort.

Lemma StronglySorted_mono {A : Type} (R R' : A -> A -> Prop) (l : list A) :
  (forall a b, R a b -> R' a b) -> StronglySorted R l -> StronglySorted R' l.
Proof.
  intros Himp. induction 1 as [|h r _ IH Hall]; constructor; trivial.
  eapply Forall_impl; [|exact Hall]. intros b. apply Himp.
Qed.

Lemma filter_length_perm {A : Type} (p : A -> bool) (l l' : list A) :
  Permutation l l' -> List.length (filter p l) = List.length (filter p l').
Proof.
  induction 1 as [|x l l' _ IH|x y l|l l' l'' _ IH1 _ IH2]; simpl.
  - reflexivity.
  - destruct (p x); simpl; congruence.
  - destruct (p x), (p y); reflexivity.
  - congruence.
Qed.

(* ================================================================== *)
(** * The inquiries of an owner *)

Section OwnerInquiries.
Import MemStorage MemStorageQueries.

Lemma conversationMessages_perm c s :
  Permutation (conversationMessages c s) (getConversationMessages (Conversation.id c) s).
Proof.
  unfold conversationMessages, getConversationMessages.
  rewrite array_sort_perm. symmetry. apply sortByCreatedAt_perm.
Qed.

(** X9.  [getOwnerInquiries] returns one inquiry for each conversation the
    user owns and for no other, newest [lastMessageDate] first.  The
    inquiry of a conversation counts the messages of the conversation
    that the owner did not send and that are unread; its date is the
    [createdAt] of a message of the conversation that no other message
    of it exceeds, or the conversation's [lastMessageAt] when it has no
    message. *)
Theorem getOwnerInquiries_spec ownerId0 s :
  let owned :=
    filter (fun c => Conversation.ownerId c =? ownerId0)
           (JsMap.values (conversations s)) in
  Permutation (getOwnerInquiries ownerId0 s) (map (inquiryOf ownerId0 s) owned) /\
  Permutation (map Inquiry.conversationId (getOwnerInquiries ownerId0 s))
              (map Conversation.id owned) /\
  StronglySorted (fun a b => Inquiry.lastMessageDate b <= Inquiry.lastMessageDate a)
                 (getOwnerInquiries ownerId0 s) /\
  (forall c, In c owned ->
     let fetched := getConversationMessages (Conversation.id c) s in
     let inquiry := inquiryOf ownerId0 s c in
     Inquiry.unreadCount inquiry = List.length (filter (unreadFor ownerId0) fetched) /\
     (fetched = [] ->
      Inquiry.lastMessageDate inquiry = Conversation.lastMessageAt c /\
      Inquiry.lastMessage inquiry = "No messages yet"%string) /\
     (fetched <> [] ->
      (exists m, In m fetched /\ Inquiry.lastMessageDate inquiry = Message.createdAt m) /\
      forall m, In m fetched -> Message.createdAt m <= Inquiry.lastMessageDate inquiry)).
Proof.
  intros owned. unfold getOwnerInquiries. fold owned.
  split; [apply array_sort_perm|].
  split.
  { rewrite array_sort_perm, map_map. reflexivity. }
  split.
  { eapply StronglySorted_mono;
      [|apply (array_sort_sorted
                 (fun a b => Inquiry.lastMessageDate b - Inquiry.lastMessageDate a));
        intros; lia].
    simpl. intros; lia. }
  intros c _. cbv zeta.
  pose proof (conversationMessages_perm c s) as Hp.
  unfold inquiryOf. cbn [Inquiry.unreadCount Inquiry.lastMessageDate Inquiry.lastMessage].
  split; [apply (filter_length_perm _ _ _ Hp)|].
  split.
  - intros Hnil. rewrite Hnil in Hp. apply Permutation_sym, Permutation_nil in Hp.
    now rewrite Hp.
  - intros Hne.
    destruct (hd_error (conversationMessages c s)) as [m|] eqn:Hhd.
    + apply array_sort_head in Hhd; try (intros; lia).
      destruct Hhd as [Hin Hmax]. split.
      * exists m. split; [|reflexivity].
        unfold getConversationMessages.
        apply (Permutation_in _ (Permutation_sym (sortByCreatedAt_perm _))). exact Hin.
      * intros y Hy. unfold getConversationMessages in Hy.
        apply (Permutation_in _ (sortByCreatedAt_perm _)) in Hy.
        specialize (Hmax y Hy). lia.
    + exfalso. destruct (conversationMessages c s); [|discriminate].
      apply Permutation_nil in Hp. contradiction.
Qed.

End OwnerInquiries.

(* ================================================================== *)
(** * The thread marks what it shows as read *)

Section MarkShown.
Import MemStorage MemStorageQueries.

Lemma insertByCreatedAt_map (f : Message.t -> Message.t) x l :
  (forall m, Message.createdAt (f m) = Message.createdAt m) ->
  insertByCreatedAt (f x) (map f l) = map f (insertByCreatedAt x l).
Proof.
  intros Hf. induction l as [|h r IH]; simpl; [reflexivity|].
  rewrite !Hf. destruct (Message.createdAt x - Message.createdAt h <=? 0); simpl;
    [reflexivity|now rewrite IH].
Qed.

Lemma sortByCreatedAt_map (f : Message.t -> Message.t) l :
  (forall m, Message.createdAt (f m) = Message.createdAt m) ->
  sortByCreatedAt (map f l) = map f (sortByCreatedAt l).
Proof.
  intros Hf. induction l as [|x r IH]; simpl; [reflexivity|].
  now rewrite IH, insertByCreatedAt_map.
Qed.

Lemma filter_map_commute {A : Type} (p : A -> bool) (f : A -> A) (l : list A) :
  (forall x, p (f x) = p x) -> filter p (map f l) = map f (filter p l).
Proof.
  intros Hp. induction l as [|x r IH]; simpl; [reflexivity|].
  rewrite Hp. destruct (p x); simpl; now rewrite IH.
Qed.

Lemma filter_map_none {A : Type} (p : A -> bool) (f : A -> A) (l : list A) :
  (forall x, In x l -> p (f x) = false) -> filter p (map f l) = [].
Proof.
  induction l as [|x r IH]; intros Hall; simpl; [reflexivity|].
  rewrite Hall by now left. apply IH. intros y Hy. apply Hall. now right.
Qed.

Lemma marked_fields b u m :
  Message.id (marked b u m) = Message.id m /\
  Message.conversationId (marked b u m) = Message.conversationId m /\
  Message.senderId (marked b u m) = Message.senderId m /\
  Message.content (marked b u m) = Message.content m /\
  Message.createdAt (marked b u m) = Message.createdAt m.
Proof. unfold marked. destruct (b && _); repeat split. Qed.

(** The fetch after a mark is the fetch before it with the listed
    messages of other senders marked. *)
Lemma getConversationMessages_marked ids userId k s :
  messagesWf s ->
  getConversationMessages k (markMessagesAsRead ids userId s)
  = map (fun m => marked (array_includes (Message.id m) ids) userId m)
        (getConversationMessages k s).
Proof.
  intros [Hwf Hk]. unfold getConversationMessages, markMessagesAsRead, withMessages.
  cbn [messages]. rewrite markAll_map by exact Hwf.
  unfold JsMap.values. rewrite map_map. cbn [snd].
  replace (map (fun x => marked (array_includes (fst x) ids) userId (snd x)) (messages s))
    with (map (fun m => marked (array_includes (Message.id m) ids) userId m)
              (map snd (messages s))).
  - rewrite filter_map_commute by (intros x; now rewrite (proj1 (proj2 (marked_fields _ _ x)))).
    apply sortByCreatedAt_map. intros m. apply marked_fields.
  - rewrite map_map. apply map_ext_in. intros [k0 m] Hin. simpl.
    apply JsMapFacts.In_get in Hin; [|exact Hwf]. apply Hk in Hin. now rewrite (proj1 Hin).
Qed.

Lemma fetched_by_id s m m' :
  messagesWf s ->
  In m (JsMap.values (messages s)) -> In m' (JsMap.values (messages s)) ->
  Message.id m = Message.id m' -> m = m'.
Proof.
  intros [Hwf Hk] H H' E.
  apply JsMapFacts.In_values in H, H'. destruct H as [i H], H' as [i' H'].
  apply JsMapFacts.In_get in H, H'; trivial.
  pose proof (proj1 (Hk _ _ H)). pose proof (proj1 (Hk _ _ H')).
  assert (i = i') by congruence. subst i'. congruence.
Qed.

Lemma fetched_In k s m :
  In m (getConversationMessages k s) <->
  In m (JsMap.values (messages s)) /\ Message.conversationId m = k.
Proof.
  unfold getConversationMessages. split.
  - intros H. apply (Permutation_in _ (sortByCreatedAt_perm _)) in H.
    apply filter_In in H. now rewrite Z.eqb_eq in H.
  - intros [H E]. apply (Permutation_in _ (Permutation_sym (sortByCreatedAt_perm _))).
    apply filter_In. now rewrite Z.eqb_eq.
Qed.

(** X10.  The thread's effect and the store.  When the thread shows the
    messages of a conversation as the store has them and its effect
    sends a request for the unread ones, then after
    [markMessagesAsRead] has served that request with the thread's user:
    the fetch of the conversation holds no message unread for the user,
    the effect run on it sends nothing, the inquiry of the conversation
    counts no unread message for the user, the messages the user sent
    are as before, and the fetch of every other conversation is as
    before. *)
Theorem markShownAsRead_settles conversation currentUserId cid ids s :
  messagesWf s ->
  markShownAsRead conversation
    (getConversationMessages (Conversation.id conversation) s) currentUserId
  = [MessageThread.PatchRead cid ids] ->
  let s' := markMessagesAsRead ids currentUserId s in
  let fetched' := getConversationMessages (Conversation.id conversation) s' in
  cid = Conversation.id conversation /\
  ids <> [] /\
  filter (unreadFor currentUserId) fetched' = [] /\
  markShownAsRead conversation fetched' currentUserId = [] /\
  Inquiry.unreadCount (inquiryOf currentUserId s' conversation) = 0%nat /\
  (forall m, In m (getConversationMessages (Conversation.id conversation) s) ->
             Message.senderId m = currentUserId -> In m fetched') /\
  (forall other, other <> Conversation.id conversation ->
                 getConversationMessages other s' = getConversationMessages other s).
Proof.
  intros Hwf Heff s' fetched'. subst s' fetched'.
  unfold markShownAsRead in Heff.
  set (fetched := getConversationMessages (Conversation.id conversation) s) in *.
  fold (unreadFor currentUserId) in Heff.
  destruct (0 <? Z.of_nat (List.length fetched)); [|discriminate].
  cbv zeta in Heff.
  destruct (0 <? Z.of_nat (List.length (filter (unreadFor currentUserId) fetched))) eqn:Hlen;
    [|discriminate].
  injection Heff as <- <-.
  set (ids := map Message.id (filter (unreadFor currentUserId) fetched)).
  assert (Hnone : filter (unreadFor currentUserId)
                    (getConversationMessages (Conversation.id conversation)
                       (markMessagesAsRead ids currentUserId s)) = []).
  { rewrite getConversationMessages_marked by exact Hwf. fold fetched.
    assert (Hall : forall m, In m fetched ->
              unreadFor currentUserId
                (marked (array_includes (Message.id m) ids) currentUserId m) = false).
    { intros m Hin. destruct (unreadFor currentUserId m) eqn:Hu.
      - assert (Hl : array_includes (Message.id m) ids = true).
        { apply array_includes_In. subst ids. apply in_map. apply filter_In. now split. }
        rewrite Hl. unfold unreadFor in Hu. apply andb_prop in Hu. destruct Hu as [_ Hs].
        unfold marked. rewrite Hs. reflexivity.
      - unfold marked.
        destruct (array_includes (Message.id m) ids &&
                  negb (Message.senderId m =? currentUserId)); [reflexivity|exact Hu]. }
    now apply filter_map_none. }
  split; [reflexivity|]. split.
  { subst ids. destruct (filter (unreadFor currentUserId) fetched); [discriminate|].
    discriminate. }
  split; [exact Hnone|]. split.
  { unfold markShownAsRead. fold (unreadFor currentUserId). rewrite Hnone.
    now destruct (0 <? Z.of_nat (List.length (getConversationMessages _ _))). }
  split.
  { unfold inquiryOf. cbn [Inquiry.unreadCount]. fold (unreadFor currentUserId).
    rewrite (filter_length_perm _ _ _ (conversationMessages_perm conversation _)).
    now rewrite Hnone. }
  split.
  { intros m Hin Hs. rewrite getConversationMessages_marked by exact Hwf. fold fetched.
    apply in_map_iff. exists m. split; [|exact Hin].
    unfold marked. apply Z.eqb_eq in Hs. rewrite Hs. simpl. now rewrite andb_false_r. }
  intros other Hne. rewrite getConversationMessages_marked by exact Hwf.
  rewrite <- (map_id (getConversationMessages other s)) at 2.
  apply map_ext_in. intros m Hin.
  assert (Hl : array_includes (Message.id m) ids = false).
  { destruct (array_includes (Message.id m) ids) eqn:E; [|reflexivity].
    apply array_includes_In in E. subst ids. apply in_map_iff in E.
    destruct E as [m' [Eid Hin']]. apply filter_In in Hin'. destruct Hin' as [Hin' _].
    subst fetched. apply fetched_In in Hin, Hin'.
    destruct Hin as [Hin Hc], Hin' as [Hin' Hc'].
    assert (m' = m) by (eapply fetched_by_id; eauto). subst m'. congruence. }
  unfold marked. now rewrite Hl.
Qed.

End MarkShown.

(* ================================================================== *)
(** * The handlers that read, mark and delete, over [MemStorage] *)

Section MemRoutesFacts.
Context {JsonValue : Type}.
Import MemStorage.

Implicit Types (srv : Server MemStorage.t JsonValue).

Lemma notParticipant_false u a o :
  notParticipant u a o = false <-> u = a \/ u = o.
Proof.
  unfold notParticipant.
  destruct (Z.eqb_spec u a), (Z.eqb_spec u o); simpl; split; intros H;
    try discriminate; try reflexivity; auto; destruct H; contradiction.
Qed.

Lemma withStore_same srv : withStore srv (store (backend srv)) = srv.
Proof. destruct srv as [[s c d f n w] cs rs p o]. reflexivity. Qed.

(** X11.  [GET /api/messages/:conversationId] answers with messages exactly
    when the request is authenticated, the path names a stored
    conversation and the user is its adopter or its owner; the messages
    are then those of that conversation as the store fetches them.  Every
    other answer is 401, 404 or 403, and no request changes the
    server. *)
Theorem getMessages_only_participants user conversationId0 srv :
  let r := getMessages user conversationId0 srv in
  let s := store (backend srv) in
  snd r = srv /\
  (forall l,
      fst r = MessagesOk l <->
      exists u k c,
        user = Some u /\ conversationId0 = Num k /\
        getConversation k s = Some c /\
        (u = Conversation.adopterId c \/ u = Conversation.ownerId c) /\
        l = getConversationMessages k s) /\
  (forall code message0,
      fst r = MessagesError code message0 -> code = 401 \/ code = 404 \/ code = 403).
Proof.
  intros r s. subst r s. destruct srv as [[s c d f n w] cs rs p o].
  unfold getMessages, getConversation.
  destruct user as [u|]; cbn.
  2:{ split; [reflexivity|]. split.
      - intros l. split; [discriminate|]. intros (u & k & c0 & H & _). discriminate.
      - intros code m H. injection H as <- _. auto. }
  unfold attempt, awaitConversation, bind, await, onStore, ret; cbn.
  destruct conversationId0 as [|k]; cbn.
  { split; [reflexivity|]. split.
    - intros l. split; [discriminate|]. intros (u' & k & c0 & _ & H & _). discriminate.
    - intros code m H. injection H as <- _. auto. }
  destruct (JsMap.get k (conversations s)) as [conv|] eqn:E; cbn.
  2:{ split; [reflexivity|]. split.
      - intros l. split; [discriminate|].
        intros (u' & k' & c0 & _ & H & H' & _). injection H as <-. congruence.
      - intros code m H. injection H as <- _. auto. }
  destruct (notParticipant u (Conversation.adopterId conv) (Conversation.ownerId conv))
    eqn:Hp; cbn.
  - split; [reflexivity|]. split.
    + intros l. split; [discriminate|].
      intros (u' & k' & c0 & Hu & H & H' & Hor & _).
      injection H as <-. injection Hu as <-.
      assert (c0 = conv) by congruence. subst c0.
      apply notParticipant_false in Hor. congruence.
    + intros code m H. injection H as <- _. auto.
  - split; [reflexivity|]. split.
    + intros l. split.
      * intros H. injection H as <-. exists u, k, conv.
        repeat split; trivial. now apply notParticipant_false.
      * intros (u' & k' & c0 & Hu & H & H' & Hor & ->).
        injection H as <-. reflexivity.
    + intros code m H. discriminate.
Qed.

(** X12.  [PATCH /api/messages/:conversationId/read] answers 204 exactly
    when the request is authenticated, lists at least one id, the path
    names a stored conversation and the user is its adopter or its
    owner.  Then the store is the one [markMessagesAsRead] leaves for
    the listed ids and the user, and one [message_read] event with the
    ids and the user is published to the conversation of the path.  Any
    other answer is 401, 400, 404 or 403 and leaves the server as it
    was. *)
Theorem patchMessagesRead_cases user conversationId0 messageIds srv :
  let r := patchMessagesRead user conversationId0 messageIds srv in
  let s := store (backend srv) in
  (status (fst r) = 204 <->
   exists u ids c,
     user = Some u /\ messageIds = Some ids /\ ids <> [] /\
     getAt conversationId0 (conversations s) = Some c /\
     (u = Conversation.adopterId c \/ u = Conversation.ownerId c)) /\
  (forall u ids,
      status (fst r) = 204 -> user = Some u -> messageIds = Some ids ->
      fst r = json 204 EmptyBody /\
      snd r = broadcast conversationId0 (message_read ids u) None
                (withStore srv (markMessagesAsRead ids u s))) /\
  (status (fst r) <> 204 ->
   snd r = srv /\
   (status (fst r) = 401 \/ status (fst r) = 400 \/
    status (fst r) = 404 \/ status (fst r) = 403)).
Proof.
  intros r s. subst r s. destruct srv as [[s c d f n w] cs rs p o].
  unfold patchMessagesRead.
  destruct user as [u|]; cbn.
  2:{ split; [|split].
      - split; [discriminate|]. intros (u & k & c0 & H & _). discriminate.
      - discriminate.
      - intros _. auto. }
  destruct messageIds as [[|i ids]|]; cbn.
  { split; [|split].
    - split; [discriminate|]. intros (u' & k & c0 & _ & H & Hne & _).
      injection H as <-. contradiction.
    - discriminate.
    - intros _. auto. }
  2:{ split; [|split].
      - split; [discriminate|]. intros (u' & k & c0 & _ & H & _). discriminate.
      - discriminate.
      - intros _. auto. }
  unfold tryCatch, awaitConversation, bind, await, onStore, ret; cbn.
  destruct (getAt conversationId0 (conversations s)) as [conv|] eqn:E; cbn.
  2:{ split; [|split].
      - split; [discriminate|]. intros (u' & k & c0 & _ & _ & _ & H & _). discriminate.
      - discriminate.
      - intros _. auto. }
  destruct (notParticipant u (Conversation.adopterId conv) (Conversation.ownerId conv))
    eqn:Hp; cbn.
  - split; [|split].
    + split; [discriminate|]. intros (u' & k & c0 & Hu & _ & _ & H & Hor).
      injection Hu as <-. injection H as <-.
      apply notParticipant_false in Hor. congruence.
    + discriminate.
    + intros _. auto.
  - split; [|split].
    + split; [|reflexivity]. intros _. exists u, (i :: ids), conv.
      repeat split; trivial; [discriminate|]. now apply notParticipant_false.
    + intros u' ids' _ Hu Hi. injection Hu as <-. injection Hi as <-.
      split; reflexivity.
    + intros H. exfalso. now apply H.
Qed.

(** X13.  The handler does not look at the conversation of the messages it
    marks.  A participant of any stored conversation who names that
    conversation in the path can mark any stored message somebody else
    sent, whatever conversation the message is in. *)
Theorem patchMessagesRead_marks_across_conversations
    u k c id message srv :
  let s := store (backend srv) in
  getConversation k s = Some c ->
  u = Conversation.adopterId c \/ u = Conversation.ownerId c ->
  JsMap.get id (messages s) = Some message ->
  Message.senderId message <> u ->
  let r := patchMessagesRead (Some u) (Num k) (Some [id]) srv in
  status (fst r) = 204 /\
  JsMap.get id (messages (store (backend (snd r)))) = Some (Message.markRead message).
Proof.
  intros s Hc Hor Hm Hs r. subst s r.
  destruct srv as [[s ck d f n w] cs rs p o].
  cbn [backend store] in *. unfold getConversation in Hc.
  unfold patchMessagesRead, tryCatch, awaitConversation, bind, await, onStore, ret.
  cbn. rewrite Hc. cbn.
  apply notParticipant_false in Hor. rewrite Hor. cbn.
  split; [reflexivity|].
  unfold markOne. rewrite Hm.
  destruct (Z.eqb_spec (Message.senderId message) u); [contradiction|].
  cbn. apply JsMapFacts.get_set_eq.
Qed.

(** X14.  [DELETE /api/pets/:id] deletes only for the owner.  The answer is
    204 exactly when the request is authenticated, the path names a
    stored pet and the user is its owner; the store is then the one
    [deletePet] leaves, nothing is published and nothing is sent.  Any
    other answer is 401, 404 or 403 and leaves the server as it was. *)
Theorem deletePets_only_owner user petId srv :
  let r := deletePets user petId srv in
  let s := store (backend srv) in
  (status (fst r) = 204 <->
   exists u id pet,
     user = Some u /\ petId = Num id /\ getPet id s = Some pet /\ Pet.ownerId pet = u) /\
  (forall id, status (fst r) = 204 -> petId = Num id ->
              snd r = withStore srv (deletePet id s)) /\
  (status (fst r) <> 204 ->
   snd r = srv /\
   (status (fst r) = 401 \/ status (fst r) = 404 \/ status (fst r) = 403)).
Proof.
  intros r s. subst r s. destruct srv as [[s c d f n w] cs rs p o].
  unfold deletePets, getPet.
  destruct user as [u|]; cbn.
  2:{ split; [|split].
      - split; [discriminate|]. intros (u & k & c0 & H & _). discriminate.
      - discriminate.
      - intros _. auto. }
  unfold tryCatch, bind, await, onStore, ret; cbn.
  destruct petId as [|id]; cbn.
  { split; [|split].
    - split; [discriminate|]. intros (u' & k & c0 & _ & H & _). discriminate.
    - discriminate.
    - intros _. auto. }
  destruct (JsMap.get id (pets s)) as [pet|] eqn:E; cbn.
  2:{ split; [|split].
      - split; [discriminate|]. intros (u' & k & c0 & _ & H & H' & _).
        injection H as <-. congruence.
      - discriminate.
      - intros _. auto. }
  destruct (Z.eqb_spec (Pet.ownerId pet) u) as [Ho|Ho]; cbn.
  - split; [|split].
    + split; [|reflexivity]. intros _. exists u, id, pet. repeat split; trivial.
    + intros id' _ H. injection H as <-. reflexivity.
    + intros H. exfalso. now apply H.
  - split; [|split].
    + split; [discriminate|]. intros (u' & k & c0 & Hu & H & H' & Hown).
      injection Hu as <-. injection H as <-. congruence.
    + discriminate.
    + intros _. auto.
Qed.

End MemRoutesFacts.

(* ================================================================== *)
(** * The life of a connection and the publications it gets *)

Section ConnectionLife.
Context {St JsonValue : Type} (parseInt : JsonValue -> jsnum).

Implicit Types (srv : Server St JsonValue).

Lemma reaches_iff srv cid message excludeClient ws :
  JsMap.wf (connections srv) ->
  reaches srv cid message excludeClient ws <->
  exists info, JsMap.get ws (connections srv) = Some info /\
               selected (readyState srv) cid excludeClient (ws, info) = true.
Proof.
  intros Hwf. unfold reaches. rewrite broadcastToConversation_filter, in_map_iff. split.
  - intros [[k info] [E Hin]]. simpl in E. injection E as ->.
    apply filter_In in Hin. destruct Hin as [Hin Hsel].
    exists info. split; [now apply JsMapFacts.In_get|exact Hsel].
  - intros [info [Hget Hsel]]. exists (ws, info). split; [reflexivity|].
    apply filter_In. split; [now apply JsMapFacts.get_In|exact Hsel].
Qed.

Lemma readyState_onMessage srv ws frame :
  readyState (onMessage parseInt ws frame srv) = readyState srv.
Proof. destruct frame; reflexivity. Qed.

(** X15.  From connection to close.  A connection that has just been
    accepted gets no publication, whatever it was bound to before under
    the same socket; after an [auth] frame it gets exactly the
    publications to the conversation number [parseInt] reads in the
    frame, while its socket is in the state [OPEN] and it is not the
    excluded client, and none at all when [parseInt] reads no number
    there; after the close it gets none.  None of the three events
    changes what another connection gets, and whatever the frame, a
    connection whose socket is connecting, closing or closed gets
    nothing. *)
Theorem connection_lifecycle srv ws :
  JsMap.wf (connections srv) ->
  (forall cid message ex,
      ~ reaches (onConnection ws srv) cid message ex ws) /\
  (forall userId0 conversationId0 cid message ex,
      reaches (onMessage parseInt ws (AuthFrame userId0 conversationId0) srv)
              cid message ex ws <->
      readyState srv ws = OPEN /\ ex <> Some ws /\
      exists k, parseInt conversationId0 = Num k /\ cid = Num k) /\
  (forall cid message ex,
      ~ reaches (onClose ws srv) cid message ex ws) /\
  (forall other frame cid message ex,
      other <> ws ->
      (reaches (onConnection ws srv) cid message ex other <->
       reaches srv cid message ex other) /\
      (reaches (onMessage parseInt ws frame srv) cid message ex other <->
       reaches srv cid message ex other) /\
      (reaches (onClose ws srv) cid message ex other <->
       reaches srv cid message ex other)) /\
  (forall socket frame cid message ex,
      readyState srv socket = CONNECTING \/
      readyState srv socket = CLOSING \/
      readyState srv socket = CLOSED ->
      ~ reaches (onMessage parseInt ws frame srv) cid message ex socket).
Proof.
  intros Hwf.
  assert (Hset : forall info, JsMap.wf (JsMap.set ws info (connections srv)))
    by (intros; now apply JsMapFacts.wf_set).
  assert (Hdel : JsMap.wf (JsMap.delete ws (connections srv)))
    by now apply JsMapFacts.wf_delete.
  split; [|split; [|split; [|split]]].
  - intros cid message ex H. apply reaches_iff in H; [|apply Hset].
    destruct H as [info [Hget Hsel]]. cbn in Hget.
    rewrite JsMapFacts.get_set_eq in Hget. injection Hget as <-.
    unfold selected in Hsel. cbn in Hsel. now rewrite andb_false_r in Hsel.
  - intros userId0 conversationId0 cid message ex.
    rewrite reaches_iff by apply Hset. cbn. split.
    + intros [info [Hget Hsel]]. rewrite JsMapFacts.get_set_eq in Hget.
      injection Hget as <-. unfold selected in Hsel. cbn in Hsel.
      apply andb_true_iff in Hsel. destruct Hsel as [Hsel Hnot].
      apply andb_true_iff in Hsel. destruct Hsel as [Hopen Heq].
      split; [now apply isOpen_OPEN|]. split; [now apply isNot_true|].
      destruct (parseInt conversationId0) as [|k], cid as [|k']; try discriminate.
      apply Z.eqb_eq in Heq. subst. now exists k'.
    + intros (Hopen & Hex & k & Hk & ->). eexists. split; [apply JsMapFacts.get_set_eq|].
      unfold selected. cbn. apply isOpen_OPEN in Hopen. rewrite Hopen, Hk. cbn.
      rewrite Z.eqb_refl. cbn.
      now apply isNot_true.
  - intros cid message ex H. apply reaches_iff in H; [|exact Hdel].
    destruct H as [info [Hget _]]. cbn in Hget.
    rewrite JsMapFacts.get_delete_eq in Hget by exact Hwf. discriminate.
  - intros other frame cid message ex Hne.
    rewrite !reaches_iff by (destruct frame; cbn; trivial). split; [|split].
    + cbn. rewrite JsMapFacts.get_set_ne by congruence. reflexivity.
    + destruct frame; cbn; try reflexivity.
      rewrite JsMapFacts.get_set_ne by congruence. reflexivity.
    + cbn. rewrite JsMapFacts.get_delete_ne by congruence. reflexivity.
  - intros socket frame cid message ex Hstate H.
    apply reaches_iff in H; [|destruct frame; cbn; trivial].
    destruct H as [info [_ Hsel]]. rewrite readyState_onMessage in Hsel.
    unfold selected in Hsel. cbn [fst snd] in Hsel.
    apply andb_true_iff in Hsel. destruct Hsel as [Hsel _].
    apply andb_true_iff in Hsel. destruct Hsel as [Hopen _].
    apply isOpen_OPEN in Hopen. rewrite Hopen in Hstate.
    destruct Hstate as [E|[E|E]]; discriminate.
Qed.

End ConnectionLife.

(* ================================================================== *)
(** * More facts about [JsObject] *)

Module JsObjectMore.
Import JsObject.

Section Facts.
Context {V : Type}.
Implicit Types (o : JsObject.t V) (k : Z) (v : V).

Lemma get_replace_eq o k v v0 : get k o = Some v0 -> get k (replace k v o) = Some v.
Proof.
  induction o as [|[k0 v1] r IH]; simpl; [discriminate|].
  destruct (Z.eqb_spec k0 k) as [->|Hne]; simpl.
  - now rewrite Z.eqb_refl.
  - destruct (Z.eqb_spec k0 k); [contradiction|exact IH].
Qed.

Lemma get_addIndex_eq o k v : get k o = None -> get k (addIndex k v o) = Some v.
Proof.
  induction o as [|[k0 v1] r IH]; simpl.
  - now rewrite Z.eqb_refl.
  - destruct (Z.eqb_spec k0 k) as [->|Hne]; [discriminate|]. intros H.
    destruct (isIndex k0 && (k0 <? k)); simpl.
    + destruct (Z.eqb_spec k0 k); [contradiction|now apply IH].
    + now rewrite Z.eqb_refl.
Qed.

Lemma get_app_eq o k v : get k o = None -> get k (o ++ [(k, v)]) = Some v.
Proof.
  induction o as [|[k0 v1] r IH]; simpl.
  - now rewrite Z.eqb_refl.
  - destruct (Z.eqb_spec k0 k); [discriminate|exact IH].
Qed.

Lemma obj_get_set_eq o k v : get k (set k v o) = Some v.
Proof.
  unfold set, has. destruct (get k o) as [v0|] eqn:E.
  - now apply get_replace_eq with (v0 := v0).
  - destruct (isIndex k); [now apply get_addIndex_eq|now apply get_app_eq].
Qed.

Lemma obj_get_delete_eq o k : wf o -> get k (delete k o) = None.
Proof.
  unfold wf. induction o as [|[k0 v1] r IH]; simpl; [reflexivity|].
  intros Hnd. inversion Hnd as [|? ? Hnot Hnd']; subst.
  destruct (Z.eqb_spec k0 k) as [->|Hne]; simpl.
  - now apply JsObjectFacts.obj_get_None_keys.
  - destruct (Z.eqb_spec k0 k); [contradiction|now apply IH].
Qed.

Lemma obj_get_delete_ne o k k' : k <> k' -> get k' (delete k o) = get k' o.
Proof.
  intros Hne. induction o as [|[k0 v1] r IH]; simpl; [reflexivity|].
  destruct (Z.eqb_spec k0 k) as [->|Hne0]; simpl.
  - destruct (Z.eqb_spec k k'); [contradiction|reflexivity].
  - now rewrite IH.
Qed.

End Facts.

End JsObjectMore.

(* ================================================================== *)
(** * The typing map of the socket hook, one entry at a time *)

Section TypingEntries.
Import ChatSocket.

Context {Value Key : Type} {propertyKey : PropertyKey Key} {js : Js Value Key}.
Variable opts : Options Value.
Implicit Types (prev es typingUsers : PlainObject.t Key (TypingState Value)).

(** X16.  One typing episode, at a hook whose own id nothing else is
    strictly equal to.  A [typing] frame with another [userId] [u],
    received at [t0], puts an entry for [u] with the timestamp [t0] under
    the key of [u], whatever entry was there, and leaves the other
    entries alone.  When every key of the map is the key of its number,
    a sweep at [now] then keeps the entry when [now - t0] is at most 3000
    and takes it out otherwise; a [stop_typing] frame with the [userId]
    [u] takes it out at once. *)
Theorem typing_entry_lifetime u t0 typingUsers :
  PlainObject.wf typingUsers ->
  (forall v, strictEquals v (opt_userId opts) = true -> v = opt_userId opts) ->
  u <> opt_userId opts ->
  let k := toPropertyKey u in
  let shown := fst (onmessage opts t0 (typing (Some u)) typingUsers) in
  PlainObject.wf shown /\
  PlainObject.get k shown = Some (mkTypingState u t0) /\
  (forall k', k' <> k -> PlainObject.get k' shown = PlainObject.get k' typingUsers) /\
  (forall now,
      (forall id, In id (PlainObject.keys shown) -> toPropertyKey (toNumber id) = id) ->
      PlainObject.get k (fst (sweep opts now shown))
      = if 3000 <? now - t0 then None else Some (mkTypingState u t0)) /\
  (forall t1,
      PlainObject.get k (fst (onmessage opts t1 (stop_typing (Some u)) shown)) = None /\
      forall k', k' <> k ->
        PlainObject.get k' (fst (onmessage opts t1 (stop_typing (Some u)) shown))
        = PlainObject.get k' typingUsers).
Proof.
  intros Hwf Hown Hne k shown. subst k shown. cbn [onmessage].
  destruct (strictEquals u (opt_userId opts)) eqn:E;
    [exfalso; now apply Hne, Hown|]. cbn [negb fst].
  assert (Hwf' : PlainObject.wf
                   (PlainObject.set (toPropertyKey u) (mkTypingState u t0) typingUsers))
    by now apply PlainObjectFacts.plain_wf_set.
  split; [exact Hwf'|].
  split; [apply PlainObjectFacts.plain_get_set_eq|].
  split; [intros k Hk; apply PlainObjectFacts.plain_get_set_ne; congruence|].
  split.
  - intros now Hkeys. rewrite (sweep_numberKeys opts now _ Hwf' Hkeys). cbn [fst].
    rewrite PlainObjectFacts.plain_get_filter by exact Hwf'.
    rewrite PlainObjectFacts.plain_get_set_eq.
    unfold freshEntry, expired. cbn. now destruct (3000 <? now - t0).
  - intros t1. split.
    + rewrite PlainObjectFacts.plain_get_delete by exact Hwf'.
      now destruct (sameKey (toPropertyKey u) (toPropertyKey u)).
    + intros k Hk. rewrite PlainObjectFacts.plain_get_delete by exact Hwf'.
      destruct (sameKey k (toPropertyKey u)); [contradiction|].
      apply PlainObjectFacts.plain_get_set_ne; congruence.
Qed.

Lemma filter_fresh_all now es :
  existsb (staleEntry now) es = false -> filter (freshEntry now) es = es.
Proof.
  induction es as [|e es IH]; simpl; [reflexivity|].
  unfold staleEntry at 1, freshEntry at 1. destruct (expired now (snd e)); simpl; [discriminate|].
  intros H. now rewrite IH.
Qed.

Lemma filter_filter_fresh now1 now2 es :
  now1 <= now2 ->
  filter (freshEntry now2) (filter (freshEntry now1) es) = filter (freshEntry now2) es.
Proof.
  intros Hle. induction es as [|[k ts] es IH]; [reflexivity|].
  cbn [filter].
  change (freshEntry now1 (k, ts)) with (negb (3000 <? now1 - timestamp ts)).
  change (freshEntry now2 (k, ts)) with (negb (3000 <? now2 - timestamp ts)).
  destruct (Z.ltb_spec 3000 (now1 - timestamp ts)) as [H1|H1]; cbn [negb].
  - destruct (Z.ltb_spec 3000 (now2 - timestamp ts)) as [H2|H2]; cbn [negb];
      [exact IH|lia].
  - cbn [filter].
    change (freshEntry now2 (k, ts)) with (negb (3000 <? now2 - timestamp ts)).
    destruct (3000 <? now2 - timestamp ts); cbn [negb]; now rewrite IH.
Qed.

Lemma filter_stale_fresh now1 now2 es :
  now2 <= now1 ->
  filter (staleEntry now2) (filter (freshEntry now1) es) = [].
Proof.
  intros Hle. induction es as [|[k ts] es IH]; [reflexivity|].
  cbn [filter].
  change (freshEntry now1 (k, ts)) with (negb (3000 <? now1 - timestamp ts)).
  destruct (Z.ltb_spec 3000 (now1 - timestamp ts)) as [H1|H1]; cbn [negb]; [exact IH|].
  cbn [filter].
  change (staleEntry now2 (k, ts)) with (3000 <? now2 - timestamp ts).
  destruct (Z.ltb_spec 3000 (now2 - timestamp ts)) as [H2|H2]; [lia|exact IH].
Qed.

(** X17.  Sweeps compose.  A sweep that finds nothing expired returns the
    very map it was given and calls nothing.  When every key of the map
    is the key of its number, a second sweep at a clock reading no later
    than the first changes nothing and calls nothing, and a sweep after
    an earlier sweep leaves the map that the later sweep alone would have
    left. *)
Theorem sweep_compose now1 now2 prev :
  PlainObject.wf prev ->
  ((forall id typingState,
       PlainObject.get id prev = Some typingState ->
       now1 - timestamp typingState <= 3000) ->
   sweep opts now1 prev = (prev, [])) /\
  ((forall id, In id (PlainObject.keys prev) -> toPropertyKey (toNumber id) = id) ->
   (now2 <= now1 ->
    sweep opts now2 (fst (sweep opts now1 prev)) = (fst (sweep opts now1 prev), [])) /\
   (now1 <= now2 ->
    fst (sweep opts now2 (fst (sweep opts now1 prev))) = fst (sweep opts now2 prev))).
Proof.
  intros Hwf. split.
  - intros Hall.
    assert (Hnone : existsb (staleEntry now1) prev = false).
    { apply not_true_is_false. intros H. apply existsb_exists in H.
      destruct H as [[k ts] [Hin Hst]]. unfold staleEntry, expired in Hst. cbn in Hst.
      apply Z.ltb_lt in Hst. apply PlainObjectFacts.plain_In_get in Hin; [|exact Hwf].
      apply Hall in Hin. lia. }
    rewrite sweep_spec by exact Hwf. f_equal.
    + apply PlainObjectFacts.filter_all_true. intros e _.
      now rewrite (sweptAway_none now1 prev (fst e) Hnone).
    + clear -Hnone. induction prev as [|e es IH]; simpl in *; [reflexivity|].
      apply orb_false_iff in Hnone. destruct Hnone as [H1 H2].
      rewrite H1. now apply IH.
  - intros Hkeys.
    assert (Hwf' : PlainObject.wf (filter (freshEntry now1) prev))
      by now apply PlainObjectFacts.plain_wf_filter.
    assert (Hkeys' : forall id, In id (PlainObject.keys (filter (freshEntry now1) prev)) ->
                                toPropertyKey (toNumber id) = id).
    { intros id Hid. apply Hkeys. now apply PlainObjectFacts.plain_In_keys_filter in Hid. }
    rewrite !(sweep_numberKeys opts _ prev Hwf Hkeys). cbn [fst].
    rewrite !(sweep_numberKeys opts _ _ Hwf' Hkeys'). cbn [fst].
    split.
    + intros Hle. rewrite (filter_stale_fresh now1 now2 prev Hle). cbn [flat_map].
      rewrite filter_fresh_all; [reflexivity|].
      apply not_true_is_false. intros H. apply existsb_exists in H.
      destruct H as [e [Hin Hst]].
      assert (Hin' : In e (filter (staleEntry now2) (filter (freshEntry now1) prev)))
        by (apply filter_In; now split).
      now rewrite (filter_stale_fresh now1 now2 prev Hle) in Hin'.
    + intros Hle. now apply filter_filter_fresh.
Qed.

End TypingEntries.

(* ================================================================== *)
(** * The pages of a search *)

Lemma firstn_plus {A : Type} (a b : nat) (l : list A) :
  firstn (a + b) l = firstn a l ++ firstn b (skipn a l).
Proof.
  revert l. induction a as [|a IH]; intros l; [reflexivity|].
  destruct l as [|x r]; simpl.
  - now rewrite firstn_nil.
  - now rewrite IH.
Qed.

Lemma array_slice_nonneg {A : Type} (a b : Z) (l : list A) :
  0 <= a <= b ->
  array_slice a b l = firstn (Z.to_nat (b - a)) (skipn (Z.to_nat a) l).
Proof.
  intros Hab. unfold array_slice, sliceIndex.
  destruct (Z.ltb_spec a 0); [lia|]. destruct (Z.ltb_spec b 0); [lia|].
  set (len := Z.of_nat (List.length l)).
  destruct (Z.le_gt_cases a len) as [Ha|Ha].
  - rewrite (Z.min_l a len) by lia.
    destruct (Z.le_gt_cases b len) as [Hb|Hb].
    + now rewrite (Z.min_l b len) by lia.
    + rewrite (Z.min_r b len) by lia.
      rewrite !firstn_all2; trivial; rewrite length_skipn; subst len; lia.
  - rewrite (Z.min_r a len), (Z.min_r b len) by lia.
    rewrite Z.sub_diag. simpl.
    rewrite (skipn_all2 l) by (subst len; lia). now rewrite firstn_nil.
Qed.

Lemma chunks_concat {A : Type} (k n : nat) (l : list A) :
  List.concat (map (fun p => firstn k (skipn (p * k) l)) (seq 0 n)) = firstn (n * k) l.
Proof.
  induction n as [|n IH]; [reflexivity|].
  rewrite seq_S, map_app, concat_app, IH. simpl. rewrite app_nil_r.
  rewrite <- firstn_plus. f_equal. lia.
Qed.

Lemma In_filterWhen param test pet l :
  In pet (filterWhen param test l) <->
  In pet l /\ (forall value, param = Some value -> value <> ""%string ->
                             test value pet = true).
Proof.
  unfold filterWhen. destruct param as [value|].
  - destruct (String.eqb_spec value "") as [->|Hne].
    + split; [|tauto]. intros H. split; [exact H|].
      intros v Hv Hn. injection Hv as <-. contradiction.
    + rewrite filter_In. split; intros [H1 H2]; split; trivial.
      * intros v Hv _. now injection Hv as <-.
      * now apply H2.
  - split; [|tauto]. intros H. split; [exact H|]. discriminate.
Qed.

Section SearchPetsFacts.
Variable toLowerCase : string -> string.
Import MemStorage.

(** X18.  The pages of a search with a positive page size.  The total is the
    number of stored pets that pass the filters, whatever the page; the
    number of pages is the least that holds them all; page [p], from 1,
    is the [p]-th run of [limit] pets of the matches taken newest
    first; the pages from 1 to the last, one after the other, are those
    matches, each once; and a page after the last is empty. *)
Theorem searchPets_pages params s :
  let limit := orNumber (SearchPetsParams.limit params) 12 in
  let matches := searchMatches toLowerCase params s in
  let result p := searchPets toLowerCase (SearchPetsParams.withPage params (Some p)) s in
  let totalCount := SearchResult.totalCount (searchPets toLowerCase params s) in
  let totalPages := SearchResult.totalPages (searchPets toLowerCase params s) in
  0 < limit ->
  totalCount = Z.of_nat (List.length matches) /\
  (totalPages - 1) * limit < totalCount <= totalPages * limit /\
  (forall p, SearchResult.totalCount (result p) = totalCount /\
             SearchResult.totalPages (result p) = totalPages) /\
  (forall p, 1 <= p ->
     SearchResult.pets (result p)
     = firstn (Z.to_nat limit) (skipn (Z.to_nat ((p - 1) * limit)) matches)) /\
  List.concat (map (fun p => SearchResult.pets (result (Z.of_nat p)))
              (seq 1 (Z.to_nat totalPages)))
  = matches /\
  (forall p, totalPages < p -> SearchResult.pets (result p) = []).
Proof.
  intros limit matches result totalCount totalPages Hlimit.
  assert (Hcount : totalCount = Z.of_nat (List.length matches)) by reflexivity.
  assert (Hpages : totalPages = ceilDiv totalCount limit) by reflexivity.
  assert (Hbounds : (totalPages - 1) * limit < totalCount <= totalPages * limit).
  { rewrite Hpages. unfold ceilDiv.
    pose proof (Z.div_mod (- totalCount) limit ltac:(lia)) as Hdm.
    pose proof (Z.mod_pos_bound (- totalCount) limit Hlimit) as Hmod. nia. }
  assert (Hpage : forall p, 1 <= p ->
     SearchResult.pets (result p)
     = firstn (Z.to_nat limit) (skipn (Z.to_nat ((p - 1) * limit)) matches)).
  { intros p Hp. subst result. unfold searchPets.
    cbn [SearchResult.pets SearchPetsParams.withPage SearchPetsParams.page
         SearchPetsParams.limit].
    fold limit.
    replace (orNumber (Some p) 1) with p by (destruct p; try reflexivity; lia).
    rewrite array_slice_nonneg by nia.
    replace (p * limit - (p - 1) * limit) with limit by lia. reflexivity. }
  split; [exact Hcount|]. split; [exact Hbounds|].
  split; [intros p; split; reflexivity|].
  split; [exact Hpage|]. split.
  - assert (Hnonneg : 0 <= totalPages) by nia.
    transitivity (firstn (Z.to_nat totalPages * Z.to_nat limit) matches);
      [|apply firstn_all2; nia].
    rewrite <- chunks_concat. rewrite <- seq_shift, map_map.
    f_equal. apply map_ext_in. intros p Hin. apply in_seq in Hin.
    rewrite Hpage by lia. f_equal. f_equal. nia.
  - intros p Hp. assert (0 <= totalPages) by nia. rewrite Hpage by lia.
    rewrite skipn_all2; [now rewrite firstn_nil|]. nia.
Qed.

(** X19.  What a search returns.  A pet is among the matches exactly when it
    is stored and passes each filter whose parameter is a non-empty
    string; [sortBy] and [sortDirection] are not read, the matches being
    ordered by [createdAt], newest first, in every case. *)
Theorem searchPets_matches params s :
  let matches := searchMatches toLowerCase params s in
  (forall pet,
      In pet matches <->
      In pet (JsMap.values (pets s)) /\
      (forall q, SearchPetsParams.query params = Some q -> q <> ""%string ->
         string_includes (toLowerCase (InsertPet.name (Pet.fields pet)))
                         (toLowerCase q) ||
         string_includes (toLowerCase (InsertPet.breed (Pet.fields pet)))
                         (toLowerCase q) ||
         string_includes (toLowerCase (InsertPet.location (Pet.fields pet)))
                         (toLowerCase q) = true) /\
      (forall v, SearchPetsParams.petType params = Some v -> v <> ""%string ->
         InsertPet.petType (Pet.fields pet) = v) /\
      (forall v, SearchPetsParams.location params = Some v -> v <> ""%string ->
         string_includes (toLowerCase (InsertPet.location (Pet.fields pet)))
                         (toLowerCase v) = true) /\
      (forall v, SearchPetsParams.ageGroup params = Some v -> v <> ""%string ->
         InsertPet.ageGroup (Pet.fields pet) = v) /\
      (forall v, SearchPetsParams.size params = Some v -> v <> ""%string ->
         InsertPet.size (Pet.fields pet) = v) /\
      (forall v, SearchPetsParams.gender params = Some v -> v <> ""%string ->
         InsertPet.gender (Pet.fields pet) = v)) /\
  StronglySorted (fun a b => Pet.createdAt b <= Pet.createdAt a) matches /\
  (forall sortBy sortDirection,
      searchPets toLowerCase
        (SearchPetsParams.mk (SearchPetsParams.query params)
           (SearchPetsParams.petType params) (SearchPetsParams.location params)
           (SearchPetsParams.ageGroup params) (SearchPetsParams.size params)
           (SearchPetsParams.gender params) (SearchPetsParams.page params)
           (SearchPetsParams.limit params) sortBy sortDirection) s
      = searchPets toLowerCase params s).
Proof.
  intros matches. split; [|split].
  - intros pet. subst matches. unfold searchMatches, searchFilters.
    split.
    + intros H. apply (Permutation_in _ (array_sort_perm _ _)) in H.
      repeat (apply In_filterWhen in H; destruct H as [H ?]).
      split; [exact H|].
      repeat split; intros v Hv Hne;
        try (apply String.eqb_eq; eauto); eauto.
    + intros (H & Hq & Ht & Hl & Ha & Hs & Hg).
      apply (Permutation_in _ (Permutation_sym (array_sort_perm _ _))).
      repeat (apply In_filterWhen; split);
        try (intros v Hv Hne; apply String.eqb_eq; eauto); eauto.
  - eapply StronglySorted_mono;
      [|apply (array_sort_sorted (fun a b => Pet.createdAt b - Pet.createdAt a));
        intros; lia].
    simpl. intros; lia.
  - intros sortBy sortDirection. reflexivity.
Qed.

End SearchPetsFacts.

(* ================================================================== *)
(** * The thread's cache and the store *)

Section CacheAndStore.
Context {JsonValue : Type}.
Import MessageThread.

Lemma fetched_below k s x :
  MemStorage.messagesWf s -> In x (MemStorage.getConversationMessages k s) ->
  Message.id x < MemStorage.currentMessageId s.
Proof.
  intros [Hwf Hk] Hin. apply fetched_In in Hin. destruct Hin as [Hin _].
  apply JsMapFacts.In_values in Hin. destruct Hin as [i Hin].
  apply JsMapFacts.In_get in Hin; [|exact Hwf]. apply Hk in Hin. lia.
Qed.

Lemma fetch_after_create insertMessage now s :
  MemStorage.messagesWf s ->
  let cid := InsertMessage.conversationId insertMessage in
  let message := fst (MemStorage.createMessage insertMessage now s) in
  let s' := snd (MemStorage.createMessage insertMessage now s) in
  Permutation (MemStorage.getConversationMessages cid s') (message :: MemStorage.getConversationMessages cid s) /\
  ((forall x, In x (MemStorage.getConversationMessages cid s) -> Message.createdAt x <= now) ->
   MemStorage.getConversationMessages cid s' = MemStorage.getConversationMessages cid s ++ [message]).
Proof.
  intros [Hwf Hk] cid message s'. subst cid message s'.
  cbn [MemStorage.createMessage fst snd].
  assert (Hfree : JsMap.get (MemStorage.currentMessageId s) (MemStorage.messages s) = None).
  { destruct (JsMap.get (MemStorage.currentMessageId s) (MemStorage.messages s))
      as [m|] eqn:E; [|reflexivity].
    apply Hk in E. lia. }
  unfold MemStorage.getConversationMessages.
  cbn [MemStorage.withMessages MemStorage.messages].
  rewrite (JsMapFacts.set_absent _ _ _ Hfree).
  unfold JsMap.values. rewrite map_app. cbn [map snd].
  rewrite filter_app. cbn [filter Message.conversationId]. rewrite Z.eqb_refl.
  split.
  - rewrite sortByCreatedAt_perm. rewrite Permutation_app_comm. simpl.
    constructor. symmetry. apply sortByCreatedAt_perm.
  - intros Hall. apply sortByCreatedAt_last. intros x Hx. cbn [Message.createdAt].
    apply Hall. eapply Permutation_in; [symmetry; apply sortByCreatedAt_perm|exact Hx].
Qed.

Lemma array_some_false {A : Type} (p : A -> bool) (l : list A) :
  (forall x, In x l -> p x = false) -> array_some p l = false.
Proof.
  intros H. destruct (array_some p l) eqn:E; [|reflexivity].
  unfold array_some in E. apply existsb_exists in E. destruct E as [x [Hin Hp]].
  rewrite (H x Hin) in Hp. discriminate.
Qed.

(** X20.  From the send to the other side's screen.  A participant's
    [POST /api/messages] on [MemStorage] stores a message that carries
    the sender's id, the first clock reading and [isRead] false, stamps
    the conversation with the second clock reading, leaves the other
    conversations alone and publishes the stored message to the
    conversation.  A thread whose cache held the messages as the store
    had them then holds, after [handleNewMessage], the messages as the
    store has them now, provided no stored message of the conversation
    is newer than the new one; and it asks to mark the message as read
    exactly when its user is not the sender. *)
Theorem send_then_receive u data conv viewer (srv : Server MemStorage.t JsonValue) :
  let s := store (backend srv) in
  let cid := md_conversationId data in
  let reads := dateReads (backend srv) in
  let now := clock (backend srv) reads in
  MemStorage.messagesWf s ->
  MemStorage.getConversation cid s = Some conv ->
  u = Conversation.adopterId conv \/ u = Conversation.ownerId conv ->
  let r := postMessages (Some u) (Some data) srv in
  let s' := store (backend (snd r)) in
  let message := Message.mk (MemStorage.currentMessageId s) cid u (md_content data) false now in
  let received := handleNewMessage cid viewer message (Some (MemStorage.getConversationMessages cid s)) in
  fst r = json 201 (MessageBody message) /\
  published (snd r) = published srv ++ [(Num cid, new_message message)] /\
  JsMap.get (Message.id message) (MemStorage.messages s') = Some message /\
  MemStorage.getConversation cid s'
  = Some (Conversation.mk (Conversation.id conv) (Conversation.petId conv)
            (Conversation.adopterId conv) (Conversation.ownerId conv)
            (Conversation.title conv) (clock (backend srv) (S reads))) /\
  (forall k, k <> cid ->
     MemStorage.getConversation k s' = MemStorage.getConversation k s) /\
  Permutation (MemStorage.getConversationMessages cid s') (message :: MemStorage.getConversationMessages cid s) /\
  ((forall x, In x (MemStorage.getConversationMessages cid s) -> Message.createdAt x <= now) ->
   fst received = MemStorage.getConversationMessages cid s') /\
  (In (PatchRead cid [Message.id message]) (snd received) <-> viewer <> u).
Proof.
  intros s cid reads now Hwf Hc Hor r s' message received.
  subst s reads now r s' received.
  destruct srv as [[s ck d f n w] cs rs p o].
  cbn [backend store clock dateReads] in *.
  pose proof (fetch_after_create (InsertMessage.mk cid (md_content data) u) (ck d) s Hwf)
    as [Hperm Happ].
  cbn [InsertMessage.conversationId MemStorage.createMessage fst snd
       InsertMessage.senderId InsertMessage.content] in Hperm, Happ.
  fold message in Hperm, Happ.
  unfold MemStorage.getConversation in Hc.
  unfold postMessages, tryCatch, bind, parse, await, publish, ret.
  cbn [getConversation createMessage updateConversationLastMessageTime MemStorage_IStorage].
  unfold onStore, bind, newDate, ret.
  cbn [backend store clock dateReads dbFaults dbStatements dbTraces
       connections readyState published outbox fst snd].
  unfold MemStorage.getConversation. fold cid. rewrite Hc.
  apply notParticipant_false in Hor. rewrite Hor.
  cbn [MemStorage.createMessage MemStorage.withMessages MemStorage.conversations
       backend store clock dateReads dbFaults dbStatements dbTraces fst snd
       InsertMessage.conversationId InsertMessage.senderId InsertMessage.content].
  rewrite Hc.
  cbn [backend store clock dateReads dbFaults dbStatements dbTraces
       connections readyState published outbox fst snd broadcast].
  fold message.
  unfold MemStorage.updateConversationLastMessageTime.
  cbn [MemStorage.conversations MemStorage.withMessages]. rewrite Hc.
  unfold MemStorage.getConversation.
  cbn [MemStorage.withConversations MemStorage.withMessages
       MemStorage.conversations MemStorage.messages].
  split; [reflexivity|]. split; [reflexivity|].
  split; [apply JsMapFacts.get_set_eq|].
  split; [apply JsMapFacts.get_set_eq|].
  split; [intros k Hk; apply JsMapFacts.get_set_ne; congruence|].
  split; [exact Hperm|]. split.
  - intros Hall. cbn [handleNewMessage fst addNewMessage].
    rewrite array_some_false.
    + symmetry. now apply Happ.
    + intros x Hx. apply (fetched_below _ _ _ Hwf) in Hx.
      apply Z.eqb_neq. cbn [Message.id message]. unfold message. cbn. lia.
  - cbn [handleNewMessage snd Message.senderId Message.id message].
    unfold message. cbn [Message.senderId Message.id].
    destruct (Z.eqb_spec u viewer) as [->|Hne]; cbn.
    + split; [intros [H|[]]; discriminate|congruence].
    + split; [congruence|]. intros _. right. now left.
Qed.

(** X21.  The read receipt keeps the sender's cache in step with the store.
    When the reader's request has been served by [MemStorage.markMessagesAsRead]
    and its [message_read] event reaches the thread of the other
    participant, whose cache held the conversation's messages as the
    store had them, [handleMessageRead] leaves the cache holding them as
    the store has them now: every message of the conversation being
    from one of the two.  The event of one's own request changes
    nothing in the cache. *)
Theorem read_receipt_keeps_cache_in_step cid ids reader currentUserId s :
  MemStorage.messagesWf s ->
  reader <> currentUserId ->
  (forall m, In m (MemStorage.getConversationMessages cid s) ->
             Message.senderId m = currentUserId \/ Message.senderId m = reader) ->
  applyMessageRead currentUserId ids reader (Some (MemStorage.getConversationMessages cid s))
  = Some (MemStorage.getConversationMessages cid (MemStorage.markMessagesAsRead ids reader s)) /\
  forall cache, applyMessageRead currentUserId ids currentUserId cache = cache.
Proof.
  intros Hwf Hne Hsenders. split.
  - unfold applyMessageRead.
    destruct (Z.eqb_spec reader currentUserId) as [|_]; [contradiction|]. cbn [negb].
    f_equal. rewrite getConversationMessages_marked by exact Hwf.
    apply map_ext_in. intros m Hin. unfold marked.
    destruct (array_includes (Message.id m) ids); cbn [andb]; [|reflexivity].
    destruct (Hsenders m Hin) as [E|E]; rewrite E.
    + rewrite Z.eqb_refl. destruct (Z.eqb_spec currentUserId reader); [congruence|].
      reflexivity.
    + rewrite Z.eqb_refl. destruct (Z.eqb_spec reader currentUserId); [congruence|].
      reflexivity.
  - intros cache. unfold applyMessageRead. now rewrite Z.eqb_refl.
Qed.

End CacheAndStore.

(* ================================================================== *)
(** * The references resolve, whatever is requested *)

Section References.
Context {JsonValue : Type}.
Implicit Types (srv : Server MemStorage.t JsonValue).

Lemma postConversations_store srv user body0 :
  let s := store (backend srv) in
  let s' := store (backend (snd (postConversations user body0 srv))) in
  s' = s \/
  exists data now,
    MemStorage.getPet (InsertConversation.petId data) s <> None /\
    s' = MemStorage.apply (MemStorage.CreateConversation data) now s.
Proof.
  destruct srv as [[s ck dr df ds dt] conns ready pub out]. cbn [backend store].
  destruct user as [u|]; [|now left].
  destruct body0 as [data|]; [|now left].
  unfold postConversations, tryCatch, bind, parse, await, ret.
  cbn [getPet getConversationByParticipants createConversation MemStorage_IStorage].
  unfold onStore, bind, newDate.
  cbn [backend store clock dateReads dbFaults dbStatements dbTraces
       connections readyState published outbox].
  destruct (MemStorage.getPet (InsertConversation.petId data) s) as [pet|] eqn:Hpet;
    [|now left].
  destruct (notParticipant u (InsertConversation.adopterId data)
              (InsertConversation.ownerId data)); [now left|].
  cbn [backend store clock dateReads dbFaults dbStatements dbTraces
       connections readyState published outbox].
  destruct (MemStorage.getConversationByParticipants
              (InsertConversation.petId data) (InsertConversation.adopterId data)
              (InsertConversation.ownerId data) s) as [c|]; [now left|].
  right. exists data, (ck dr). split; [congruence|reflexivity].
Qed.

Lemma postMessages_store srv user body0 :
  let s := store (backend srv) in
  let s' := store (backend (snd (postMessages user body0 srv))) in
  s' = s \/
  exists u data conv now1 now2,
    MemStorage.getConversation (md_conversationId data) s = Some conv /\
    (u = Conversation.adopterId conv \/ u = Conversation.ownerId conv) /\
    s' = MemStorage.apply
           (MemStorage.UpdateConversationLastMessageTime (md_conversationId data)) now2
           (MemStorage.apply
              (MemStorage.CreateMessage
                 (InsertMessage.mk (md_conversationId data) (md_content data) u))
              now1 s).
Proof.
  destruct srv as [[s ck dr df ds dt] conns ready pub out]. cbn [backend store].
  destruct user as [u|]; [|now left].
  destruct body0 as [data|]; [|now left].
  unfold postMessages, tryCatch, bind, parse, await, publish, ret.
  cbn [getConversation createMessage updateConversationLastMessageTime MemStorage_IStorage].
  unfold onStore, bind, newDate, ret.
  cbn [backend store clock dateReads dbFaults dbStatements dbTraces
       connections readyState published outbox fst snd].
  destruct (MemStorage.getConversation (md_conversationId data) s) as [conv|] eqn:Hc;
    [|now left].
  destruct (notParticipant u (Conversation.adopterId conv) (Conversation.ownerId conv))
    eqn:Hp; [now left|].
  right. exists u, data, conv, (ck dr), (ck (S dr)).
  split; [exact Hc|]. split; [now apply notParticipant_false|].
  unfold MemStorage.getConversation in Hc.
  cbn [MemStorage.createMessage MemStorage.withMessages MemStorage.conversations
       backend store clock dateReads dbFaults dbStatements dbTraces fst snd
       InsertMessage.conversationId].
  rewrite Hc. reflexivity.
Qed.

Lemma patchMessagesRead_store srv user conversationId0 messageIds :
  let s := store (backend srv) in
  let s' := store (backend (snd (patchMessagesRead user conversationId0 messageIds srv))) in
  s' = s \/ exists ids u, s' = MemStorage.apply (MemStorage.MarkMessagesAsRead ids u) 0 s.
Proof.
  destruct srv as [[s ck dr df ds dt] conns ready pub out]. cbn [backend store].
  destruct user as [u|]; [|now left].
  destruct messageIds as [[|i ids]|]; [now left| |now left].
  unfold patchMessagesRead, tryCatch, awaitConversation, bind, await, onStore, ret. cbn.
  destruct (getAt conversationId0 (MemStorage.conversations s)) as [conv|]; [|now left].
  destruct (notParticipant u (Conversation.adopterId conv) (Conversation.ownerId conv));
    [now left|].
  right. exists (i :: ids), u. reflexivity.
Qed.

Lemma deletePets_store srv user petId :
  let s := store (backend srv) in
  let s' := store (backend (snd (deletePets user petId srv))) in
  s' = s \/ exists id, s' = MemStorage.apply (MemStorage.DeletePet id) 0 s.
Proof.
  destruct srv as [[s ck dr df ds dt] conns ready pub out]. cbn [backend store].
  destruct user as [u|]; [|now left].
  unfold deletePets, tryCatch, bind, await, onStore, ret. cbn.
  destruct petId as [|id]; [now left|]. cbn.
  destruct (JsMap.get id (MemStorage.pets s)) as [pet|]; [|now left]. cbn.
  destruct (Pet.ownerId pet =? u); [|now left].
  right. exists id. reflexivity.
Qed.

Lemma references_init : consistent MemStorage.init.
Proof.
  split; [unfold countersPositive; simpl; lia|]. split.
  - unfold storeWf. simpl.
    repeat split; try apply NoDup_nil; simpl in *; discriminate.
  - split; intros k x H; discriminate.
Qed.

Lemma references_usersOrPets op now s :
  onUsersOrPets op = true -> storeWf s ->
  referencesResolve s -> referencesResolve (MemStorage.apply op now s).
Proof.
  intros Hop Hwf [Hc Hm].
  destruct op as [u | uid role adm | p owner | pid upd | pid | c | cid | im | ids reader];
    try discriminate; cbn [MemStorage.apply].
  - split; [exact Hc|exact Hm].
  - unfold MemStorage.updateUserRole.
    destruct (JsMap.get uid (MemStorage.users s)); split; trivial.
  - split; [|exact Hm]. intros k c0 H. specialize (Hc k c0 H).
    unfold MemStorage.getPet in *. cbn.
    destruct (Z.eq_dec (MemStorage.currentPetId s) (Conversation.petId c0)) as [<-|Hne].
    + rewrite JsMapFacts.get_set_eq. discriminate.
    + now rewrite JsMapFacts.get_set_ne.
  - unfold MemStorage.updatePet.
    destruct (JsMap.get pid (MemStorage.pets s)) as [pet|] eqn:E; [|split; trivial].
    split; [|exact Hm]. intros k c0 H. specialize (Hc k c0 H).
    unfold MemStorage.getPet in *. cbn.
    destruct (Z.eq_dec pid (Conversation.petId c0)) as [<-|Hne].
    + rewrite JsMapFacts.get_set_eq. discriminate.
    + now rewrite JsMapFacts.get_set_ne.
  - destruct (deletePet_facts pid s Hwf) as (_ & Hpets & Hconvs & Hmsgs & _).
    split.
    + intros k c0 H. apply Hconvs in H. destruct H as [H Hne].
      rewrite Hpets by exact Hne. now apply (Hc k).
    + intros k m H. apply Hmsgs in H. destruct H as [H Hkeep].
      destruct (Hm k m H) as [c0 [Hc0 Hs]]. exists c0. split; [|exact Hs].
      apply Hconvs. split; [exact Hc0|now apply Hkeep].
Qed.

Lemma references_createConversation data now s :
  storeWf s ->
  MemStorage.getPet (InsertConversation.petId data) s <> None ->
  referencesResolve s ->
  referencesResolve (MemStorage.apply (MemStorage.CreateConversation data) now s).
Proof.
  intros (_ & _ & [_ Wc] & _) Hpet [Hc Hm].
  assert (Hfree : JsMap.get (MemStorage.currentConversationId s)
                            (MemStorage.conversations s) = None).
  { destruct (JsMap.get _ (MemStorage.conversations s)) eqn:E; [|reflexivity].
    apply Wc in E. lia. }
  unfold MemStorage.getConversation, MemStorage.getPet in *. split; cbn.
  - intros k c0 H.
    destruct (Z.eq_dec (MemStorage.currentConversationId s) k) as [<-|Hne].
    + rewrite JsMapFacts.get_set_eq in H. injection H as <-. exact Hpet.
    + rewrite JsMapFacts.get_set_ne in H by exact Hne. now apply (Hc k).
  - intros k m H. destruct (Hm k m H) as [c0 [Hc0 Hs]]. exists c0. split; [|exact Hs].
    rewrite JsMapFacts.get_set_ne; [exact Hc0|]. intros E. rewrite E in Hfree. congruence.
Qed.

Lemma references_createMessage u cid content0 conv now s :
  MemStorage.getConversation cid s = Some conv ->
  u = Conversation.adopterId conv \/ u = Conversation.ownerId conv ->
  referencesResolve s ->
  referencesResolve
    (MemStorage.apply (MemStorage.CreateMessage (InsertMessage.mk cid content0 u)) now s).
Proof.
  intros Hconv Hor [Hc Hm]. split; cbn.
  - exact Hc.
  - intros k m H.
    destruct (Z.eq_dec (MemStorage.currentMessageId s) k) as [<-|Hne].
    + rewrite JsMapFacts.get_set_eq in H. injection H as <-. exists conv. now split.
    + rewrite JsMapFacts.get_set_ne in H by exact Hne. now apply (Hm k).
Qed.

Lemma references_updateTime cid now s :
  referencesResolve s ->
  referencesResolve
    (MemStorage.apply (MemStorage.UpdateConversationLastMessageTime cid) now s).
Proof.
  intros [Hc Hm]. cbn [MemStorage.apply]. unfold MemStorage.updateConversationLastMessageTime.
  destruct (JsMap.get cid (MemStorage.conversations s)) as [conv|] eqn:E; [|now split].
  unfold MemStorage.getConversation, MemStorage.getPet in *. split; cbn.
  - intros k c0 H. destruct (Z.eq_dec cid k) as [<-|Hne].
    + rewrite JsMapFacts.get_set_eq in H. injection H as <-. cbn. now apply (Hc cid).
    + rewrite JsMapFacts.get_set_ne in H by exact Hne. now apply (Hc k).
  - intros k m H. destruct (Hm k m H) as [c0 [Hc0 Hs]].
    destruct (Z.eq_dec cid (Message.conversationId m)) as [Heq|Hne].
    + rewrite <- Heq in *. rewrite JsMapFacts.get_set_eq. eexists. split; [reflexivity|].
      cbn. congruence.
    + exists c0. rewrite JsMapFacts.get_set_ne by exact Hne. now split.
Qed.

Lemma references_mark ids u now s :
  referencesResolve s ->
  referencesResolve (MemStorage.apply (MemStorage.MarkMessagesAsRead ids u) now s).
Proof.
  intros [Hc Hm]. split; cbn.
  - exact Hc.
  - intros k m H. rewrite MemStorageFacts.markAll_get in H.
    destruct (JsMap.get k (MemStorage.messages s)) as [m0|] eqn:E; [|discriminate].
    cbn in H. injection H as <-. destruct (Hm k m0 E) as [c0 [Hc0 Hs]].
    exists c0. destruct (marked_fields (array_includes k ids) u m0) as (_ & -> & -> & _).
    now split.
Qed.

(** X22.  The store stays consistent under every request.  When every entry
    sits under its id, every conversation is about a stored pet and
    every message is in a stored conversation and was sent by one of
    its two participants, the same holds after a create-conversation,
    send-message, mark-as-read or delete-pet request, whoever makes it
    and whatever it carries, and after any storage method on users or
    pets. *)
Theorem handlers_keep_references srv :
  consistent (store (backend srv)) ->
  (forall user body0,
      consistent (store (backend (snd (postConversations user body0 srv))))) /\
  (forall user body0,
      consistent (store (backend (snd (postMessages user body0 srv))))) /\
  (forall user conversationId0 messageIds,
      consistent
        (store (backend (snd (patchMessagesRead user conversationId0 messageIds srv))))) /\
  (forall user petId,
      consistent (store (backend (snd (deletePets user petId srv))))) /\
  (forall op now,
      onUsersOrPets op = true ->
      consistent (MemStorage.apply op now (store (backend srv)))).
Proof.
  intros Hcons.
  assert (Hstep : forall op now s,
             consistent s ->
             (storeWf s -> referencesResolve s ->
              referencesResolve (MemStorage.apply op now s)) ->
             consistent (MemStorage.apply op now s)).
  { intros op now s (Hpos & Hwf & Hrefs) Hkeep.
    destruct (storeWf_apply op now s (conj Hpos Hwf)) as [Hpos' Hwf'].
    split; [exact Hpos'|]. split; [exact Hwf'|]. now apply Hkeep. }
  split; [|split; [|split; [|split]]].
  - intros user body0.
    destruct (postConversations_store srv user body0) as [->|(data & now & Hpet & ->)];
      [exact Hcons|].
    apply Hstep; [exact Hcons|]. intros Hwf. now apply references_createConversation.
  - intros user body0.
    destruct (postMessages_store srv user body0)
      as [->|(u & data & conv & now1 & now2 & Hc & Hor & ->)]; [exact Hcons|].
    apply Hstep; [|intros _; apply references_updateTime].
    apply Hstep; [exact Hcons|]. intros _. now apply references_createMessage with conv.
  - intros user conversationId0 messageIds.
    destruct (patchMessagesRead_store srv user conversationId0 messageIds)
      as [->|(ids & u & ->)]; [exact Hcons|].
    apply Hstep; [exact Hcons|]. intros _. apply references_mark.
  - intros user petId.
    destruct (deletePets_store srv user petId) as [->|(id & ->)]; [exact Hcons|].
    apply Hstep; [exact Hcons|]. intros Hwf. now apply references_usersOrPets.
  - intros op now Hop. apply Hstep; [exact Hcons|]. intros Hwf.
    now apply references_usersOrPets.
Qed.

End References.

(* ================================================================== *)
(** * The owners of pets *)

Section PetOwners.
Import MemStorage MemStorageQueries.

Lemma existsb_set_add k x ids :
  existsb (Z.eqb k) (set_add x ids) = existsb (Z.eqb k) ids || (k =? x).
Proof.
  unfold set_add. destruct (existsb (Z.eqb x) ids) eqn:E.
  - destruct (Z.eqb_spec k x) as [->|_]; [now rewrite E|now rewrite orb_false_r].
  - rewrite existsb_app. simpl. now rewrite orb_false_r.
Qed.

Lemma existsb_petOwnerIds k (m : JsMap.t Pet.t) (acc : list Z) :
  existsb (Z.eqb k)
    (JsMap.forEach (fun pet _ ids => set_add (Pet.ownerId pet) ids) m acc)
  = existsb (Z.eqb k) acc || existsb (fun pet => Pet.ownerId pet =? k) (JsMap.values m).
Proof.
  unfold JsMap.forEach, JsMap.values. revert acc.
  induction m as [|[i pet] r IH]; intros acc; simpl; [now rewrite orb_false_r|].
  rewrite IH, existsb_set_add, (Z.eqb_sym k). now rewrite orb_assoc.
Qed.

Lemma get_owners k (users0 : JsMap.t User.t) (ids : list Z) (acc : JsObject.t User.t) :
  JsObject.get k
    (fold_left
       (fun owners ownerId0 =>
          match JsMap.get ownerId0 users0 with
          | Some owner => JsObject.set ownerId0 owner owners
          | None => owners
          end)
       ids acc)
  = if existsb (Z.eqb k) ids
    then match JsMap.get k users0 with
         | Some owner => Some owner
         | None => JsObject.get k acc
         end
    else JsObject.get k acc.
Proof.
  revert acc. induction ids as [|id r IH]; intros acc; simpl; [reflexivity|].
  rewrite IH. destruct (Z.eqb_spec k id) as [->|Hne]; simpl.
  - destruct (JsMap.get id users0) as [owner|] eqn:E.
    + rewrite JsObjectMore.obj_get_set_eq. now destruct (existsb (Z.eqb id) r).
    + now destruct (existsb (Z.eqb id) r).
  - destruct (JsMap.get id users0) as [owner|] eqn:E; [|reflexivity].
    rewrite JsObjectFacts.obj_get_set_ne by congruence. reflexivity.
Qed.

Lemma wf_owners (users0 : JsMap.t User.t) (ids : list Z) (acc : JsObject.t User.t) :
  JsObject.wf acc ->
  JsObject.wf
    (fold_left
       (fun owners ownerId0 =>
          match JsMap.get ownerId0 users0 with
          | Some owner => JsObject.set ownerId0 owner owners
          | None => owners
          end)
       ids acc).
Proof.
  revert acc. induction ids as [|id r IH]; intros acc Hwf; simpl; [exact Hwf|].
  apply IH. destruct (JsMap.get id users0); [now apply JsObjectFacts.obj_wf_set|exact Hwf].
Qed.

(** X23.  [getPetOwners] is the users map cut down to the owners of stored
    pets: under an id that some stored pet names as its owner it holds
    what [getUser] finds for that id, and under any other id nothing;
    and it holds each id once. *)
Theorem getPetOwners_lookup s :
  JsObject.wf (getPetOwners s) /\
  forall k,
    JsObject.get k (getPetOwners s)
    = if existsb (fun pet => Pet.ownerId pet =? k) (JsMap.values (pets s))
      then getUser k s
      else None.
Proof.
  unfold getPetOwners. split.
  - apply wf_owners. constructor.
  - intros k. rewrite get_owners, existsb_petOwnerIds. cbn [existsb orb JsObject.get].
    unfold getUser, JsObject.empty. cbn [JsObject.get].
    destruct (existsb _ (JsMap.values (pets s))); [|reflexivity].
    now destruct (JsMap.get k (users s)).
Qed.

End PetOwners.

(* ================================================================== *)
(** * Who may open a conversation as the owner *)

Section OwnerUnchecked.
Context {JsonValue : Type}.
Implicit Types (srv : Server MemStorage.t JsonValue).

(** X24.  [POST /api/conversations] does not compare the [ownerId] of the
    request with the owner of the pet.  Any authenticated user who names
    a stored pet and puts the own id as [ownerId] is answered with a
    conversation about that pet in which that user is the owner, and the
    conversation is then among the inquiries [getOwnerInquiries] lists
    for that user, whoever owns the pet. *)
Theorem postConversations_owner_unchecked srv u adopter pet title0 :
  let s := store (backend srv) in
  let data := InsertConversation.mk (Pet.id pet) adopter u title0 in
  MemStorage.getPet (Pet.id pet) s = Some pet ->
  let r := postConversations (Some u) (Some data) srv in
  let s' := store (backend (snd r)) in
  exists c,
    body (fst r) = ConversationBody c /\
    (status (fst r) = 200 \/ status (fst r) = 201) /\
    Conversation.petId c = Pet.id pet /\
    Conversation.ownerId c = u /\
    In c (JsMap.values (MemStorage.conversations s')) /\
    In (Conversation.id c)
       (map Inquiry.conversationId (MemStorageQueries.getOwnerInquiries u s')).
Proof.
  intros s data Hpet r s'. subst s' r.
  assert (Hpart : notParticipant u (InsertConversation.adopterId data)
                    (InsertConversation.ownerId data) = false).
  { apply participant_ok. right. reflexivity. }
  rewrite (postConversations_run srv u data Hpart)
    by (cbn; fold s; rewrite Hpet; discriminate).
  assert (Hlist : forall c st,
             In c (JsMap.values (MemStorage.conversations st)) ->
             Conversation.ownerId c = u ->
             In (Conversation.id c)
                (map Inquiry.conversationId (MemStorageQueries.getOwnerInquiries u st))).
  { intros c st Hin Ho. unfold MemStorageQueries.getOwnerInquiries.
    apply (Permutation_in _ (Permutation_sym
             (Permutation_map _ (array_sort_perm _ _)))).
    rewrite map_map. apply in_map_iff. exists c. split; [reflexivity|].
    apply filter_In. split; [exact Hin|]. now apply Z.eqb_eq. }
  fold s. subst data.
  cbn [InsertConversation.petId InsertConversation.adopterId InsertConversation.ownerId].
  destruct (MemStorage.getConversationByParticipants (Pet.id pet) adopter u s)
    as [c|] eqn:Hfind.
  - pose proof (array_find_Some _ _ _ Hfind) as [Hin Hsame].
    unfold sameParticipants in Hsame.
    apply andb_true_iff in Hsame. destruct Hsame as [Hsame Ho].
    apply andb_true_iff in Hsame. destruct Hsame as [Hp Ha].
    apply Z.eqb_eq in Hp, Ho.
    exists c. cbn [fst snd body status json].
    split; [reflexivity|]. split; [now left|]. split; [exact Hp|]. split; [exact Ho|].
    split; [exact Hin|]. now apply Hlist.
  - cbv zeta. cbn [fst snd body status json].
    eexists. split; [reflexivity|].
    split; [now right|].
    cbn [MemStorage.createConversation fst snd Conversation.petId Conversation.ownerId
         InsertConversation.petId InsertConversation.ownerId].
    split; [reflexivity|]. split; [reflexivity|].
    match goal with
    | |- In ?c ?l /\ _ => assert (Hin : In c l)
    end.
    { cbn. apply JsMapFacts.In_values. eexists. apply JsMapFacts.get_In.
      apply JsMapFacts.get_set_eq. }
    split; [exact Hin|]. apply Hlist; [exact Hin|reflexivity].
Qed.

End OwnerUnchecked.

(* ================================================================== *)
(** * The page buttons *)

Section PageButtons.
Import Pagination.

Lemma range_bounds currentPage totalPages :
  2 <= totalPages -> 1 <= currentPage <= totalPages ->
  let (rangeStart, rangeEnd) := range currentPage totalPages in
  2 <= rangeStart /\ rangeEnd <= totalPages - 1 /\ rangeEnd - rangeStart <= 2 /\
  (rangeStart = 2 \/ rangeStart <= currentPage - 1) /\
  (rangeEnd = totalPages - 1 \/ currentPage + 1 <= rangeEnd).
Proof.
  intros Ht Hc. unfold range.
  destruct (Z.ltb_spec (Z.min (totalPages - 1) (currentPage + 1)
                        - Z.max 2 (currentPage - 1)) 2);
    destruct (Z.ltb_spec 3 totalPages); cbn [andb];
    try (destruct (Z.eqb_spec (Z.max 2 (currentPage - 1)) 2));
    try (destruct (Z.eqb_spec (Z.min (totalPages - 1) (currentPage + 1))
                              (totalPages - 1)));
    lia.
Qed.

Lemma numbers_app (a b : list Item) : numbers (a ++ b) = numbers a ++ numbers b.
Proof.
  induction a as [|[n| |] r IH]; simpl; [reflexivity| |exact IH|exact IH].
  now rewrite IH.
Qed.

Lemma numbers_pushRange a b :
  numbers (pushRange a b) = map (fun i => a + Z.of_nat i) (seq 0 (Z.to_nat (b - a + 1))).
Proof.
  unfold pushRange. induction (seq 0 (Z.to_nat (b - a + 1))) as [|i r IH]; simpl;
    [reflexivity|now rewrite IH].
Qed.

Lemma In_range a b p :
  In p (map (fun i => a + Z.of_nat i) (seq 0 (Z.to_nat (b - a + 1)))) <-> a <= p <= b.
Proof.
  rewrite in_map_iff. split.
  - intros [i [<- Hi]]. apply in_seq in Hi. lia.
  - intros H. exists (Z.to_nat (p - a)). split; [lia|]. apply in_seq. lia.
Qed.

Lemma StronglySorted_append {A : Type} (R : A -> A -> Prop) (l1 l2 : list A) :
  StronglySorted R l1 -> StronglySorted R l2 ->
  (forall x y, In x l1 -> In y l2 -> R x y) ->
  StronglySorted R (l1 ++ l2).
Proof.
  induction 1 as [|h r Hs IH Hall]; intros H2 Hcross; simpl; [exact H2|].
  constructor.
  - apply IH; [exact H2|]. intros x y Hx Hy. apply Hcross; [now right|exact Hy].
  - apply Forall_forall. intros y Hy. apply in_app_iff in Hy. destruct Hy as [Hy|Hy].
    + rewrite Forall_forall in Hall. now apply Hall.
    + apply Hcross; [now left|exact Hy].
Qed.

Lemma sorted_range a (k n : nat) :
  StronglySorted Z.lt (map (fun i => a + Z.of_nat i) (seq k n)).
Proof.
  revert k. induction n as [|n IH]; intros k; simpl; [constructor|].
  constructor; [apply IH|].
  apply Forall_forall. intros x Hx. apply in_map_iff in Hx.
  destruct Hx as [i [<- Hi]]. apply in_seq in Hi. lia.
Qed.

(** X25.  The numbered buttons, for at least two pages and a current page
    among them.  The numbers shown ascend from 1 to the last page
    without a repeat; the current page and its neighbours are shown; a
    page not shown lies under an ellipsis on its side of the current
    page, and an ellipsis stands only where a page is not shown; there
    are at most seven items; and no button asks for a page outside
    [1 .. totalPages]. *)
Theorem getPageNumbers_spec currentPage totalPages :
  2 <= totalPages -> 1 <= currentPage <= totalPages ->
  let items := getPageNumbers currentPage totalPages in
  let shown := numbers items in
  render currentPage totalPages = Some items /\
  StronglySorted Z.lt shown /\
  hd_error shown = Some 1 /\ last shown 0 = totalPages /\
  (forall p, In p shown -> 1 <= p <= totalPages) /\
  (forall p, 1 <= p <= totalPages -> currentPage - 1 <= p <= currentPage + 1 ->
             In p shown) /\
  (forall p, 1 <= p <= totalPages -> ~ In p shown ->
             (p < currentPage /\ In EllipsisStart items) \/
             (currentPage < p /\ In EllipsisEnd items)) /\
  (In EllipsisStart items -> ~ In 2 shown) /\
  (In EllipsisEnd items -> ~ In (totalPages - 1) shown) /\
  (List.length items <= 7)%nat /\
  (forall p, In p (requests currentPage totalPages) -> 1 <= p <= totalPages).
Proof.
  intros Ht Hc items shown.
  pose proof (range_bounds currentPage totalPages Ht Hc) as Hb.
  assert (Hrender : render currentPage totalPages = Some items).
  { unfold render. destruct (Z.leb_spec totalPages 1); [lia|reflexivity]. }
  subst shown items. unfold requests, getPageNumbers in *.
  destruct (range currentPage totalPages) as [rs re].
  destruct Hb as (H1 & H2 & H3 & H4 & H5).
  destruct (Z.ltb_spec 1 totalPages) as [_|]; [|lia].
  set (es := if 2 <? rs then [EllipsisStart] else []).
  set (ee := if re <? totalPages - 1 then [EllipsisEnd] else []).
  assert (Hes : numbers es = []) by (subst es; now destruct (2 <? rs)).
  assert (Hee : numbers ee = []) by (subst ee; now destruct (re <? totalPages - 1)).
  assert (Hshown : numbers ([Page 1] ++ es ++ pushRange rs re ++ ee ++ [Page totalPages])
                   = 1 :: map (fun i => rs + Z.of_nat i) (seq 0 (Z.to_nat (re - rs + 1)))
                        ++ [totalPages]).
  { rewrite !numbers_app, Hes, Hee, numbers_pushRange. reflexivity. }
  rewrite Hshown.
  assert (Hin : forall p,
             In p (1 :: map (fun i => rs + Z.of_nat i) (seq 0 (Z.to_nat (re - rs + 1)))
                     ++ [totalPages])
             <-> p = 1 \/ rs <= p <= re \/ p = totalPages).
  { intros p. cbn [In]. rewrite in_app_iff, In_range. cbn [In]. intuition lia. }
  assert (HinS : In EllipsisStart
                   ([Page 1] ++ es ++ pushRange rs re ++ ee ++ [Page totalPages])
                 <-> 2 < rs).
  { subst es ee. cbn [app In]. rewrite !in_app_iff. unfold pushRange. split.
    - intros [H|[H|[H|[H|H]]]]; try discriminate.
      + destruct (Z.ltb_spec 2 rs); [lia|destruct H].
      + apply in_map_iff in H. destruct H as [i [E _]]. discriminate.
      + destruct (re <? totalPages - 1); [destruct H as [H|[]]; discriminate|destruct H].
      + destruct H as [H|[]]; discriminate.
    - intros H. right. left. destruct (Z.ltb_spec 2 rs); [now left|lia]. }
  assert (HinE : In EllipsisEnd
                   ([Page 1] ++ es ++ pushRange rs re ++ ee ++ [Page totalPages])
                 <-> re < totalPages - 1).
  { subst es ee. cbn [app In]. rewrite !in_app_iff. unfold pushRange. split.
    - intros [H|[H|[H|[H|H]]]]; try discriminate.
      + destruct (2 <? rs); [destruct H as [H|[]]; discriminate|destruct H].
      + apply in_map_iff in H. destruct H as [i [E _]]. discriminate.
      + destruct (Z.ltb_spec re (totalPages - 1)); [lia|destruct H].
      + destruct H as [H|[]]; discriminate.
    - intros H. right. right. right. left.
      destruct (Z.ltb_spec re (totalPages - 1)); [now left|lia]. }
  split; [exact Hrender|].
  split.
  { constructor.
    - apply StronglySorted_append.
      + apply sorted_range.
      + repeat constructor.
      + intros x y Hx Hy. apply In_range in Hx. destruct Hy as [<-|[]]. lia.
    - apply Forall_forall. intros x Hx. rewrite in_app_iff, In_range in Hx.
      cbn [In] in Hx. lia. }
  split; [reflexivity|].
  split.
  { change (1 :: map (fun i => rs + Z.of_nat i) (seq 0 (Z.to_nat (re - rs + 1)))
              ++ [totalPages])
      with ((1 :: map (fun i => rs + Z.of_nat i) (seq 0 (Z.to_nat (re - rs + 1))))
              ++ [totalPages]).
    apply last_last. }
  split; [intros p Hp; apply Hin in Hp; lia|].
  split; [intros p Hp Hnear; apply Hin; lia|].
  split.
  { intros p Hp Hnot. rewrite Hin in Hnot. rewrite HinS, HinE. lia. }
  split; [rewrite HinS, Hin; lia|].
  split; [rewrite HinE, Hin; lia|].
  split.
  { rewrite !length_app. unfold pushRange. rewrite length_map, length_seq.
    subst es ee. destruct (2 <? rs), (re <? totalPages - 1); cbn [List.length]; lia. }
  intros p Hp. rewrite !in_app_iff, Hin in Hp.
  destruct (Z.ltb_spec 1 currentPage), (Z.ltb_spec currentPage totalPages);
    cbn [In] in Hp; lia.
Qed.

End PageButtons.

(* ================================================================== *)
(** * Contacting the owner, once and again *)

Section ContactOwnerFacts.
Context {JsonValue : Type}.
Implicit Types (srv : Server MemStorage.t JsonValue).

Lemma stored_under_id (s : MemStorage.t) c :
  storeWf s ->
  In c (JsMap.values (MemStorage.conversations s)) ->
  MemStorage.getConversation (Conversation.id c) s = Some c.
Proof.
  intros (_ & _ & [Hwf Hk] & _) Hin. apply JsMapFacts.In_values in Hin.
  destruct Hin as [k Hin]. apply JsMapFacts.In_get in Hin; [|exact Hwf].
  destruct (Hk k c Hin) as [-> _]. exact Hin.
Qed.

Lemma postConversations_mem_effect srv u data :
  u = InsertConversation.adopterId data \/ u = InsertConversation.ownerId data ->
  MemStorage.getPet (InsertConversation.petId data) (store (backend srv)) <> None ->
  countersPositive (store (backend srv)) /\ storeWf (store (backend srv)) ->
  let r := postConversations (Some u) (Some data) srv in
  let s1 := store (backend (snd r)) in
  exists c,
    body (fst r) = ConversationBody c /\
    (status (fst r) = 200 \/ status (fst r) = 201) /\
    MemStorage.getConversationByParticipants
      (InsertConversation.petId data) (InsertConversation.adopterId data)
      (InsertConversation.ownerId data) s1 = Some c /\
    (countersPositive s1 /\ storeWf s1) /\
    MemStorage.getPet (InsertConversation.petId data) s1 <> None /\
    MemStorage.messages s1 = MemStorage.messages (store (backend srv)) /\
    MemStorage.currentMessageId s1 = MemStorage.currentMessageId (store (backend srv)).
Proof.
  intros Hor Hpet Hshape r s1. subst s1 r.
  rewrite (postConversations_run srv u data (participant_ok u data Hor) Hpet).
  destruct (MemStorage.getConversationByParticipants
              (InsertConversation.petId data) (InsertConversation.adopterId data)
              (InsertConversation.ownerId data) (store (backend srv))) as [c|] eqn:Hfind.
  - exists c. cbn [fst snd body status json].
    split; [reflexivity|]. split; [now left|]. split; [exact Hfind|].
    split; [exact Hshape|]. split; [exact Hpet|]. split; reflexivity.
  - cbv zeta. cbn [fst snd body status json afterCreate backend store].
    eexists. split; [reflexivity|]. split; [now right|].
    split.
    { unfold MemStorage.getConversationByParticipants in *.
      cbn [MemStorage.createConversation snd MemStorage.withConversations
           MemStorage.conversations].
      apply array_find_set_new; [exact Hfind|].
      apply (sameParticipants_own data _ (store (backend srv))). }
    split.
    { apply (storeWf_apply (MemStorage.CreateConversation data)
               (clock (backend srv) (dateReads (backend srv))) _ Hshape). }
    split; [exact Hpet|]. split; reflexivity.
Qed.

Lemma postMessages_mem_effect srv u data conv :
  MemStorage.getConversation (md_conversationId data) (store (backend srv)) = Some conv ->
  u = Conversation.adopterId conv \/ u = Conversation.ownerId conv ->
  let r := postMessages (Some u) (Some data) srv in
  exists now1 now2,
    let created :=
      MemStorage.createMessage
        (InsertMessage.mk (md_conversationId data) (md_content data) u) now1
        (store (backend srv)) in
    fst r = json 201 (MessageBody (fst created)) /\
    store (backend (snd r))
    = MemStorage.updateConversationLastMessageTime (md_conversationId data) now2
        (snd created).
Proof.
  intros Hc Hor r. subst r.
  destruct srv as [[s ck dr df ds dt] conns ready pub out]. cbn [backend store] in *.
  exists (ck dr), (ck (S dr)).
  unfold postMessages, tryCatch, bind, parse, await, publish, ret.
  cbn [getConversation createMessage updateConversationLastMessageTime MemStorage_IStorage].
  unfold onStore, bind, newDate, ret.
  cbn [backend store clock dateReads dbFaults dbStatements dbTraces
       connections readyState published outbox fst snd].
  rewrite Hc. apply notParticipant_false in Hor. rewrite Hor.
  unfold MemStorage.getConversation in Hc.
  cbn [MemStorage.createMessage MemStorage.withMessages MemStorage.conversations
       backend store clock dateReads dbFaults dbStatements dbTraces fst snd
       InsertMessage.conversationId].
  rewrite Hc. cbn. split; reflexivity.
Qed.

Lemma array_find_set_same {V : Type} (idOf : V -> Z) (p : V -> bool) (m : JsMap.t V)
    (k : Z) (v v' : V) :
  (forall k1 v1, In (k1, v1) m -> idOf v1 = k1) ->
  JsMap.get k m = Some v ->
  array_find p (JsMap.values m) = Some v -> p v' = true ->
  array_find p (JsMap.values (JsMap.set k v' m)) = Some v'.
Proof.
  induction m as [|[k0 v0] r IH]; simpl; [discriminate|].
  intros Hid Hget Hfind Hp.
  destruct (Z.eqb_spec k0 k) as [->|Hne]; simpl.
  - now rewrite Hp.
  - destruct (p v0) eqn:E0.
    + injection Hfind as ->. exfalso. apply Hne.
      rewrite <- (Hid k0 v (or_introl eq_refl)).
      apply Hid. right. now apply JsMapFacts.get_In.
    + apply IH; trivial. intros k1 v1 H1. apply Hid. now right.
Qed.

Lemma find_after_message petId adopterId ownerId im now1 now2 s c :
  storeWf s ->
  MemStorage.getConversationByParticipants petId adopterId ownerId s = Some c ->
  exists c',
    MemStorage.getConversationByParticipants petId adopterId ownerId
      (MemStorage.updateConversationLastMessageTime (Conversation.id c) now2
         (snd (MemStorage.createMessage im now1 s))) = Some c' /\
    Conversation.id c' = Conversation.id c.
Proof.
  intros Hwf Hfind.
  pose proof (array_find_Some _ _ _ Hfind) as [Hin Hsame].
  pose proof (stored_under_id s c Hwf Hin) as Hget.
  unfold MemStorage.getConversation in Hget.
  unfold MemStorage.updateConversationLastMessageTime, MemStorage.getConversationByParticipants.
  cbn [MemStorage.createMessage snd MemStorage.withMessages MemStorage.conversations].
  rewrite Hget. cbn [MemStorage.withConversations MemStorage.conversations].
  exists (Conversation.mk (Conversation.id c) (Conversation.petId c)
            (Conversation.adopterId c) (Conversation.ownerId c)
            (Conversation.title c) now2).
  split; [|reflexivity].
  destruct Hwf as (_ & _ & [Hnd Hk] & _).
  apply (array_find_set_same Conversation.id _ _ _ c); trivial.
  intros k1 v1 H1. apply (JsMapFacts.In_get _ _ _ Hnd) in H1. now apply Hk.
Qed.


End ContactOwnerFacts.

(* ================================================================== *)
(** * Roles and the admin gate *)

Section AdminGate.
Import MemStorage.

(** X27.  The admin gate reads [isAdmin] and never the role.
    [updateUserRole] on a stored user sets the role given and sets
    [isAdmin] to the flag given, or, when none is given, to whether the
    role is admin; it keeps the user's other fields, id and creation
    time and the other users.  The updated user passes [requireAdmin]
    exactly when that flag is true: a user made admin by role with the
    flag false is refused, and a user of any role with the flag true
    passes.  On an unknown id nothing changes. *)
Theorem requireAdmin_reads_isAdmin_only id role isAdmin s :
  let r := updateUserRole id role isAdmin s in
  let flag :=
    match isAdmin with
    | Some b => b
    | None => match role with RoleAdmin => true | _ => false end
    end in
  (forall user, requireAdmin (Some user) = Next <->
                InsertUser.isAdmin (User.fields user) = Some true) /\
  (getUser id s = None -> r = (None, s)) /\
  (forall user,
      getUser id s = Some user ->
      exists updated,
        fst r = Some updated /\
        getUser id (snd r) = Some updated /\
        InsertUser.role (User.fields updated) = Some role /\
        InsertUser.isAdmin (User.fields updated) = Some flag /\
        (requireAdmin (Some updated) = Next <-> flag = true) /\
        User.id updated = User.id user /\
        User.createdAt updated = User.createdAt user /\
        InsertUser.username (User.fields updated) = InsertUser.username (User.fields user) /\
        InsertUser.password (User.fields updated) = InsertUser.password (User.fields user) /\
        InsertUser.email (User.fields updated) = InsertUser.email (User.fields user) /\
        InsertUser.name (User.fields updated) = InsertUser.name (User.fields user)) /\
  (forall k, k <> id -> getUser k (snd r) = getUser k s) /\
  pets (snd r) = pets s /\ conversations (snd r) = conversations s /\
  messages (snd r) = messages s.
Proof.
  intros r flag. subst r.
  assert (Hgate : forall user, requireAdmin (Some user) = Next <->
                    InsertUser.isAdmin (User.fields user) = Some true).
  { intros user. unfold requireAdmin.
    destruct (InsertUser.isAdmin (User.fields user)) as [[|]|]; split;
      try reflexivity; discriminate. }
  split; [exact Hgate|].
  unfold updateUserRole, getUser.
  destruct (JsMap.get id (users s)) as [user|] eqn:E.
  - cbn [fst snd withUsers users pets conversations messages].
    split; [discriminate|]. split.
    + intros user0 H. injection H as <-. eexists. split; [reflexivity|].
      split; [apply JsMapFacts.get_set_eq|].
      cbn [User.fields User.id User.createdAt InsertUser.role InsertUser.isAdmin
           InsertUser.username InsertUser.password InsertUser.email InsertUser.name].
      split; [reflexivity|]. split; [reflexivity|]. split.
      * rewrite Hgate. cbn [User.fields InsertUser.isAdmin]. fold flag.
        split; [intros H; now injection H|intros ->; reflexivity].
      * repeat split.
    + split; [intros k Hk; apply JsMapFacts.get_set_ne; congruence|]. repeat split.
  - split; [reflexivity|]. split; [discriminate|]. repeat split.
Qed.

End AdminGate.

(* ================================================================== *)
(** * The further statements at sample states *)

(** The shape of a sample store, one operation after the other. *)
Lemma sample_shape (ops : list (MemStorage.Op * Z)) :
  let s := fold_left (fun s o => MemStorage.apply (fst o) (snd o) s) ops MemStorage.init in
  countersPositive s /\ storeWf s.
Proof.
  assert (H : forall s0, countersPositive s0 /\ storeWf s0 ->
            let s := fold_left (fun s o => MemStorage.apply (fst o) (snd o) s) ops s0 in
            countersPositive s /\ storeWf s).
  { induction ops as [|[op now] r IH]; intros s0 H0; simpl; [exact H0|].
    apply IH. now apply storeWf_apply. }
  apply H. split; [unfold countersPositive; simpl; lia|].
  unfold storeWf. simpl.
  repeat split; try apply NoDup_nil; simpl in *; discriminate.
Qed.

Lemma oneMessage_shape :
  countersPositive Examples.oneMessage /\ storeWf Examples.oneMessage.
Proof.
  exact (sample_shape
           [(MemStorage.CreatePet Examples.rex 3, 900);
            (MemStorage.CreateConversation
               (InsertConversation.mk 1 2 3 "Inquiry about Rex"), 1000);
            (MemStorage.CreateMessage (InsertMessage.mk 1 "Hello" 2), 2000)]).
Qed.

Lemma twoConversations_shape :
  countersPositive Samples.twoConversations /\ storeWf Samples.twoConversations.
Proof.
  exact (sample_shape
           [(MemStorage.CreatePet Examples.rex 3, 900);
            (MemStorage.CreatePet Samples.tom 4, 950);
            (MemStorage.CreateConversation
               (InsertConversation.mk 1 2 3 "Inquiry about Rex"), 1000);
            (MemStorage.CreateConversation
               (InsertConversation.mk 2 5 4 "Inquiry about Tom"), 1100);
            (MemStorage.CreateMessage (InsertMessage.mk 1 "Hello" 2), 2000);
            (MemStorage.CreateMessage (InsertMessage.mk 2 "Is Tom shy?" 5), 2100)]).
Qed.

Lemma oneBoundOneNot_wf : JsMap.wf (connections Examples.oneBoundOneNot).
Proof.
  unfold JsMap.wf. simpl. repeat constructor; simpl; intuition discriminate.
Qed.

Lemma oneMessage_listed k :
  JsMap.get k (MemStorage.messages Examples.oneMessage) <> None ->
  In k [1; 9; 1] <-> In k [1].
Proof.
  set (s := Examples.oneMessage). vm_compute in s. subst s.
  cbn [JsMap.get MemStorage.messages In].
  destruct (Z.eqb_spec 1 k) as [<-|Hne].
  - intros _. split; intros _; left; reflexivity.
  - intros H. exfalso. now apply H.
Qed.

Lemma oneMessage_senders m :
  In m (MemStorage.getConversationMessages 1 Examples.oneMessage) ->
  Message.senderId m = 2 \/ Message.senderId m = 3.
Proof. intros [<-|[]]. now left. Qed.

Lemma twoConversations_consistent : consistent (store (backend Samples.busyServer)).
Proof.
  split; [exact (proj1 twoConversations_shape)|].
  split; [exact (proj2 twoConversations_shape)|].
  set (s := store (backend Samples.busyServer)). vm_compute in s. subst s.
  unfold referencesResolve, MemStorage.getConversation, MemStorage.getPet.
  cbn [JsMap.get MemStorage.messages MemStorage.conversations MemStorage.pets].
  split.
  - intros k c.
    destruct (Z.eqb_spec 1 k); [intros H; injection H as <-; discriminate|].
    destruct (Z.eqb_spec 2 k); [intros H; injection H as <-; discriminate|discriminate].
  - intros k m.
    destruct (Z.eqb_spec 1 k);
      [intros H; injection H as <-; eexists; split; [reflexivity|now left]|].
    destruct (Z.eqb_spec 2 k);
      [intros H; injection H as <-; eexists; split; [reflexivity|now left]|discriminate].
Qed.

(** The models run on the samples. *)
Example getPageNumbers_5_of_9 :
  Pagination.getPageNumbers 5 9
  = [Pagination.Page 1; Pagination.EllipsisStart; Pagination.Page 4; Pagination.Page 5;
     Pagination.Page 6; Pagination.EllipsisEnd; Pagination.Page 9] /\
  Pagination.getPageNumbers 1 5
  = [Pagination.Page 1; Pagination.Page 2; Pagination.Page 3; Pagination.Page 4;
     Pagination.Page 5] /\
  Pagination.render 1 1 = None.
Proof. repeat split. Qed.

Example searchPets_dogs :
  searchPets (fun s => s) Samples.dogsByTwos Samples.twoConversations
  = SearchResult.mk [Samples.storedRex] 1 1.
Proof. reflexivity. Qed.

Example getOwnerInquiries_sample :
  MemStorageQueries.getOwnerInquiries 3 Examples.oneMessage
  = [Inquiry.mk 1 (Some 1) "Rex" "Unknown User" "Hello" 2000 1].
Proof. reflexivity. Qed.

Example getMessages_sample :
  fst (getMessages (Some 3) (Num 1) Samples.oneMessageServer) = MessagesOk [Examples.hello] /\
  fst (getMessages (Some 5) (Num 1) Samples.oneMessageServer)
  = MessagesError 403 "Not authorized to view this conversation" /\
  fst (getMessages (Some 3) NaN Samples.oneMessageServer)
  = MessagesError 404 "Conversation not found".
Proof. repeat split. Qed.

(** The sample store with one message. *)
Lemma reachable_storeWf_witness :
  MemStorage.reachable Examples.oneMessage /\
  (countersPositive Examples.oneMessage /\ storeWf Examples.oneMessage).
Proof.
  split; [exact oneMessage_reachable|].
  refine (reachable_storeWf
            Examples.oneMessage _);
    [ exact oneMessage_reachable ].
Defined.

(** Deleting Rex from the sample store. *)
Lemma deletePet_cascade_witness :
  storeWf Examples.oneMessage /\
  (let s' := MemStorage.deletePet 1 Examples.oneMessage in
    storeWf s' /\
    MemStorage.getPet 1 s' = None /\
    (forall k : Z,
     k <> 1 -> MemStorage.getPet k s' = MemStorage.getPet k Examples.oneMessage) /\
    (forall (k : Z) (c : Conversation.t),
     MemStorage.getConversation k s' = Some c <->
     MemStorage.getConversation k Examples.oneMessage = Some c /\
     Conversation.petId c <> 1) /\
    (forall (k : Z) (m : Message.t),
     JsMap.get k (MemStorage.messages s') = Some m <->
     JsMap.get k (MemStorage.messages Examples.oneMessage) = Some m /\
     (forall c : Conversation.t,
      MemStorage.getConversation (Message.conversationId m) Examples.oneMessage = Some c ->
      Conversation.petId c <> 1)) /\
    MemStorage.users s' = MemStorage.users Examples.oneMessage).
Proof.
  split; [exact (proj2 oneMessage_shape)|].
  refine (deletePet_cascade
            1 Examples.oneMessage _);
    [ exact (proj2 oneMessage_shape) ].
Defined.

(** The owner's reply in the sample store. *)
Lemma createMessage_then_fetch_witness :
  MemStorage.messagesWf Examples.oneMessage /\
  (let message :=
      fst (MemStorage.createMessage Samples.thanks 2500 Examples.oneMessage) in
    let s' := snd (MemStorage.createMessage Samples.thanks 2500 Examples.oneMessage) in
    let cid := InsertMessage.conversationId Samples.thanks in
    message =
    {|
      Message.id := MemStorage.currentMessageId Examples.oneMessage;
      Message.conversationId := cid;
      Message.senderId := InsertMessage.senderId Samples.thanks;
      Message.content := InsertMessage.content Samples.thanks;
      Message.isRead := false;
      Message.createdAt := 2500
    |} /\
    JsMap.get (Message.id message) (MemStorage.messages Examples.oneMessage) = None /\
    JsMap.get (Message.id message) (MemStorage.messages s') = Some message /\
    (forall k : Z,
     k <> Message.id message ->
     JsMap.get k (MemStorage.messages s') =
     JsMap.get k (MemStorage.messages Examples.oneMessage)) /\
    Permutation (MemStorage.getConversationMessages cid s')
      (message :: MemStorage.getConversationMessages cid Examples.oneMessage) /\
    ((forall x : Message.t,
      In x (MemStorage.getConversationMessages cid Examples.oneMessage) ->
      Message.createdAt x <= 2500) ->
     MemStorage.getConversationMessages cid s' =
     MemStorage.getConversationMessages cid Examples.oneMessage ++ [message]) /\
    (forall other : Z,
     other <> cid ->
     MemStorage.getConversationMessages other s' =
     MemStorage.getConversationMessages other Examples.oneMessage) /\
    MemStorage.currentMessageId s' = MemStorage.currentMessageId Examples.oneMessage + 1).
Proof.
  split; [exact oneMessage_wf|].
  refine (createMessage_then_fetch
            Samples.thanks 2500 Examples.oneMessage _);
    [ exact oneMessage_wf ].
Defined.


(** A list with a repeat and an unknown id. *)
Lemma markMessagesAsRead_ids_as_set_witness :
  JsMap.wf (MemStorage.messages Examples.oneMessage) /\
  ((forall k : Z,
     JsMap.get k (MemStorage.messages Examples.oneMessage) <> None ->
     In k [1; 9; 1] <-> In k [1])) /\
  MemStorage.markMessagesAsRead [1; 9; 1] 3 Examples.oneMessage =
    MemStorage.markMessagesAsRead [1] 3 Examples.oneMessage.
Proof.
  split; [exact (proj1 oneMessage_wf)|].
  split; [exact oneMessage_listed|].
  refine (markMessagesAsRead_ids_as_set
            [1; 9; 1] [1] 3 Examples.oneMessage _ _);
    [ exact (proj1 oneMessage_wf)
    | exact oneMessage_listed ].
Defined.

(** Marks by users 3 and 2 on the sample store. *)
Lemma markMessagesAsRead_algebra_witness :
  JsMap.wf (MemStorage.messages Examples.oneMessage) /\
  (MemStorage.markMessagesAsRead [1] 3
      (MemStorage.markMessagesAsRead [1] 3 Examples.oneMessage) =
    MemStorage.markMessagesAsRead [1] 3 Examples.oneMessage /\
    MemStorage.markMessagesAsRead [1] 3
      (MemStorage.markMessagesAsRead [1; 2] 2 Examples.oneMessage) =
    MemStorage.markMessagesAsRead [1; 2] 2
      (MemStorage.markMessagesAsRead [1] 3 Examples.oneMessage) /\
    MemStorage.markMessagesAsRead [1; 2] 3
      (MemStorage.markMessagesAsRead [1] 3 Examples.oneMessage) =
    MemStorage.markMessagesAsRead ([1] ++ [1; 2]) 3 Examples.oneMessage).
Proof.
  split; [exact (proj1 oneMessage_wf)|].
  refine (markMessagesAsRead_algebra
            [1] 3 [1; 2] 2 Examples.oneMessage _);
    [ exact (proj1 oneMessage_wf) ].
Defined.

(** The owner opens the conversation about Rex. *)
Lemma markShownAsRead_settles_witness :
  MemStorage.messagesWf Examples.oneMessage /\
  markShownAsRead Samples.aboutRex
      (MemStorage.getConversationMessages (Conversation.id Samples.aboutRex)
         Examples.oneMessage)
      3 =
    [MessageThread.PatchRead 1 [1]] /\
  (let s' := MemStorage.markMessagesAsRead [1] 3 Examples.oneMessage in
    let fetched' :=
      MemStorage.getConversationMessages (Conversation.id Samples.aboutRex) s' in
    1 = Conversation.id Samples.aboutRex /\
    [1] <> [] /\
    filter (unreadFor 3) fetched' = [] /\
    markShownAsRead Samples.aboutRex fetched' 3 = [] /\
    Inquiry.unreadCount (MemStorageQueries.inquiryOf 3 s' Samples.aboutRex) = 0%nat /\
    (forall m : Message.t,
     In m
       (MemStorage.getConversationMessages (Conversation.id Samples.aboutRex)
          Examples.oneMessage) ->
     Message.senderId m = 3 -> In m fetched') /\
    (forall other : Z,
     other <> Conversation.id Samples.aboutRex ->
     MemStorage.getConversationMessages other s' =
     MemStorage.getConversationMessages other Examples.oneMessage)).
Proof.
  split; [exact oneMessage_wf|].
  split; [reflexivity|].
  refine (markShownAsRead_settles
            Samples.aboutRex 3 1 [1] Examples.oneMessage _ _);
    [ exact oneMessage_wf
    | reflexivity ].
Defined.

(** User 5, who is in the conversation about Tom only, marks the message about Rex. *)
Lemma patchMessagesRead_marks_across_conversations_witness :
  let s := store (backend Samples.busyServer) in
  MemStorage.getConversation 2 s = Some Samples.aboutTom /\
  (5 = Conversation.adopterId Samples.aboutTom \/
    5 = Conversation.ownerId Samples.aboutTom) /\
  JsMap.get 1 (MemStorage.messages s) = Some Examples.hello /\
  Message.senderId Examples.hello <> 5 /\
  (let r := patchMessagesRead (Some 5) (Num 2) (Some [1]) Samples.busyServer in
    status (fst r) = 204 /\
    JsMap.get 1 (MemStorage.messages (store (backend (snd r)))) =
    Some (Message.markRead Examples.hello)).
Proof.
  cbv zeta.
  split; [reflexivity|].
  split; [left; reflexivity|].
  split; [reflexivity|].
  split; [discriminate|].
  refine (patchMessagesRead_marks_across_conversations
            5 2 Samples.aboutTom 1 Examples.hello Samples.busyServer _ _ _ _);
    [ reflexivity
    | left; reflexivity
    | reflexivity
    | discriminate ].
Defined.

(** Connection 2 of the sample server whose connection 1 is closing. *)
Lemma connection_lifecycle_witness :
  JsMap.wf (connections Samples.oneClosing) /\
  ((forall (cid : jsnum) (message : WebSocketMessage Z) (ex : option WebSocket),
     ~ reaches (onConnection 2 Samples.oneClosing) cid message ex 2) /\
    (forall (userId0 conversationId0 : Z) (cid : jsnum) (message : WebSocketMessage Z)
       (ex0 : option WebSocket),
     reaches
       (onMessage Examples.parseNumber 2 (AuthFrame userId0 conversationId0)
          Samples.oneClosing)
       cid message ex0 2 <->
     readyState Samples.oneClosing 2 = OPEN /\
     ex0 <> Some 2 /\
     exists k : Z, Examples.parseNumber conversationId0 = Num k /\ cid = Num k) /\
    (forall (cid : jsnum) (message : WebSocketMessage Z) (ex : option WebSocket),
     ~ reaches (onClose 2 Samples.oneClosing) cid message ex 2) /\
    (forall (other : WebSocket) (frame : ClientFrame Z) (cid : jsnum)
       (message : WebSocketMessage Z) (ex : option WebSocket),
     other <> 2 ->
     (reaches (onConnection 2 Samples.oneClosing) cid message ex other <->
      reaches Samples.oneClosing cid message ex other) /\
     (reaches (onMessage Examples.parseNumber 2 frame Samples.oneClosing) cid
        message ex other <->
      reaches Samples.oneClosing cid message ex other) /\
     (reaches (onClose 2 Samples.oneClosing) cid message ex other <->
      reaches Samples.oneClosing cid message ex other)) /\
    (forall (socket : WebSocket) (frame : ClientFrame Z) (cid : jsnum)
       (message : WebSocketMessage Z) (ex : option WebSocket),
     readyState Samples.oneClosing socket = CONNECTING \/
     readyState Samples.oneClosing socket = CLOSING \/
     readyState Samples.oneClosing socket = CLOSED ->
     ~ reaches (onMessage Examples.parseNumber 2 frame Samples.oneClosing) cid
         message ex socket)).
Proof.
  split; [exact oneBoundOneNot_wf|].
  refine (connection_lifecycle
            Examples.parseNumber Samples.oneClosing 2 _);
    [ exact oneBoundOneNot_wf ].
Defined.

Lemma strictEquals_own_sample (v : Examples.SampleValue) :
  strictEquals v (ChatSocket.opt_userId Examples.withCallbacks) = true ->
  v = ChatSocket.opt_userId Examples.withCallbacks.
Proof. destruct v; simpl; congruence. Defined.

(** User 4 types again at 6000. *)
Lemma typing_entry_lifetime_witness :
  PlainObject.wf Examples.twoTyping /\
  (forall v : Examples.SampleValue,
      strictEquals v (ChatSocket.opt_userId Examples.withCallbacks) = true ->
      v = ChatSocket.opt_userId Examples.withCallbacks) /\
  Examples.number_4 <> ChatSocket.opt_userId Examples.withCallbacks /\
  let k := toPropertyKey Examples.number_4 in
  let shown :=
    fst (ChatSocket.onmessage Examples.withCallbacks 6000
           (ChatSocket.typing (Some Examples.number_4)) Examples.twoTyping) in
  PlainObject.wf shown /\
  PlainObject.get k shown = Some (ChatSocket.mkTypingState Examples.number_4 6000) /\
  (forall k', k' <> k -> PlainObject.get k' shown = PlainObject.get k' Examples.twoTyping) /\
  (forall now,
      (forall id, In id (PlainObject.keys shown) -> toPropertyKey (toNumber id) = id) ->
      PlainObject.get k (fst (ChatSocket.sweep Examples.withCallbacks now shown))
      = if 3000 <? now - 6000
        then None
        else Some (ChatSocket.mkTypingState Examples.number_4 6000)) /\
  (forall t1,
      PlainObject.get k
        (fst (ChatSocket.onmessage Examples.withCallbacks t1
                (ChatSocket.stop_typing (Some Examples.number_4)) shown)) = None /\
      forall k', k' <> k ->
        PlainObject.get k'
          (fst (ChatSocket.onmessage Examples.withCallbacks t1
                  (ChatSocket.stop_typing (Some Examples.number_4)) shown))
        = PlainObject.get k' Examples.twoTyping).
Proof.
  split; [exact twoTyping_wf|].
  split; [exact strictEquals_own_sample|].
  split; [discriminate|].
  refine (typing_entry_lifetime
            Examples.withCallbacks Examples.number_4 6000 Examples.twoTyping _ _ _);
    [ exact twoTyping_wf
    | exact strictEquals_own_sample
    | discriminate ].
Defined.

(** Sweeps at 5500 and 9000. *)
Lemma sweep_compose_witness :
  PlainObject.wf Examples.twoTyping /\
  (((forall id typingState,
      PlainObject.get id Examples.twoTyping = Some typingState ->
      5500 - ChatSocket.timestamp typingState <= 3000) ->
    ChatSocket.sweep Examples.withCallbacks 5500 Examples.twoTyping
    = (Examples.twoTyping, [])) /\
   ((forall id, In id (PlainObject.keys Examples.twoTyping) ->
                toPropertyKey (toNumber id) = id) ->
    (9000 <= 5500 ->
     ChatSocket.sweep Examples.withCallbacks 9000
       (fst (ChatSocket.sweep Examples.withCallbacks 5500 Examples.twoTyping))
     = (fst (ChatSocket.sweep Examples.withCallbacks 5500 Examples.twoTyping), [])) /\
    (5500 <= 9000 ->
     fst (ChatSocket.sweep Examples.withCallbacks 9000
            (fst (ChatSocket.sweep Examples.withCallbacks 5500 Examples.twoTyping)))
     = fst (ChatSocket.sweep Examples.withCallbacks 9000 Examples.twoTyping)))).
Proof.
  split; [exact twoTyping_wf|].
  refine (sweep_compose
            Examples.withCallbacks 5500 9000 Examples.twoTyping _);
    [ exact twoTyping_wf ].
Defined.



(** Dogs, two to a page. *)
Lemma searchPets_pages_witness :
  let limit := orNumber (SearchPetsParams.limit Samples.dogsByTwos) 12 in
  let matches :=
    searchMatches (fun s : string => s) Samples.dogsByTwos Samples.twoConversations in
  let result :=
    fun p : Z =>
    searchPets (fun s : string => s)
      (SearchPetsParams.withPage Samples.dogsByTwos (Some p)) Samples.twoConversations
    in
  let totalCount :=
    SearchResult.totalCount
      (searchPets (fun s : string => s) Samples.dogsByTwos Samples.twoConversations)
    in
  let totalPages :=
    SearchResult.totalPages
      (searchPets (fun s : string => s) Samples.dogsByTwos Samples.twoConversations)
    in
  0 < limit /\
  (totalCount = Z.of_nat (Datatypes.length matches) /\
    (totalPages - 1) * limit < totalCount <= totalPages * limit /\
    (forall p : Z,
     SearchResult.totalCount (result p) = totalCount /\
     SearchResult.totalPages (result p) = totalPages) /\
    (forall p : Z,
     1 <= p ->
     SearchResult.pets (result p) =
     firstn (Z.to_nat limit) (skipn (Z.to_nat ((p - 1) * limit)) matches)) /\
    List.concat
      (map (fun p : nat => SearchResult.pets (result (Z.of_nat p)))
         (seq 1 (Z.to_nat totalPages))) =
    matches /\ (forall p : Z, totalPages < p -> SearchResult.pets (result p) = [])).
Proof.
  cbv zeta.
  split; [reflexivity|].
  refine (searchPets_pages
            (fun s => s) Samples.dogsByTwos Samples.twoConversations _);
    [ reflexivity ].
Defined.

(** The adopter writes again; the owner's thread receives it. *)
Lemma send_then_receive_witness :
  let s := store (backend Samples.oneMessageServer) in
  let cid := md_conversationId Samples.stillThere in
  let reads := dateReads (backend Samples.oneMessageServer) in
  let now := clock (backend Samples.oneMessageServer) reads in
  MemStorage.messagesWf s /\
  MemStorage.getConversation cid s = Some Samples.aboutRex /\
  (2 = Conversation.adopterId Samples.aboutRex \/
    2 = Conversation.ownerId Samples.aboutRex) /\
  (let r := postMessages (Some 2) (Some Samples.stillThere) Samples.oneMessageServer in
    let s' := store (backend (snd r)) in
    let message :=
      {|
        Message.id := MemStorage.currentMessageId s;
        Message.conversationId := cid;
        Message.senderId := 2;
        Message.content := md_content Samples.stillThere;
        Message.isRead := false;
        Message.createdAt := now
      |} in
    let received :=
      MessageThread.handleNewMessage cid 3 message
        (Some (MemStorage.getConversationMessages cid s))
      in
    fst r = json 201 (MessageBody message) /\
    published (snd r) =
    published Samples.oneMessageServer ++ [(Num cid, new_message message)] /\
    JsMap.get (Message.id message) (MemStorage.messages s') = Some message /\
    MemStorage.getConversation cid s' =
    Some
      {|
        Conversation.id := Conversation.id Samples.aboutRex;
        Conversation.petId := Conversation.petId Samples.aboutRex;
        Conversation.adopterId := Conversation.adopterId Samples.aboutRex;
        Conversation.ownerId := Conversation.ownerId Samples.aboutRex;
        Conversation.title := Conversation.title Samples.aboutRex;
        Conversation.lastMessageAt := clock (backend Samples.oneMessageServer) (S reads)
      |} /\
    (forall k : Z,
     k <> cid -> MemStorage.getConversation k s' = MemStorage.getConversation k s) /\
    Permutation (MemStorage.getConversationMessages cid s')
      (message :: MemStorage.getConversationMessages cid s) /\
    ((forall x : Message.t,
      In x (MemStorage.getConversationMessages cid s) -> Message.createdAt x <= now) ->
     fst received = MemStorage.getConversationMessages cid s') /\
    (In (MessageThread.PatchRead cid [Message.id message]) (snd received) <-> 3 <> 2)).
Proof.
  cbv zeta.
  split; [exact oneMessage_wf|].
  split; [reflexivity|].
  split; [left; reflexivity|].
  refine (send_then_receive
            2 Samples.stillThere Samples.aboutRex 3 Samples.oneMessageServer _ _ _);
    [ exact oneMessage_wf
    | reflexivity
    | left; reflexivity ].
Defined.

(** The owner's receipt reaches the adopter's thread. *)
Lemma read_receipt_keeps_cache_in_step_witness :
  MemStorage.messagesWf Examples.oneMessage /\
  3 <> 2 /\
  ((forall m : Message.t,
     In m (MemStorage.getConversationMessages 1 Examples.oneMessage) ->
     Message.senderId m = 2 \/ Message.senderId m = 3)) /\
  (MessageThread.applyMessageRead 2 [1] 3
      (Some (MemStorage.getConversationMessages 1 Examples.oneMessage)) =
    Some
      (MemStorage.getConversationMessages 1
         (MemStorage.markMessagesAsRead [1] 3 Examples.oneMessage)) /\
    (forall cache : option (list Message.t),
     MessageThread.applyMessageRead 2 [1] 2 cache = cache)).
Proof.
  split; [exact oneMessage_wf|].
  split; [discriminate|].
  split; [exact oneMessage_senders|].
  refine (read_receipt_keeps_cache_in_step
            1 [1] 3 2 Examples.oneMessage _ _ _);
    [ exact oneMessage_wf
    | discriminate
    | exact oneMessage_senders ].
Defined.

(** The sample server with two conversations. *)
Lemma handlers_keep_references_witness :
  consistent (store (backend Samples.busyServer)) /\
  ((forall (user : option Z) (body0 : option InsertConversation.t),
     consistent
       (store (backend (snd (postConversations user body0 Samples.busyServer))))) /\
    (forall (user : option Z) (body0 : option MessageData),
     consistent (store (backend (snd (postMessages user body0 Samples.busyServer))))) /\
    (forall (user : option Z) (conversationId0 : jsnum) (messageIds : option (list Z)),
     consistent
       (store
          (backend
             (snd (patchMessagesRead user conversationId0 messageIds Samples.busyServer))))) /\
    (forall (user : option Z) (petId : jsnum),
     consistent (store (backend (snd (deletePets user petId Samples.busyServer))))) /\
    (forall (op : MemStorage.Op) (now : Z),
     onUsersOrPets op = true ->
     consistent (MemStorage.apply op now (store (backend Samples.busyServer))))).
Proof.
  split; [exact twoConversations_consistent|].
  refine (handlers_keep_references
            Samples.busyServer _);
    [ exact twoConversations_consistent ].
Defined.

(** User 5 opens a conversation about Rex as its owner. *)
Lemma postConversations_owner_unchecked_witness :
  let s := store (backend Samples.busyServer) in
  let data :=
    {|
      InsertConversation.petId := Pet.id Samples.storedRex;
      InsertConversation.adopterId := 7;
      InsertConversation.ownerId := 5;
      InsertConversation.title := "Mine"
    |} in
  MemStorage.getPet (Pet.id Samples.storedRex) s = Some Samples.storedRex /\
  (let r := postConversations (Some 5) (Some data) Samples.busyServer in
    let s' := store (backend (snd r)) in
    exists c : Conversation.t,
      body (fst r) = ConversationBody c /\
      (status (fst r) = 200 \/ status (fst r) = 201) /\
      Conversation.petId c = Pet.id Samples.storedRex /\
      Conversation.ownerId c = 5 /\
      In c (JsMap.values (MemStorage.conversations s')) /\
      In (Conversation.id c)
        (map Inquiry.conversationId (MemStorageQueries.getOwnerInquiries 5 s'))).
Proof.
  cbv zeta.
  split; [reflexivity|].
  refine (postConversations_owner_unchecked
            Samples.busyServer 5 7 Samples.storedRex "Mine" _);
    [ reflexivity ].
Defined.

(** Page 5 of 9. *)
Lemma getPageNumbers_spec_witness :
  2 <= 9 /\
  1 <= 5 <= 9 /\
  (let items := Pagination.getPageNumbers 5 9 in
    let shown := Pagination.numbers items in
    Pagination.render 5 9 = Some items /\
    StronglySorted Z.lt shown /\
    hd_error shown = Some 1 /\
    last shown 0 = 9 /\
    (forall p : Z, In p shown -> 1 <= p <= 9) /\
    (forall p : Z, 1 <= p <= 9 -> 5 - 1 <= p <= 5 + 1 -> In p shown) /\
    (forall p : Z,
     1 <= p <= 9 ->
     ~ In p shown ->
     p < 5 /\ In Pagination.EllipsisStart items \/
     5 < p /\ In Pagination.EllipsisEnd items) /\
    (In Pagination.EllipsisStart items -> ~ In 2 shown) /\
    (In Pagination.EllipsisEnd items -> ~ In (9 - 1) shown) /\
    (Datatypes.length items <= 7)%nat /\
    (forall p : Z, In p (Pagination.requests 5 9) -> 1 <= p <= 9)).
Proof.
  split; [lia|].
  split; [lia|].
  refine (getPageNumbers_spec
            5 9 _ _);
    [ lia
    | lia ].
Defined.

